(** * JetEngine: the per-user link store over an ordered key-value engine

    A shallow embedding of [internal/domain/link.go] and
    [internal/storage/badger.go], together with models of the library
    calls the store is written against ([fmt.Sprintf], [unicode/utf8],
    [encoding/json], [time], [sort.Slice] and the BadgerDB transaction
    API), of [LoadConfig] of [internal/config/config.go] and of
    [ScrapeMetadata] of the rod scraper, whose collaborators (viper, the
    browser) are given by what they answer; followed by the properties
    of the store, the configuration and the scraper.

    Go strings are byte sequences: they are modelled by [string], whose
    characters are the 256 byte values.  [int64] values are modelled by
    [Z]. *)

From Stdlib Require Import ZArith List String Ascii Bool Lia.
From Stdlib Require Import Sorted Permutation.
From Stdlib Require Import DecimalString DecimalZ.
Import ListNotations.

Local Open Scope Z_scope.

(** ** Bytes *)

Definition byte_val (c : ascii) : Z := Z.of_N (N_of_ascii c).

Definition byte_of (z : Z) : ascii := ascii_of_N (Z.to_N z).

(** The double quote character (code 34). *)
Definition dquote : ascii := "034"%char.

(** The backslash character (code 92). *)
Definition bslash : ascii := "092"%char.

(** [skipn] on strings. *)
Fixpoint drop_bytes (n : nat) (s : string) : string :=
  match n, s with
  | O, _ => s
  | S n', String _ s' => drop_bytes n' s'
  | S _, EmptyString => EmptyString
  end.

(** [firstn] on strings. *)
Fixpoint take_bytes (n : nat) (s : string) : string :=
  match n, s with
  | O, _ => EmptyString
  | S n', String c s' => String c (take_bytes n' s')
  | S _, EmptyString => EmptyString
  end.

(** ** Package [unicode/utf8] *)

Module utf8.

Definition RuneError : Z := 0xFFFD.
Definition RuneSelf : Z := 0x80.
Definition MaxRune : Z := 0x10FFFF.
Definition surrogateMin : Z := 0xD800.
Definition surrogateMax : Z := 0xDFFF.

(** The tables [first] and [acceptRanges]: for a leading byte, the size
    of the sequence and the range accepted for the second byte; [None]
    for a byte that starts no multi-byte sequence. *)
Definition first (x : Z) : option (nat * Z * Z) :=
  if x <? 0xC2 then None
  else if x <? 0xE0 then Some (2%nat, 0x80, 0xBF)
  else if x =? 0xE0 then Some (3%nat, 0xA0, 0xBF)
  else if x =? 0xED then Some (3%nat, 0x80, 0x9F)
  else if x <? 0xF0 then Some (3%nat, 0x80, 0xBF)
  else if x =? 0xF0 then Some (4%nat, 0x90, 0xBF)
  else if x <? 0xF4 then Some (4%nat, 0x80, 0xBF)
  else if x =? 0xF4 then Some (4%nat, 0x80, 0x8F)
  else None.

(** A continuation byte: [locb <= b <= hicb]. *)
Definition cont (b : Z) : bool := (0x80 <=? b) && (b <=? 0xBF).

(** [DecodeRuneInString]: the first rune of [s] and its width in bytes;
    [(RuneError, 1)] for an invalid or short encoding, [(RuneError, 0)]
    for the empty string. *)
Definition DecodeRuneInString (s : string) : Z * nat :=
  match s with
  | EmptyString => (RuneError, 0%nat)
  | String c0 t1 =>
    let s0 := byte_val c0 in
    if s0 <? RuneSelf then (s0, 1%nat)
    else
      match first s0 with
      | None => (RuneError, 1%nat)
      | Some (sz, lo, hi) =>
        match t1 with
        | EmptyString => (RuneError, 1%nat)
        | String c1 t2 =>
          let s1 := byte_val c1 in
          if negb ((lo <=? s1) && (s1 <=? hi)) then (RuneError, 1%nat)
          else if (sz <=? 2)%nat then
            (Z.lor (Z.shiftl (Z.land s0 0x1F) 6) (Z.land s1 0x3F), 2%nat)
          else
            match t2 with
            | EmptyString => (RuneError, 1%nat)
            | String c2 t3 =>
              let s2 := byte_val c2 in
              if negb (cont s2) then (RuneError, 1%nat)
              else if (sz <=? 3)%nat then
                (Z.lor (Z.shiftl (Z.land s0 0x0F) 12)
                   (Z.lor (Z.shiftl (Z.land s1 0x3F) 6) (Z.land s2 0x3F)), 3%nat)
              else
                match t3 with
                | EmptyString => (RuneError, 1%nat)
                | String c3 _ =>
                  let s3 := byte_val c3 in
                  if negb (cont s3) then (RuneError, 1%nat)
                  else
                    (Z.lor (Z.shiftl (Z.land s0 0x07) 18)
                       (Z.lor (Z.shiftl (Z.land s1 0x3F) 12)
                          (Z.lor (Z.shiftl (Z.land s2 0x3F) 6) (Z.land s3 0x3F))),
                     4%nat)
                end
            end
        end
      end
  end.

Definition encode3 (r : Z) : string :=
  String (byte_of (Z.lor 0xE0 (Z.shiftr r 12)))
    (String (byte_of (Z.lor 0x80 (Z.land (Z.shiftr r 6) 0x3F)))
       (String (byte_of (Z.lor 0x80 (Z.land r 0x3F))) EmptyString)).

(** [EncodeRune]: the UTF-8 encoding of a rune; the encoding of
    [RuneError] for a rune out of range or a surrogate half. *)
Definition EncodeRune (r : Z) : string :=
  if (0 <=? r) && (r <=? 0x7F) then String (byte_of r) EmptyString
  else if (0 <=? r) && (r <=? 0x7FF) then
    String (byte_of (Z.lor 0xC0 (Z.shiftr r 6)))
      (String (byte_of (Z.lor 0x80 (Z.land r 0x3F))) EmptyString)
  else if (r <? 0) || (MaxRune <? r) || ((surrogateMin <=? r) && (r <=? surrogateMax))
  then encode3 RuneError
  else if r <=? 0xFFFF then encode3 r
  else
    String (byte_of (Z.lor 0xF0 (Z.shiftr r 18)))
      (String (byte_of (Z.lor 0x80 (Z.land (Z.shiftr r 12) 0x3F)))
         (String (byte_of (Z.lor 0x80 (Z.land (Z.shiftr r 6) 0x3F)))
            (String (byte_of (Z.lor 0x80 (Z.land r 0x3F))) EmptyString))).

(** [ValidString], by the decoding loop: no position decodes to an
    invalid encoding.  [skip] is the number of bytes still covered by the
    rune decoded last. *)
Fixpoint valid_from (skip : nat) (s : string) : bool :=
  match s with
  | EmptyString => true
  | String _ t =>
    match skip with
    | S k => valid_from k t
    | O =>
      let '(r, size) := DecodeRuneInString s in
      if (r =? RuneError) && (size =? 1)%nat then false
      else valid_from (size - 1) t
    end
  end.

Definition ValidString (s : string) : bool := valid_from 0 s.

End utf8.

(** ** Package [strconv] and the [%d] verb of [fmt] *)

Module strconv.

(** [FormatInt(i, 10)]: the decimal digits of [i], with a leading minus
    sign for a negative number. *)
Definition FormatInt (i : Z) : string := NilZero.string_of_int (Z.to_int i).

Definition minInt64 : Z := - 2 ^ 63.
Definition maxInt64 : Z := 2 ^ 63 - 1.

(** [ParseInt(s, 10, 64)] on a JSON number literal: the decimal value of
    a literal made of an optional minus sign and digits, when it fits
    [int64]. *)
Definition ParseInt (s : string) : option Z :=
  match NilZero.int_of_string s with
  | Some d =>
    let z := Z.of_int d in
    if (minInt64 <=? z) && (z <=? maxInt64) then Some z else None
  | None => None
  end.

End strconv.

(** ** Package [time] *)

Module time.

(** A [time.Time] is an instant and a location.  The instant is held as
    [t_sec] seconds since January 1, year 1, 00:00:00 UTC (what the
    method [sec()] returns) and [t_nsec] nanoseconds within the second;
    the location is held as [t_offset], the seconds east of UTC that its
    zone has at that instant.  The monotonic clock reading that
    [time.Now] attaches is left out: JSON encoding strips it, and every
    time compared by the store has been decoded from JSON. *)
Record Time : Type := mkTime { t_sec : Z; t_nsec : Z; t_offset : Z }.

(** The zero value of the type. *)
Definition zero : Time := mkTime 0 0 0.

Definition IsZero (t : Time) : bool := (t_sec t =? 0) && (t_nsec t =? 0).

Definition After (t u : Time) : bool :=
  (t_sec u <? t_sec t) || ((t_sec t =? t_sec u) && (t_nsec u <? t_nsec t)).

Definition secondsPerDay : Z := 86400.
Definition daysPer400Years : Z := 365 * 400 + 97.
Definition daysPer100Years : Z := 365 * 100 + 24.
Definition daysPer4Years : Z := 365 * 4 + 1.

Definition isLeap (year : Z) : bool :=
  (year mod 4 =? 0) && (negb (year mod 100 =? 0) || (year mod 400 =? 0)).

(** The table [daysBefore]: the days of a non-leap year before month
    [m + 1], for [m] from 0 to 12. *)
Definition daysBefore (m : Z) : Z :=
  nth (Z.to_nat m) [0; 31; 59; 90; 120; 151; 181; 212; 243; 273; 304; 334; 365] 0.

(** The days of a month, in a leap year or not. *)
Definition daysInOf (leap : bool) (month : Z) : Z :=
  if (month =? 2) && leap then 29
  else daysBefore month - daysBefore (month - 1).

Definition daysIn (month year : Z) : Z := daysInOf (isLeap year) month.

(** [absDate]: the year and the day of the year (from 0) of a day
    counted from January 1 of year 1. *)
Definition absDate (days : Z) : Z * Z :=
  let n := days / daysPer400Years in
  let y := 400 * n in
  let d := days - daysPer400Years * n in
  let n := d / daysPer100Years in
  let n := n - Z.shiftr n 2 in
  let y := y + 100 * n in
  let d := d - daysPer100Years * n in
  let n := d / daysPer4Years in
  let y := y + 4 * n in
  let d := d - daysPer4Years * n in
  let n := d / 365 in
  let n := n - Z.shiftr n 2 in
  let y := y + n in
  let d := d - 365 * n in
  (y + 1, d).

(** The month and the day of the month of day [yday] of a year, leap
    or not. *)
Definition monthDayOf (leap : bool) (yday : Z) : Z * Z :=
  let leapDay := leap && (yday =? 31 + 29 - 1) in
  if leapDay then (2, 29)
  else
    let day := if leap && (31 + 29 - 1 <? yday) then yday - 1 else yday in
    let month := day / 31 in
    let end_ := daysBefore (month + 1) in
    if end_ <=? day then (month + 2, day - end_ + 1)
    else (month + 1, day - daysBefore month + 1).

Definition monthDay (year yday : Z) : Z * Z := monthDayOf (isLeap year) yday.

(** [daysSinceEpoch]: the days from January 1 of year 1 to January 1 of
    [year]. *)
Definition daysSinceEpoch (year : Z) : Z :=
  let y := year - 1 in
  let n := y / 400 in
  let y := y - 400 * n in
  let d := daysPer400Years * n in
  let n := y / 100 in
  let y := y - 100 * n in
  let d := d + daysPer100Years * n in
  let n := y / 4 in
  let y := y - 4 * n in
  let d := d + daysPer4Years * n in
  d + 365 * y.

(** [Date(year, month, day, hour, min, sec, nsec, UTC)] moved back by
    the zone offset, as [Parse] builds its result. *)
Definition Date (year month day hour min sec nsec zoneOffset : Z) : Time :=
  let d := daysSinceEpoch year + daysBefore (month - 1) in
  let d := if isLeap year && (3 <=? month) then d + 1 else d in
  let d := d + (day - 1) in
  let abs := d * secondsPerDay + hour * 3600 + min * 60 + sec in
  mkTime (abs - zoneOffset) nsec zoneOffset.

Definition digit (d : Z) : ascii := byte_of (48 + d).

Definition isDigit (c : ascii) : bool :=
  (48 <=? byte_val c) && (byte_val c <=? 57).

(** [appendInt(b, x, width)] for [0 <= x < 10 ^ width]: the decimal
    digits of [x], padded with zeros to [width], before [acc]. *)
Fixpoint appendInt (width : nat) (x : Z) (acc : string) : string :=
  match width with
  | O => acc
  | S w => appendInt w (x / 10) (String (digit (x mod 10)) acc)
  end.

(** The digits of a fraction with its trailing zeros cut: [x] is read
    as [width] digits. *)
Fixpoint trimmedDigits (width : nat) (x : Z) : string :=
  match width with
  | O => EmptyString
  | S w => if x mod 10 =? 0 then trimmedDigits w (x / 10)
           else appendInt width x EmptyString
  end.

(** [appendNano] for the layout element [.999999999]: nothing for a
    whole second, else a period and the nine digits of the nanoseconds
    with the trailing zeros cut. *)
Definition appendNano (nanosec : Z) : string :=
  if nanosec =? 0 then EmptyString
  else String "." (trimmedDigits 9 nanosec).

(** The zone of [appendFormatRFC3339]: [Z] for the offset 0, else the
    sign and the hours and minutes of the offset (the division
    truncates). *)
Definition formatZone (offset : Z) : string :=
  if offset =? 0 then String "Z" EmptyString
  else
    let zone := Z.quot offset 60 in
    let sign := if zone <? 0 then "-"%char else "+"%char in
    let zone := if zone <? 0 then - zone else zone in
    String sign (appendInt 2 (Z.quot zone 60)
                   (String ":" (appendInt 2 (Z.rem zone 60) EmptyString))).

(** [appendStrictRFC3339], the text of [MarshalJSON] between the quotes:
    the layout [2006-01-02T15:04:05.999999999Z07:00]; an error ([None])
    for a year outside [0, 9999] and for a zone of 24 hours or more. *)
Definition appendStrictRFC3339 (t : Time) : option string :=
  let abs := t_sec t + t_offset t in
  let days := abs / secondsPerDay in
  let secs := abs mod secondsPerDay in
  let '(year, yday) := absDate days in
  let '(month, day) := monthDay year yday in
  if (year <? 0) || (9999 <? year) then None
  else if 24 <=? Z.abs (Z.quot (Z.quot (t_offset t) 60) 60) then None
  else
    Some (appendInt 4 year
      (String "-" (appendInt 2 month
      (String "-" (appendInt 2 day
      (String "T" (appendInt 2 (secs / 3600)
      (String ":" (appendInt 2 ((secs mod 3600) / 60)
      (String ":" (appendInt 2 (secs mod 60)
      (append (appendNano (t_nsec t)) (formatZone (t_offset t)))))))))))))).

(** [getnum] with a fixed width: [n] digits and their value. *)
Fixpoint getnum (n : nat) (s : string) (acc : Z) : option (Z * string) :=
  match n with
  | O => Some (acc, s)
  | S n' =>
    match s with
    | String c s' =>
      if isDigit c then getnum n' s' (10 * acc + (byte_val c - 48)) else None
    | EmptyString => None
    end
  end.

(** The digits of a fractional second: [k] is the number of digits still
    counted (nine at the start; [parseNanoseconds] drops the rest), [acc]
    the value of those read.  The result is scaled to nanoseconds. *)
Fixpoint parseFraction (k : nat) (s : string) (acc : Z) : Z * string :=
  match s with
  | String c s' =>
    if isDigit c then
      match k with
      | O => parseFraction O s' acc
      | S k' => parseFraction k' s' (10 * acc + (byte_val c - 48))
      end
    else (acc * 10 ^ Z.of_nat k, s)
  | EmptyString => (acc * 10 ^ Z.of_nat k, s)
  end.

(** The seconds fraction that may follow the seconds: a period and at
    least one digit. *)
Definition parseNanoseconds (s : string) : Z * string :=
  match s with
  | String "." (String c s') =>
    if isDigit c then parseFraction 9 (String c s') 0 else (0, s)
  | _ => (0, s)
  end.

(** The zone: [Z], or a sign, two digits, a colon and two digits, with
    the hours below 24 and the minutes below 60; nothing may follow. *)
Definition parseZone (s : string) : option Z :=
  match s with
  | String "Z" EmptyString => Some 0
  | String sign s1 =>
    match getnum 2 s1 0 with
    | Some (hr, String ":" s2) =>
      match getnum 2 s2 0 with
      | Some (mm, EmptyString) =>
        if (24 <=? hr) || (60 <=? mm) then None
        else
          let zoneOffset := (hr * 60 + mm) * 60 in
          if Ascii.eqb sign "+" then Some zoneOffset
          else if Ascii.eqb sign "-" then Some (- zoneOffset)
          else None
      | _ => None
      end
    | _ => None
    end
  | EmptyString => None
  end.

Definition expect (c : ascii) (s : string) : option string :=
  match s with
  | String c' s' => if Ascii.eqb c c' then Some s' else None
  | EmptyString => None
  end.

(** [parseStrictRFC3339], as [UnmarshalJSON] applies it to the bytes
    between the quotes. *)
Definition parseStrictRFC3339 (s : string) : option Time :=
  match getnum 4 s 0 with
  | None => None
  | Some (year, s) =>
  match expect "-" s with None => None | Some s =>
  match getnum 2 s 0 with None => None | Some (month, s) =>
  match expect "-" s with None => None | Some s =>
  match getnum 2 s 0 with None => None | Some (day, s) =>
  match expect "T" s with None => None | Some s =>
  match getnum 2 s 0 with None => None | Some (hour, s) =>
  match expect ":" s with None => None | Some s =>
  match getnum 2 s 0 with None => None | Some (min, s) =>
  match expect ":" s with None => None | Some s =>
  match getnum 2 s 0 with None => None | Some (sec, s) =>
  let '(nsec, s) := parseNanoseconds s in
  match parseZone s with None => None | Some zoneOffset =>
  if (month <? 1) || (12 <? month) || (day <? 1) || (daysIn month year <? day)
     || (24 <=? hour) || (60 <=? min) || (60 <=? sec)
  then None
  else Some (Date year month day hour min sec nsec zoneOffset)
  end end end end end end end end end end end end.

Definition quoted (s : string) : string :=
  String dquote (append s (String dquote EmptyString)).

(** [Time.MarshalJSON]: the quoted RFC 3339 text, or an error. *)
Definition MarshalJSON (t : Time) : option string :=
  option_map quoted (appendStrictRFC3339 t).

End time.

(** ** Errors and contexts *)

(** Go's [error] values that the store can meet.  [Errorf msg err] is
    [fmt.Errorf(msg + ": %w", err)], the wrapping the store uses. *)
Inductive error : Type :=
| ErrDBClosed
| Canceled
| DeadlineExceeded
| MarshalerError (type_ : string)
| SyntaxError
| UnmarshalTypeError (value : string) (field : string)
| TimeUnmarshalError
| Errorf (msg : string) (err : error).

(** A call that returns a value and an error. *)
Inductive result (A : Type) : Type :=
| ok (a : A)
| fail (e : error).

Arguments ok {A} a.
Arguments fail {A} e.

(** [errors.Is(err, target)] for the sentinel errors: [err] is [target]
    or wraps it. *)
Fixpoint errors_Is (err target : error) : Prop :=
  err = target \/
  match err with
  | Errorf _ inner => errors_Is inner target
  | _ => False
  end.

(** A [context.Context], as far as a callee can observe it: [ctx_Err]
    is what [ctx.Err()] returns, [None] for a context that is live. *)
Record Context : Type := mkContext { ctx_Err : option error }.

(** [context.Background()]. *)
Definition Background : Context := mkContext None.

(** A context after its [cancel] function has been called. *)
Definition cancelled : Context := mkContext (Some Canceled).

(** A context whose deadline has passed. *)
Definition expired : Context := mkContext (Some DeadlineExceeded).

(** ** Package [domain]: [internal/domain/link.go] *)

Module domain.

(** [Link] represents the core data structure for a saved website
    link.  A nil [Tags] slice and an empty one are both the empty
    list. *)
Record Link : Type := mkLink {
  URL : string;
  Title : string;
  Description : string;
  UserID : Z;
  Timestamp : time.Time;
  Tags : list string;
  Read : bool;
  PreviewImageURL : string
}.

(** The zero value [domain.Link{}]. *)
Definition zero : Link :=
  mkLink EmptyString EmptyString EmptyString 0 time.zero [] false EmptyString.

End domain.

(** ** Package [encoding/json] *)

Module json.

(** *** Encoding strings *)

Definition hex : string := "0123456789abcdef".

Definition hexDigit (n : Z) : ascii :=
  match String.get (Z.to_nat n) hex with
  | Some c => c
  | None => "0"%char
  end.

(** The table [htmlSafeSet]: the ASCII bytes that are written as they
    are when HTML escaping is on, as it is for [json.Marshal]. *)
Definition htmlSafeSet (b : Z) : bool :=
  (0x20 <=? b) && (b <? 0x80)
  && negb ((b =? 34) || (b =? 92) || (b =? 60) || (b =? 62) || (b =? 38)).

(** The escape written for an ASCII byte outside [htmlSafeSet]. *)
Definition escapeByte (c : ascii) : string :=
  let b := byte_val c in
  if (b =? 92) || (b =? 34) then String bslash (String c EmptyString)
  else if b =? 8 then String bslash "b"
  else if b =? 12 then String bslash "f"
  else if b =? 10 then String bslash "n"
  else if b =? 13 then String bslash "r"
  else if b =? 9 then String bslash "t"
  else String bslash
         (String "u" (String "0" (String "0"
            (String (hexDigit (Z.shiftr b 4))
               (String (hexDigit (Z.land b 0xF)) EmptyString))))).

(** The loop of [appendString] with [escapeHTML] set.  [skip] counts
    the bytes of the rune handled last that the loop index has still to
    pass ([i += size]). *)
Fixpoint appendString_loop (skip : nat) (src : string) : string :=
  match src with
  | EmptyString => EmptyString
  | String c rest =>
    match skip with
    | S k => appendString_loop k rest
    | O =>
      let b := byte_val c in
      if b <? utf8.RuneSelf then
        if htmlSafeSet b then String c (appendString_loop 0 rest)
        else append (escapeByte c) (appendString_loop 0 rest)
      else
        let '(r, size) := utf8.DecodeRuneInString src in
        if (r =? utf8.RuneError) && (size =? 1)%nat then
          append (String bslash "ufffd") (appendString_loop 0 rest)
        else if (r =? 0x2028) || (r =? 0x2029) then
          append (String bslash
                    (String "u" (String "2" (String "0" (String "2"
                       (String (hexDigit (Z.land r 0xF)) EmptyString))))))
                 (appendString_loop (size - 1) rest)
        else
          append (take_bytes size src) (appendString_loop (size - 1) rest)
    end
  end.

(** [appendString]: a Go string as a JSON string literal. *)
Definition appendString (src : string) : string :=
  String dquote (append (appendString_loop 0 src) (String dquote EmptyString)).

(** *** The scanner *)

(** A JSON value as the decoder reads it: a number and a string are
    kept as the bytes of the literal (for a string, the bytes between
    the quotes, escapes not yet resolved), as [literalStore] receives
    them. *)
#[local] Unset Elimination Schemes.

Inductive Value : Type :=
| JNull
| JBool (b : bool)
| JNumber (lit : string)
| JString (raw : string)
| JArray (elems : list Value)
| JObject (members : list (string * Value)).

#[local] Set Elimination Schemes.

Definition isSpace (c : ascii) : bool :=
  let b := byte_val c in (b =? 32) || (b =? 9) || (b =? 13) || (b =? 10).

Fixpoint skipSpace (s : string) : string :=
  match s with
  | String c rest => if isSpace c then skipSpace rest else s
  | EmptyString => s
  end.

Definition isHex (c : ascii) : bool :=
  let b := byte_val c in
  ((48 <=? b) && (b <=? 57)) || ((97 <=? b) && (b <=? 102))
  || ((65 <=? b) && (b <=? 70)).

Definition isSimpleEscape (c : ascii) : bool :=
  let b := byte_val c in
  (b =? 98) || (b =? 102) || (b =? 110) || (b =? 114) || (b =? 116)
  || (b =? 92) || (b =? 47) || (b =? 34).

Definition cons_fst (c : ascii) (p : string * string) : string * string :=
  (String c (fst p), snd p).

(** A string literal after its opening quote: the bytes up to the
    closing quote and the input after it.  A control character, an
    escape the grammar does not have and a missing quote are syntax
    errors. *)
Fixpoint scanString (s : string) : option (string * string) :=
  match s with
  | EmptyString => None
  | String c rest =>
    if Ascii.eqb c dquote then Some (EmptyString, rest)
    else if Ascii.eqb c bslash then
      match rest with
      | EmptyString => None
      | String e rest1 =>
        if isSimpleEscape e then
          option_map (fun p => cons_fst c (cons_fst e p)) (scanString rest1)
        else if Ascii.eqb e "u" then
          match rest1 with
          | String h1 (String h2 (String h3 (String h4 rest2))) =>
            if isHex h1 && isHex h2 && isHex h3 && isHex h4 then
              option_map
                (fun p => cons_fst c (cons_fst e (cons_fst h1 (cons_fst h2
                            (cons_fst h3 (cons_fst h4 p))))))
                (scanString rest2)
            else None
          | _ => None
          end
        else None
      end
    else if byte_val c <? 0x20 then None
    else option_map (cons_fst c) (scanString rest)
  end.

(** The longest run of digits at the head of the input. *)
Fixpoint scanDigits (s : string) : string * string :=
  match s with
  | String c rest =>
    if time.isDigit c then cons_fst c (scanDigits rest) else (EmptyString, s)
  | EmptyString => (EmptyString, s)
  end.

(** One digit at least. *)
Definition scanDigits1 (s : string) : option (string * string) :=
  match scanDigits s with
  | (EmptyString, _) => None
  | p => Some p
  end.

(** The integer part of a number: [0], or a digit from 1 to 9 and
    digits. *)
Definition scanInt (s : string) : option (string * string) :=
  match s with
  | String c rest =>
    if Ascii.eqb c "0" then Some (String c EmptyString, rest)
    else if time.isDigit c then Some (cons_fst c (scanDigits rest))
    else None
  | EmptyString => None
  end.

Definition scanFrac (s : string) : option (string * string) :=
  match s with
  | String "." rest => option_map (cons_fst ".") (scanDigits1 rest)
  | _ => Some (EmptyString, s)
  end.

Definition scanExp (s : string) : option (string * string) :=
  match s with
  | String c rest =>
    if Ascii.eqb c "e" || Ascii.eqb c "E" then
      match rest with
      | String sg rest1 =>
        if Ascii.eqb sg "+" || Ascii.eqb sg "-" then
          option_map (fun p => cons_fst c (cons_fst sg p)) (scanDigits1 rest1)
        else option_map (cons_fst c) (scanDigits1 rest)
      | EmptyString => None
      end
    else Some (EmptyString, s)
  | EmptyString => Some (EmptyString, s)
  end.

(** A number literal: an optional minus sign, the integer part, an
    optional fraction and an optional exponent. *)
Definition scanNumber (s : string) : option (string * string) :=
  let '(sign, s1) :=
    match s with
    | String "-" rest => (String "-" EmptyString, rest)
    | _ => (EmptyString, s)
    end in
  match scanInt s1 with
  | None => None
  | Some (i, s2) =>
    match scanFrac s2 with
    | None => None
    | Some (f, s3) =>
      match scanExp s3 with
      | None => None
      | Some (e, s4) => Some (append sign (append i (append f e)), s4)
      end
    end
  end.

(** The literal [lit] at the head of the input. *)
Fixpoint scanLiteral (lit s : string) : option string :=
  match lit, s with
  | EmptyString, _ => Some s
  | String a lit', String b s' =>
    if Ascii.eqb a b then scanLiteral lit' s' else None
  | String _ _, EmptyString => None
  end.

(** A value, the elements of an array after its bracket and the members
    of an object after its brace.  Each returns what it has read and the
    input after it.  [fuel] bounds the number of nested calls; a list of
    elements or members takes one call for each. *)
Fixpoint parseValue (fuel : nat) (s : string) {struct fuel}
  : option (Value * string) :=
  match fuel with
  | O => None
  | S fuel' =>
    match skipSpace s with
    | EmptyString => None
    | String c rest =>
      if Ascii.eqb c "{" then
        match skipSpace rest with
        | String "}" rest1 => Some (JObject [], rest1)
        | _ =>
          match parseMembers fuel' rest with
          | Some (ms, rest1) => Some (JObject ms, rest1)
          | None => None
          end
        end
      else if Ascii.eqb c "[" then
        match skipSpace rest with
        | String "]" rest1 => Some (JArray [], rest1)
        | _ =>
          match parseElements fuel' rest with
          | Some (vs, rest1) => Some (JArray vs, rest1)
          | None => None
          end
        end
      else if Ascii.eqb c dquote then
        match scanString rest with
        | Some (raw, rest1) => Some (JString raw, rest1)
        | None => None
        end
      else if Ascii.eqb c "-" || time.isDigit c then
        match scanNumber (String c rest) with
        | Some (lit, rest1) => Some (JNumber lit, rest1)
        | None => None
        end
      else if Ascii.eqb c "t" then
        option_map (fun r => (JBool true, r)) (scanLiteral "rue" rest)
      else if Ascii.eqb c "f" then
        option_map (fun r => (JBool false, r)) (scanLiteral "alse" rest)
      else if Ascii.eqb c "n" then
        option_map (fun r => (JNull, r)) (scanLiteral "ull" rest)
      else None
    end
  end
with parseElements (fuel : nat) (s : string) {struct fuel}
  : option (list Value * string) :=
  match fuel with
  | O => None
  | S fuel' =>
    match parseValue fuel' s with
    | None => None
    | Some (v, rest) =>
      match skipSpace rest with
      | String "," rest1 =>
        match parseElements fuel' rest1 with
        | Some (vs, rest2) => Some (v :: vs, rest2)
        | None => None
        end
      | String "]" rest1 => Some ([v], rest1)
      | _ => None
      end
    end
  end
with parseMembers (fuel : nat) (s : string) {struct fuel}
  : option (list (string * Value) * string) :=
  match fuel with
  | O => None
  | S fuel' =>
    match skipSpace s with
    | String q rest =>
      if Ascii.eqb q dquote then
        match scanString rest with
        | None => None
        | Some (key, rest1) =>
          match skipSpace rest1 with
          | String ":" rest2 =>
            match parseValue fuel' rest2 with
            | None => None
            | Some (v, rest3) =>
              match skipSpace rest3 with
              | String "," rest4 =>
                match parseMembers fuel' rest4 with
                | Some (ms, rest5) => Some ((key, v) :: ms, rest5)
                | None => None
                end
              | String "}" rest4 => Some ([(key, v)], rest4)
              | _ => None
              end
            end
          | _ => None
          end
        end
      else None
    | EmptyString => None
    end
  end.

(** The whole input as one value, with space allowed around it
    ([checkValid]).  Two calls for each byte are enough for any input,
    so the bound rejects no document. *)
Definition parse (data : string) : option Value :=
  match parseValue (2 * String.length data + 2) data with
  | Some (v, rest) =>
    match skipSpace rest with
    | EmptyString => Some v
    | _ => None
    end
  | None => None
  end.

(** *** Decoding strings *)

Definition hexVal (c : ascii) : Z :=
  let b := byte_val c in
  if (48 <=? b) && (b <=? 57) then b - 48
  else if (97 <=? b) && (b <=? 102) then b - 97 + 10
  else if (65 <=? b) && (b <=? 70) then b - 65 + 10
  else -1.

(** [getu4]: the rune of a [\uXXXX] escape at the head of the input, or
    -1. *)
Definition getu4 (s : string) : Z :=
  match s with
  | String b (String u (String h1 (String h2 (String h3 (String h4 _))))) =>
    if Ascii.eqb b bslash && Ascii.eqb u "u"
       && isHex h1 && isHex h2 && isHex h3 && isHex h4
    then ((hexVal h1 * 16 + hexVal h2) * 16 + hexVal h3) * 16 + hexVal h4
    else -1
  | _ => -1
  end.

(** [utf16.IsSurrogate]. *)
Definition IsSurrogate (r : Z) : bool := (0xD800 <=? r) && (r <? 0xE000).

(** [utf16.DecodeRune]. *)
Definition utf16_DecodeRune (r1 r2 : Z) : Z :=
  if (0xD800 <=? r1) && (r1 <? 0xDC00) && (0xDC00 <=? r2) && (r2 <? 0xE000)
  then Z.lor (Z.shiftl (r1 - 0xD800) 10) (r2 - 0xDC00) + 0x10000
  else utf8.RuneError.

(** The loop of [unquoteBytes] over the bytes between the quotes.
    [skip] counts the bytes of the escape or rune handled last that the
    read index has still to pass. *)
Fixpoint unquote_loop (skip : nat) (s : string) : option string :=
  match s with
  | EmptyString => Some EmptyString
  | String c rest =>
    match skip with
    | S k => unquote_loop k rest
    | O =>
      let b := byte_val c in
      if Ascii.eqb c bslash then
        match rest with
        | EmptyString => None
        | String e _ =>
          let x := byte_val e in
          if (x =? 34) || (x =? 92) || (x =? 47) || (x =? 39) then
            option_map (String e) (unquote_loop 1 rest)
          else if x =? 98 then option_map (String (byte_of 8)) (unquote_loop 1 rest)
          else if x =? 102 then option_map (String (byte_of 12)) (unquote_loop 1 rest)
          else if x =? 110 then option_map (String (byte_of 10)) (unquote_loop 1 rest)
          else if x =? 114 then option_map (String (byte_of 13)) (unquote_loop 1 rest)
          else if x =? 116 then option_map (String (byte_of 9)) (unquote_loop 1 rest)
          else if x =? 117 then
            let rr := getu4 s in
            if rr <? 0 then None
            else if IsSurrogate rr then
              let rr1 := getu4 (drop_bytes 6 s) in
              let dec := utf16_DecodeRune rr rr1 in
              if negb (dec =? utf8.RuneError) then
                option_map (append (utf8.EncodeRune dec)) (unquote_loop 11 rest)
              else
                option_map (append (utf8.EncodeRune utf8.RuneError))
                  (unquote_loop 5 rest)
            else option_map (append (utf8.EncodeRune rr)) (unquote_loop 5 rest)
          else None
        end
      else if Ascii.eqb c dquote || (b <? 32) then None
      else if b <? utf8.RuneSelf then option_map (String c) (unquote_loop 0 rest)
      else
        let '(rr, size) := utf8.DecodeRuneInString s in
        option_map (append (utf8.EncodeRune rr)) (unquote_loop (size - 1) rest)
    end
  end.

(** [unquote] on the bytes between the quotes of a literal. *)
Definition unquote (raw : string) : option string := unquote_loop 0 raw.

(** *** The codec of [domain.Link]

    [Marshal] and [Unmarshal] work by reflection on the struct tags of
    [domain.Link]; what follows is what they do for that type. *)

Import domain.

Inductive field : Type :=
| fURL | fTitle | fDescription | fUserID | fTimestamp | fTags | fRead
| fPreviewImageURL.

(** The names of the [json] struct tags. *)
Definition fieldName (f : field) : string :=
  match f with
  | fURL => "url"
  | fTitle => "title"
  | fDescription => "description"
  | fUserID => "user_id"
  | fTimestamp => "timestamp"
  | fTags => "tags"
  | fRead => "read"
  | fPreviewImageURL => "preview_image_url"
  end.

Definition fields : list field :=
  [fURL; fTitle; fDescription; fUserID; fTimestamp; fTags; fRead;
   fPreviewImageURL].

(** An object key before its value: the quoted name and a colon. *)
Definition objectKey (name : string) : string :=
  String dquote (append name (String dquote (String ":" EmptyString))).

(** The elements of a [[]string], separated by commas. *)
Fixpoint stringElems (l : list string) : string :=
  match l with
  | [] => EmptyString
  | [s] => appendString s
  | s :: l' => append (appendString s) (String "," (stringElems l'))
  end.

Definition boolLiteral (b : bool) : string :=
  if b then "true"%string else "false"%string.

(** The member of [Tags], left out when the slice is empty
    ([omitempty]). *)
Definition tagsMember (tags : list string) : string :=
  match tags with
  | [] => EmptyString
  | _ =>
    String "," (append (objectKey "tags")
      (String "[" (append (stringElems tags) (String "]" EmptyString))))
  end.

(** The member of [PreviewImageURL], left out when the string is empty
    ([omitempty]). *)
Definition previewMember (p : string) : string :=
  match p with
  | EmptyString => EmptyString
  | _ => String "," (append (objectKey "preview_image_url") (appendString p))
  end.

(** [json.Marshal(link)]: the members in the order of the fields.  The
    one error is that of [Time.MarshalJSON]. *)
Definition Marshal (link : Link) : result string :=
  match time.MarshalJSON (Timestamp link) with
  | None => fail (MarshalerError "time.Time")
  | Some ts =>
    ok ("{" ++ objectKey "url" ++ appendString (URL link)
        ++ "," ++ objectKey "title" ++ appendString (Title link)
        ++ "," ++ objectKey "description" ++ appendString (Description link)
        ++ "," ++ objectKey "user_id" ++ strconv.FormatInt (UserID link)
        ++ "," ++ objectKey "timestamp" ++ ts
        ++ tagsMember (Tags link)
        ++ "," ++ objectKey "read" ++ boolLiteral (Read link)
        ++ previewMember (PreviewImageURL link)
        ++ "}")%string
  end.

(** [foldName], as far as it can make a key equal to a name in ASCII:
    ASCII letters go to upper case, and the two runes that fold to an
    ASCII letter (U+017F to S, U+212A to K) go to that letter. *)
Fixpoint foldName (s : string) : string :=
  match s with
  | EmptyString => EmptyString
  | String c rest =>
    let b := byte_val c in
    if (97 <=? b) && (b <=? 122) then String (byte_of (b - 32)) (foldName rest)
    else
      match rest with
      | String c1 rest1 =>
        if (b =? 0xC5) && (byte_val c1 =? 0xBF) then String "S" (foldName rest1)
        else
          match rest1 with
          | String c2 rest2 =>
            if (b =? 0xE2) && (byte_val c1 =? 0x84) && (byte_val c2 =? 0xAA)
            then String "K" (foldName rest2)
            else String c (foldName rest)
          | EmptyString => String c (foldName rest)
          end
      | EmptyString => String c (foldName rest)
      end
  end.

(** The field a key names: the one with that name or, failing that, the
    one whose name is the key but for case. *)
Definition findField (key : string) : option field :=
  match find (fun f => String.eqb (fieldName f) key) fields with
  | Some f => Some f
  | None =>
    find (fun f => String.eqb (foldName (fieldName f)) (foldName key)) fields
  end.

(** What a value does to the variable it is decoded into: it sets it,
    leaves it as it is ([null]), is of the wrong type (an
    [UnmarshalTypeError] that the decoder saves before it goes on) or
    stops the decoder with an error. *)
Inductive store (A : Type) : Type :=
| Set_ (a : A)
| Keep
| Mismatch (value : string)
| Stop (e : error).

Arguments Set_ {A} a.
Arguments Keep {A}.
Arguments Mismatch {A} value.
Arguments Stop {A} e.

Definition storeString (v : Value) : store string :=
  match v with
  | JNull => Keep
  | JString raw =>
    match unquote raw with
    | Some s => Set_ s
    | None => Stop SyntaxError
    end
  | JBool _ => Mismatch "bool"
  | JNumber _ => Mismatch "number"
  | JArray _ => Mismatch "array"
  | JObject _ => Mismatch "object"
  end.

Definition storeInt64 (v : Value) : store Z :=
  match v with
  | JNull => Keep
  | JNumber lit =>
    match strconv.ParseInt lit with
    | Some z => Set_ z
    | None => Mismatch (append "number " lit)
    end
  | JString _ => Mismatch "string"
  | JBool _ => Mismatch "bool"
  | JArray _ => Mismatch "array"
  | JObject _ => Mismatch "object"
  end.

Definition storeBool (v : Value) : store bool :=
  match v with
  | JNull => Keep
  | JBool b => Set_ b
  | JString _ => Mismatch "string"
  | JNumber _ => Mismatch "number"
  | JArray _ => Mismatch "array"
  | JObject _ => Mismatch "object"
  end.

(** [Time.UnmarshalJSON]: [null] is ignored, a string is parsed from
    the bytes between its quotes, anything else is an error. *)
Definition storeTime (v : Value) : store time.Time :=
  match v with
  | JNull => Keep
  | JString raw =>
    match time.parseStrictRFC3339 raw with
    | Some t => Set_ t
    | None => Stop TimeUnmarshalError
    end
  | _ => Stop TimeUnmarshalError
  end.

(** [d.saveError]: the first error saved is the one kept. *)
Definition saveError (saved : option error) (e : error) : option error :=
  match saved with
  | None => Some e
  | Some _ => saved
  end.

(** The elements of an array decoded into a [[]string] that held [old]:
    element [i] is decoded into the string at index [i], which is empty
    past the end of [old]. *)
Fixpoint storeElems (elems : list Value) (old : list string)
    (saved : option error) : result (list string * option error) :=
  match elems with
  | [] => ok ([], saved)
  | v :: elems' =>
    let prev := hd EmptyString old in
    match storeString v with
    | Stop e => fail e
    | Set_ s =>
      match storeElems elems' (tl old) saved with
      | ok (l, sv) => ok (s :: l, sv)
      | fail e => fail e
      end
    | Keep =>
      match storeElems elems' (tl old) saved with
      | ok (l, sv) => ok (prev :: l, sv)
      | fail e => fail e
      end
    | Mismatch what =>
      match storeElems elems' (tl old)
              (saveError saved (UnmarshalTypeError what "Link.tags")) with
      | ok (l, sv) => ok (prev :: l, sv)
      | fail e => fail e
      end
    end
  end.

Definition storeTags (v : Value) (old : list string) (saved : option error)
  : result (list string * option error) :=
  match v with
  | JNull => ok ([], saved)
  | JArray elems => storeElems elems old saved
  | JString _ => ok (old, saveError saved (UnmarshalTypeError "string" "Link.tags"))
  | JNumber _ => ok (old, saveError saved (UnmarshalTypeError "number" "Link.tags"))
  | JBool _ => ok (old, saveError saved (UnmarshalTypeError "bool" "Link.tags"))
  | JObject _ => ok (old, saveError saved (UnmarshalTypeError "object" "Link.tags"))
  end.

(** A decoded value put into a field: [upd] writes the field. *)
Definition apply {A : Type} (s : store A) (name : string) (upd : A -> Link)
    (link : Link) (saved : option error) : result (Link * option error) :=
  match s with
  | Set_ a => ok (upd a, saved)
  | Keep => ok (link, saved)
  | Mismatch what =>
    ok (link, saveError saved (UnmarshalTypeError what (append "Link." name)))
  | Stop e => fail e
  end.

(** One member of the object decoded into the struct. *)
Definition decodeField (f : field) (v : Value) (l : Link)
    (saved : option error) : result (Link * option error) :=
  match f with
  | fURL =>
    apply (storeString v) "url"
      (fun a => mkLink a (Title l) (Description l) (UserID l) (Timestamp l)
                  (Tags l) (Read l) (PreviewImageURL l)) l saved
  | fTitle =>
    apply (storeString v) "title"
      (fun a => mkLink (URL l) a (Description l) (UserID l) (Timestamp l)
                  (Tags l) (Read l) (PreviewImageURL l)) l saved
  | fDescription =>
    apply (storeString v) "description"
      (fun a => mkLink (URL l) (Title l) a (UserID l) (Timestamp l)
                  (Tags l) (Read l) (PreviewImageURL l)) l saved
  | fUserID =>
    apply (storeInt64 v) "user_id"
      (fun a => mkLink (URL l) (Title l) (Description l) a (Timestamp l)
                  (Tags l) (Read l) (PreviewImageURL l)) l saved
  | fTimestamp =>
    apply (storeTime v) "timestamp"
      (fun a => mkLink (URL l) (Title l) (Description l) (UserID l) a
                  (Tags l) (Read l) (PreviewImageURL l)) l saved
  | fTags =>
    match storeTags v (Tags l) saved with
    | ok (tags, sv) =>
      ok (mkLink (URL l) (Title l) (Description l) (UserID l) (Timestamp l)
            tags (Read l) (PreviewImageURL l), sv)
    | fail e => fail e
    end
  | fRead =>
    apply (storeBool v) "read"
      (fun a => mkLink (URL l) (Title l) (Description l) (UserID l)
                  (Timestamp l) (Tags l) a (PreviewImageURL l)) l saved
  | fPreviewImageURL =>
    apply (storeString v) "preview_image_url"
      (fun a => mkLink (URL l) (Title l) (Description l) (UserID l)
                  (Timestamp l) (Tags l) (Read l) a) l saved
  end.

(** The members of an object decoded into the struct in their order: a
    key that names no field is passed over. *)
Fixpoint decodeMembers (ms : list (string * Value)) (l : Link)
    (saved : option error) : result (Link * option error) :=
  match ms with
  | [] => ok (l, saved)
  | (rawKey, v) :: ms' =>
    match unquote rawKey with
    | None => fail SyntaxError
    | Some key =>
      match findField key with
      | None => decodeMembers ms' l saved
      | Some f =>
        match decodeField f v l saved with
        | ok (l', sv) => decodeMembers ms' l' sv
        | fail e => fail e
        end
      end
    end
  end.

(** [json.Unmarshal(data, &link)] for a [link] that holds the zero
    value: the link decoded, or the error returned (a syntax error, the
    error that stopped the decoder, or the first type error saved). *)
Definition Unmarshal (data : string) : result Link :=
  match parse data with
  | None => fail SyntaxError
  | Some JNull => ok domain.zero
  | Some (JObject ms) =>
    match decodeMembers ms domain.zero None with
    | ok (l, None) => ok l
    | ok (_, Some e) => fail e
    | fail e => fail e
    end
  | Some (JBool _) => fail (UnmarshalTypeError "bool" "Link")
  | Some (JNumber _) => fail (UnmarshalTypeError "number" "Link")
  | Some (JString _) => fail (UnmarshalTypeError "string" "Link")
  | Some (JArray _) => fail (UnmarshalTypeError "array" "Link")
  end.

End json.

(** ** Package [badger]: the embedded ordered key-value engine

    The engine is modelled by what its transactions show: a table of
    entries in ascending byte order of their keys, one entry for a key,
    and the flag that [Close] sets.  Failures of the disk, the size
    limits of keys and values and conflicts between concurrent
    transactions are outside the model: an operation on an open engine
    is carried out. *)

Module badger.

Definition Entry : Type := (string * string)%type.

Definition NewEntry (key value : string) : Entry := (key, value).

Record DB : Type := mkDB { isClosed : bool; table : list Entry }.

(** [badger.Open] on a directory that holds the entries [dir]. *)
Definition Open (dir : list Entry) : DB := mkDB false dir.

(** [db.Close()]: closes the engine once; closing again does nothing. *)
Definition Close (db : DB) : DB * option error := (mkDB true (table db), None).

(** A transaction, by the entries it shows: the snapshot it started
    from with its own writes applied. *)
Definition Txn : Type := list Entry.

Definition ltb (a b : string) : bool :=
  match String.compare a b with
  | Lt => true
  | _ => false
  end.

(** The table with the entry for [key] put in its place. *)
Fixpoint put (key value : string) (t : list Entry) : list Entry :=
  match t with
  | [] => [(key, value)]
  | (k, v) :: t' =>
    match String.compare key k with
    | Lt => (key, value) :: t
    | Eq => (key, value) :: t'
    | Gt => (k, v) :: put key value t'
    end
  end.

(** The table without the entry for [key]. *)
Fixpoint remove (key : string) (t : list Entry) : list Entry :=
  match t with
  | [] => []
  | (k, v) :: t' =>
    if String.eqb key k then remove key t' else (k, v) :: remove key t'
  end.

Fixpoint get (key : string) (t : list Entry) : option string :=
  match t with
  | [] => None
  | (k, v) :: t' => if String.eqb key k then Some v else get key t'
  end.

(** [txn.SetEntry(e)]. *)
Definition SetEntry (txn : Txn) (e : Entry) : Txn * option error :=
  (put (fst e) (snd e) txn, None).

(** [txn.Delete(key)]: deleting a key that is absent is no error. *)
Definition Delete (txn : Txn) (key : string) : Txn * option error :=
  (remove key txn, None).

(** [db.Update(fn)]: [ErrDBClosed] on a closed engine; else [fn] runs
    in a read-write transaction that is committed when [fn] returns no
    error and discarded when it returns one. *)
Definition Update (db : DB) (fn : Txn -> Txn * option error)
  : DB * option error :=
  if isClosed db then (db, Some ErrDBClosed)
  else
    match fn (table db) with
    | (txn, None) => (mkDB (isClosed db) txn, None)
    | (_, Some e) => (db, Some e)
    end.

(** [db.View(fn)]: [ErrDBClosed] on a closed engine; else [fn] runs in
    a read-only transaction.  [fn] is a closure: [captured] is the state
    of the variables it writes, which [fn] returns with its error. *)
Definition View {A : Type} (db : DB) (captured : A)
    (fn : Txn -> A * option error) : A * option error :=
  if isClosed db then (captured, Some ErrDBClosed) else fn (table db).

(** An iterator, by the entries from its position on. *)
Definition Iterator : Type := list Entry.

(** [it.Seek(key)] on the iterator of [txn]: the position of the first
    key that is not below [key]. *)
Fixpoint Seek (txn : Txn) (key : string) : Iterator :=
  match txn with
  | [] => []
  | e :: txn' => if ltb (fst e) key then Seek txn' key else txn
  end.

(** [it.ValidForPrefix(prefix)]. *)
Definition ValidForPrefix (it : Iterator) (prefix : string) : bool :=
  match it with
  | [] => false
  | e :: _ => String.prefix prefix (fst e)
  end.

(** [it.Next()]. *)
Definition Next (it : Iterator) : Iterator := tl it.

End badger.

(** ** Package [sort] *)

(** [insertionSortLessFunc], which [sort.Slice] runs on a slice of at
    most twelve elements: each element is moved down while it is less
    than the one before it.  [racc] is the sorted part, last element
    first. *)
Fixpoint insertBack {A : Type} (less : A -> A -> bool) (x : A)
    (racc : list A) : list A :=
  match racc with
  | [] => [x]
  | y :: r => if less x y then y :: insertBack less x r else x :: racc
  end.

Definition insertionSort {A : Type} (l : list A) (less : A -> A -> bool)
  : list A :=
  rev (fold_left (fun racc x => insertBack less x racc) l []).

(** What [sort.Slice] asks of [less]: a strict weak ordering. *)
Record StrictWeakOrder {A : Type} (less : A -> A -> bool) : Prop := {
  swo_irrefl : forall a, less a a = false;
  swo_trans : forall a b c, less a b = true -> less b c = true -> less a c = true;
  swo_incomp : forall a b c,
    less a b = false -> less b a = false ->
    less b c = false -> less c b = false ->
    less a c = false /\ less c a = false
}.

(** A slice is sorted by [less] when no element is less than one before
    it. *)
Definition SortedBy {A : Type} (less : A -> A -> bool) (l : list A) : Prop :=
  StronglySorted (fun a b => less b a = false) l.

(** ** Package [storage]: [internal/storage/badger.go] *)

Module storage.

Import domain.

(** [BadgerRepository] implements the Repository interface using
    BadgerDB.  The logger is left out: logging changes no result. *)
Record BadgerRepository : Type := mkRepo { db : badger.DB }.

(** [NewBadgerRepository] creates and initializes a new BadgerDB
    repository: it opens the database at the path, whose directory
    holds [dir]. *)
Definition NewBadgerRepository (dir : list badger.Entry) : BadgerRepository :=
  mkRepo (badger.Open dir).

(** [Close] closes the BadgerDB database connection. *)
Definition Close (r : BadgerRepository) : BadgerRepository * option error :=
  let '(db', err) := badger.Close (db r) in
  (mkRepo db', err).

(** [generateLinkKey] creates a unique key for storing a link.
    Format: [user:{userID}:link:{linkURL}]. *)
Definition generateLinkKey (userID : Z) (linkURL : string) : string :=
  ("user:" ++ strconv.FormatInt userID ++ ":link:" ++ linkURL)%string.

(** [generateUserPrefix] creates a key prefix for scanning all links
    belonging to a user.  Format: [user:{userID}:link:]. *)
Definition generateUserPrefix (userID : Z) : string :=
  ("user:" ++ strconv.FormatInt userID ++ ":link:")%string.

(** The start of [SaveLink]: the parameter [link] with its timestamp
    set when it is zero.  [now] is the reading of [time.Now()]. *)
Definition ensureTimestamp (now : time.Time) (link : Link) : Link :=
  if time.IsZero (Timestamp link) then
    mkLink (URL link) (Title link) (Description link) (UserID link) now
      (Tags link) (Read link) (PreviewImageURL link)
  else link.

(** The rest of [SaveLink]: the link is serialized and put under its
    key in one transaction. *)
Definition persistLink (r : BadgerRepository) (link : Link)
  : BadgerRepository * option error :=
  match json.Marshal link with
  | fail err => (r, Some (Errorf "failed to marshal link" err))
  | ok linkBytes =>
    let key := generateLinkKey (UserID link) (URL link) in
    let '(db', err) :=
      badger.Update (db r)
        (fun txn => badger.SetEntry txn (badger.NewEntry key linkBytes)) in
    match err with
    | Some e => (mkRepo db', Some (Errorf "failed to save link" e))
    | None => (mkRepo db', None)
    end
  end.

(** [SaveLink] stores or updates a link in BadgerDB. *)
Definition SaveLink (r : BadgerRepository) (now : time.Time) (ctx : Context)
    (link : Link) : BadgerRepository * option error :=
  let link := ensureTimestamp now link in
  persistLink r link.

(** The loop of [GetLinksByUser] from the position of the iterator:
    while the key at the position has the prefix, its value is decoded
    and appended to [links]; an error of the decoder ends the loop and
    is returned. *)
Fixpoint scanLinks (prefix : string) (it : badger.Iterator) (links : list Link)
  : list Link * option error :=
  match it with
  | [] => (links, None)
  | item :: it' =>
    if String.prefix prefix (fst item) then
      match json.Unmarshal (snd item) with
      | fail err =>
        (links,
         Some (Errorf ("failed to unmarshal link data for key " ++ fst item) err))
      | ok link => scanLinks prefix it' (links ++ [link])
      end
    else (links, None)
  end.

(** The comparison [GetLinksByUser] sorts by: the newer link first. *)
Definition newerFirst (a b : Link) : bool :=
  time.After (Timestamp a) (Timestamp b).

Section GetLinks.

(** [sort.Slice]: the slice sorted by [less].  The order it leaves
    equal elements in is not specified; the function is any one that
    meets the contract stated with the properties below. *)
Variable sort_Slice : list Link -> (Link -> Link -> bool) -> list Link.

(** [GetLinksByUser] retrieves all links for a specific user. *)
Definition GetLinksByUser (r : BadgerRepository) (ctx : Context) (userID : Z)
  : list Link * option error :=
  let '(links, err) :=
    badger.View (db r) []
      (fun txn =>
         let prefix := generateUserPrefix userID in
         scanLinks prefix (badger.Seek txn prefix) []) in
  match err with
  | Some e =>
    ([], Some (Errorf ("failed to get links for user " ++ strconv.FormatInt userID) e))
  | None => (sort_Slice links newerFirst, None)
  end.

End GetLinks.

(** [DeleteLink] removes a specific link for a user. *)
Definition DeleteLink (r : BadgerRepository) (ctx : Context) (userID : Z)
    (linkURL : string) : BadgerRepository * option error :=
  let key := generateLinkKey userID linkURL in
  let '(db', err) := badger.Update (db r) (fun txn => badger.Delete txn key) in
  match err with
  | Some e =>
    (mkRepo db',
     Some (Errorf ("failed to delete link " ++ linkURL ++ " for user "
                   ++ strconv.FormatInt userID) e))
  | None => (mkRepo db', None)
  end.

End storage.

(** ** The call of [SaveLink], with the variables of caller and callee

    The parameter [link] of [SaveLink] has the struct type
    [domain.Link], so a call copies the caller's record into a variable
    of the callee.  To state what the caller can observe, the variables
    that hold a [Link] are cells of a memory, addressed by their
    index. *)

Module frame.

Import domain storage.

Definition Memory : Type := list Link.

Definition load (m : Memory) (a : nat) : option Link := nth_error m a.

(** The assignment to the variable at [a]. *)
Fixpoint assign (m : Memory) (a : nat) (v : Link) : Memory :=
  match m, a with
  | [], _ => []
  | _ :: m', O => v :: m'
  | x :: m', S a' => x :: assign m' a' v
  end.

(** A new variable initialised with [v]: the memory and the address of
    the variable. *)
Definition alloc (m : Memory) (v : Link) : Memory * nat :=
  (m ++ [v], List.length m).

(** The statement [if link.Timestamp.IsZero() { link.Timestamp =
    time.Now() }] on the variable at [p]. *)
Definition ensureTimestampAt (m : Memory) (p : nat) (now : time.Time)
  : Memory :=
  match load m p with
  | Some link =>
    if time.IsZero (Timestamp link) then
      assign m p
        (mkLink (URL link) (Title link) (Description link) (UserID link) now
           (Tags link) (Read link) (PreviewImageURL link))
    else m
  | None => m
  end.

(** The call [r.SaveLink(ctx, x)] where [x] is the caller's variable at
    [arg]: the value of [x] is copied into the parameter, the body runs
    on the parameter.  The result is the memory when the call returns,
    the address the parameter had, the repository and the error. *)
Definition callSaveLink (m : Memory) (r : BadgerRepository) (now : time.Time)
    (ctx : Context) (arg : nat)
  : option (Memory * nat * BadgerRepository * option error) :=
  match load m arg with
  | None => None
  | Some x =>
    let '(m1, p) := alloc m x in
    let m2 := ensureTimestampAt m1 p now in
    match load m2 p with
    | None => None
    | Some link =>
      let '(r', err) := persistLink r link in
      Some (m2, p, r', err)
    end
  end.

End frame.

(** ** Package [config]: [internal/config/config.go] *)

Module config.

(** [Config] holds all configuration for the application. *)
Record Config : Type := mkConfig {
  TelegramBotToken : string;
  BadgerDBPath : string
}.

Definition zero : Config := mkConfig "" "".

(** The errors of viper: [ConfigFileNotFoundError], or any other, by
    its text. *)
Inductive ViperError : Type :=
| ConfigFileNotFoundError (name : string)
| OtherError (text : string).

(** An error made by [fmt.Errorf], with the error it wraps if any. *)
Inductive error : Type :=
| Errorf (msg : string) (err : option ViperError).

(** What viper answers once the search path is added: the error of
    [viper.ReadInConfig], and the struct [viper.Unmarshal] has written
    with its error. *)
Record Viper : Type := mkViper {
  ReadInConfig : string -> option ViperError;
  Unmarshal : string -> Config * option ViperError
}.

(** [LoadConfig] reads configuration from file or environment
    variables.  An error reading the config file is returned unless it
    is that the file was not found; then the configuration is decoded,
    the token checked and the default path set.  The result is the
    configuration, the error, and the lines printed. *)
Definition LoadConfig (viper : Viper) (path : string)
  : Config * option error * list string :=
  let decode :=
    let '(config, err) := Unmarshal viper path in
    match err with
    | Some e => (zero, Some (Errorf "unable to decode into struct" (Some e)), [])
    | None =>
      if String.eqb (TelegramBotToken config) "" then
        (zero, Some (Errorf "TELEGRAM_BOT_TOKEN is not set" None), [])
      else if String.eqb (BadgerDBPath config) "" then
        (mkConfig (TelegramBotToken config) "./badger_data", None,
         ["BADGERDB_PATH not set, using default: ./badger_data"%string])
      else (config, None, [])
    end in
  match ReadInConfig viper path with
  | Some (OtherError text) =>
    (zero, Some (Errorf "error reading config file" (Some (OtherError text))),
     [])
  | Some (ConfigFileNotFoundError _) => decode
  | None => decode
  end.

End config.

(** ** Package [scraper]: the rod scraper *)

Module scraper.

(** The errors of the scraper: one made by [errors.New], one made by
    [fmt.Errorf] around another, one of the rod library by its text,
    and the two errors of a context. *)
Inductive error : Type :=
| New (text : string)
| Errorf (msg : string) (err : error)
| RodError (text : string)
| Canceled
| DeadlineExceeded.

(** [errors.Is(err, context.DeadlineExceeded)]. *)
Fixpoint Is_DeadlineExceeded (err : error) : bool :=
  match err with
  | DeadlineExceeded => true
  | Errorf _ err' => Is_DeadlineExceeded err'
  | _ => false
  end.

(** The browser by what it answers.  An element gives its text and the
    value of an attribute if it has it; a page the error of [WaitLoad],
    the error of its context after that, the element of a selector, and
    the error of [Close]; a browser the error of [Connect], the page of
    a URL, and the error of [Close]. *)
Record Element : Type := mkElement {
  Element_Text : string + error;
  Element_Attribute : string -> option string + error
}.

Record Page : Type := mkPage {
  Page_WaitLoad : option error;
  pageCtx_Err : option error;
  Page_Element : string -> Element + error;
  Page_Close : option error
}.

Record Browser : Type := mkBrowser {
  Browser_Connect : option error;
  Browser_Page : string -> Page + error;
  Browser_Close : option error
}.

(** The launcher: the path of the browser and whether it exists;
    [MustLaunch], which panics when it fails; and the browser behind a
    control URL. *)
Record Launcher : Type := mkLauncher {
  LookPath : string * bool;
  MustLaunch : string -> option string;
  ControlURL : string -> Browser
}.

Inductive outcome : Type :=
| Return (title description : string) (err : option error)
| Panic.

Section Scrape.

(** [strings.TrimSpace]. *)
Variable TrimSpace : string -> string.

(** The selectors of the description. *)
Definition descSelectors : list string :=
  [("meta[name=" ++ String dquote ("description" ++ String dquote "]"))%string;
   ("meta[property=" ++ String dquote ("og:description" ++ String dquote "]"))%string].

(** The title: empty when the page has no title element or its text
    cannot be read. *)
Definition extractTitle (page : Page) : string :=
  match Page_Element page "title" with
  | inr _ => EmptyString
  | inl titleElement =>
    let title :=
      match Element_Text titleElement with
      | inl title => title
      | inr _ => EmptyString
      end in
    TrimSpace title
  end.

(** The loop over the selectors: the content of the first element that
    has one is trimmed and, when it is not empty, ends the loop. *)
Fixpoint extractDescription (page : Page) (selectors : list string)
    (description : string) : string :=
  match selectors with
  | [] => description
  | selector :: rest =>
    match Page_Element page selector with
    | inl descElement =>
      match Element_Attribute descElement "content" with
      | inl (Some descContent) =>
        let description := TrimSpace descContent in
        if negb (String.eqb description "") then description
        else extractDescription page rest description
      | _ => extractDescription page rest description
      end
    | inr _ => extractDescription page rest description
    end
  end.

(** A deferred [Close]: its error becomes the error returned when
    there is none yet. *)
Definition deferClose (closeErr : option error) (msg : string)
    (err : option error) : option error :=
  match closeErr with
  | Some e =>
    match err with
    | None => Some (Errorf msg e)
    | Some _ => err
    end
  | None => err
  end.

(** [ScrapeMetadata] fetches the title and description using rod. *)
Definition ScrapeMetadata (l : Launcher) (url : string) : outcome :=
  match LookPath l with
  | (_, false) => Return "" "" (Some (New "rod browser dependency not found"))
  | (path, true) =>
    match MustLaunch l path with
    | None => Panic
    | Some u =>
      let browser := ControlURL l u in
      match Browser_Connect browser with
      | Some err =>
        Return "" "" (Some (Errorf "failed to connect to browser" err))
      | None =>
        let '(title, description, err) :=
          match Browser_Page browser url with
          | inr err => (EmptyString, EmptyString,
                        Some (Errorf "failed to create page" err))
          | inl page =>
            let '(title, description, err) :=
              match Page_WaitLoad page with
              | Some err =>
                match pageCtx_Err page with
                | Some ctxErr =>
                  if Is_DeadlineExceeded ctxErr then
                    (EmptyString, EmptyString,
                     Some (Errorf ("scraping timed out for " ++ url) ctxErr))
                  else
                    (EmptyString, EmptyString,
                     Some (Errorf "failed waiting for page load" err))
                | None =>
                  (EmptyString, EmptyString,
                   Some (Errorf "failed waiting for page load" err))
                end
              | None =>
                (extractTitle page,
                 extractDescription page descSelectors EmptyString, None)
              end in
            (title, description,
             deferClose (Page_Close page) "error closing page" err)
          end in
        Return title description
          (deferClose (Browser_Close browser) "error closing browser" err)
      end
    end
  end.

End Scrape.

End scraper.

(** * Properties *)

(** ** Strings, their order and their prefixes *)

Lemma append_assoc (a b c : string) :
  append (append a b) c = append a (append b c).
Proof.
  induction a as [|x a IH]; simpl; [reflexivity | now rewrite IH].
Qed.

Lemma prefix_append (p s : string) : String.prefix p (append p s) = true.
Proof.
  induction p as [|a p IH]; simpl.
  - now destruct s.
  - destruct (ascii_dec a a); [exact IH | congruence].
Qed.

Lemma prefix_app_inv (a p s : string) :
  String.prefix (append a p) (append a s) = String.prefix p s.
Proof.
  induction a as [|x a IH]; simpl; [reflexivity|].
  destruct (ascii_dec x x); [exact IH | congruence].
Qed.

Lemma prefix_exists (p s : string) :
  String.prefix p s = true -> exists t, s = append p t.
Proof.
  revert s; induction p as [|a p IH]; intros s H.
  - now exists s.
  - destruct s as [|b s]; simpl in H; [discriminate|].
    destruct (ascii_dec a b) as [->|]; [|discriminate].
    destruct (IH _ H) as [t ->]. now exists t.
Qed.

Lemma ascii_compare_refl (a : ascii) : Ascii.compare a a = Eq.
Proof. unfold Ascii.compare. apply N.compare_refl. Qed.

Lemma ascii_compare_eq (a b : ascii) : Ascii.compare a b = Eq <-> a = b.
Proof.
  split; [apply Ascii.compare_eq_iff | intros ->; apply ascii_compare_refl].
Qed.

Lemma ascii_compare_lt_trans (a b c : ascii) :
  Ascii.compare a b = Lt -> Ascii.compare b c = Lt -> Ascii.compare a c = Lt.
Proof.
  unfold Ascii.compare. rewrite !N.compare_lt_iff. apply N.lt_trans.
Qed.

Lemma string_compare_refl (s : string) : String.compare s s = Eq.
Proof.
  induction s as [|a s IH]; simpl; [reflexivity|].
  now rewrite ascii_compare_refl.
Qed.

Lemma string_compare_eq (a b : string) : String.compare a b = Eq <-> a = b.
Proof.
  split; [apply String.compare_eq_iff | intros ->; apply string_compare_refl].
Qed.

Lemma string_compare_lt_trans (a b c : string) :
  String.compare a b = Lt -> String.compare b c = Lt -> String.compare a c = Lt.
Proof.
  revert b c; induction a as [|x a IH]; intros [|y b] [|z c]; simpl;
    try discriminate; try reflexivity.
  destruct (Ascii.compare x y) eqn:Hxy; try discriminate;
    destruct (Ascii.compare y z) eqn:Hyz; try discriminate; intros H1 H2.
  - apply ascii_compare_eq in Hxy, Hyz; subst.
    rewrite ascii_compare_refl. eapply IH; eassumption.
  - apply ascii_compare_eq in Hxy; subst. now rewrite Hyz.
  - apply ascii_compare_eq in Hyz; subst. now rewrite Hxy.
  - now rewrite (ascii_compare_lt_trans _ _ _ Hxy Hyz).
Qed.

Lemma string_compare_gt_lt (a b : string) :
  String.compare a b = Gt <-> String.compare b a = Lt.
Proof.
  rewrite (String.compare_antisym b a).
  destruct (String.compare a b); simpl; split; congruence.
Qed.

Lemma string_compare_lt_irrefl (a : string) : String.compare a a <> Lt.
Proof. now rewrite string_compare_refl. Qed.

(** A key below the prefix does not have it. *)
Lemma prefix_not_below (p k : string) :
  String.compare k p = Lt -> String.prefix p k = false.
Proof.
  revert k; induction p as [|a p IH]; intros [|b k]; simpl; try discriminate;
    try reflexivity.
  destruct (ascii_dec a b) as [->|]; [|reflexivity].
  rewrite ascii_compare_refl. apply IH.
Qed.

(** The keys with a prefix are an interval of the order: past a key
    that is not below the prefix and does not have it, no key has it. *)
Lemma prefix_interval (p k1 k2 : string) :
  String.compare k1 p <> Lt -> String.prefix p k1 = false ->
  String.compare k1 k2 = Lt -> String.prefix p k2 = false.
Proof.
  revert k1 k2; induction p as [|a p IH]; intros k1 k2 Hge Hnp Hlt.
  - destruct k1; discriminate.
  - destruct k1 as [|b k1]; [now elim Hge|].
    destruct k2 as [|c k2]; [reflexivity|].
    simpl in *.
    destruct (ascii_dec a c) as [<-|Hac]; [|reflexivity].
    destruct (ascii_dec a b) as [<-|Hab].
    + rewrite ascii_compare_refl in *. eapply IH; eassumption.
    + destruct (Ascii.compare b a) eqn:Hba.
      * apply ascii_compare_eq in Hba. congruence.
      * now elim Hge.
      * discriminate.
Qed.
(** ** The key scheme *)

#[local] Arguments ascii_dec : simpl never.

Fixpoint string_all (P : ascii -> bool) (s : string) : bool :=
  match s with
  | EmptyString => true
  | String c s' => P c && string_all P s'
  end.

(** The bytes of a decimal number: a digit or the minus sign. *)
Definition isNumeric (c : ascii) : bool :=
  time.isDigit c || Ascii.eqb c "-".

Lemma string_of_uint_numeric (d : Decimal.uint) :
  string_all isNumeric (NilEmpty.string_of_uint d) = true.
Proof. induction d; simpl; auto. Qed.

Lemma FormatInt_numeric (i : Z) :
  string_all isNumeric (strconv.FormatInt i) = true.
Proof.
  unfold strconv.FormatInt.
  destruct (Z.to_int i) as [d|d]; simpl;
    (destruct d; [reflexivity | apply (string_of_uint_numeric (_ d)) ..]).
Qed.

Lemma to_int_proper (i : Z) :
  Z.to_int i <> Decimal.Pos Decimal.Nil /\ Z.to_int i <> Decimal.Neg Decimal.Nil.
Proof.
  destruct i; simpl; split; try discriminate;
    intros [= H]; now apply DecimalPos.Unsigned.to_uint_nonnil in H.
Qed.

Lemma int_of_string_FormatInt (i : Z) :
  NilZero.int_of_string (strconv.FormatInt i) = Some (Z.to_int i).
Proof.
  unfold strconv.FormatInt. apply NilZero.isi; apply to_int_proper.
Qed.

(** The decimal text determines the number. *)
Lemma FormatInt_inj (i j : Z) :
  strconv.FormatInt i = strconv.FormatInt j -> i = j.
Proof.
  intros H. apply DecimalZ.to_int_inj.
  pose proof (int_of_string_FormatInt i) as Hi.
  rewrite H, int_of_string_FormatInt in Hi. congruence.
Qed.

(** [ParseInt] reads back what [FormatInt] writes for an [int64]. *)
Lemma ParseInt_FormatInt (i : Z) :
  strconv.minInt64 <= i <= strconv.maxInt64 ->
  strconv.ParseInt (strconv.FormatInt i) = Some i.
Proof.
  intros [H1 H2]. unfold strconv.ParseInt.
  rewrite int_of_string_FormatInt, DecimalZ.of_to.
  apply Z.leb_le in H1, H2. now rewrite H1, H2.
Qed.

(** Two texts without a colon, each followed by a colon: when one of
    the strings is a prefix of the other, the texts are the same. *)
Lemma colon_delimits (s1 s2 x y : string) :
  string_all isNumeric s1 = true -> string_all isNumeric s2 = true ->
  String.prefix (append s1 (String ":" x)) (append s2 (String ":" y)) = true ->
  s1 = s2.
Proof.
  revert s2; induction s1 as [|a s1 IH]; intros [|b s2]; simpl; intros H1 H2 H.
  - reflexivity.
  - destruct (ascii_dec ":" b) as [<-|]; [|discriminate].
    cbn in H2. discriminate.
  - destruct (ascii_dec a ":") as [->|]; [|discriminate].
    cbn in H1. discriminate.
  - destruct (ascii_dec a b) as [<-|]; [|discriminate].
    apply andb_prop in H1, H2. f_equal. apply IH; tauto.
Qed.

Lemma append_inj_l (a x y : string) : append a x = append a y -> x = y.
Proof. induction a; simpl; intros H; [assumption | injection H; auto]. Qed.

(** The scan prefix of a user is a prefix of the key of a link exactly
    when the link is keyed by that user. *)
Lemma userPrefix_linkKey (a b : Z) (url : string) :
  String.prefix (storage.generateUserPrefix a) (storage.generateLinkKey b url) = true
  <-> a = b.
Proof.
  unfold storage.generateUserPrefix, storage.generateLinkKey. split.
  - rewrite prefix_app_inv. intros H. apply FormatInt_inj.
    apply (colon_delimits _ _ "link:" (append "link:" url));
      auto using FormatInt_numeric.
  - intros ->.
    change (append ":link:" url) with (append ":link:" url).
    rewrite <- (append_assoc (strconv.FormatInt b) ":link:" url).
    rewrite <- (append_assoc "user:" _ url).
    apply prefix_append.
Qed.

(** A key with the scan prefix of a user is the key of a link of that
    user. *)
Lemma userPrefix_key (a : Z) (k : string) :
  String.prefix (storage.generateUserPrefix a) k = true ->
  exists url, k = storage.generateLinkKey a url.
Proof.
  intros H. destruct (prefix_exists _ _ H) as [url ->]. exists url.
  unfold storage.generateUserPrefix, storage.generateLinkKey.
  now rewrite !append_assoc.
Qed.

(** Equal pairs have the same key and distinct pairs distinct keys. *)
Lemma generateLinkKey_inj (a b : Z) (u v : string) :
  storage.generateLinkKey a u = storage.generateLinkKey b v <-> a = b /\ u = v.
Proof.
  split; [|now intros [-> ->]].
  intros H.
  assert (Hab : a = b).
  { apply (userPrefix_linkKey a b v). rewrite <- H.
    apply userPrefix_linkKey. reflexivity. }
  subst b. split; [reflexivity|].
  unfold storage.generateLinkKey in H.
  apply append_inj_l in H. apply append_inj_l in H. now apply append_inj_l in H.
Qed.

(** ** The table of the engine *)

Definition keyLt (e1 e2 : badger.Entry) : Prop :=
  String.compare (fst e1) (fst e2) = Lt.

(** The invariant of the table: ascending keys, so one entry for a
    key. *)
Definition sortedTable (t : list badger.Entry) : Prop :=
  StronglySorted keyLt t.

Definition hasPrefix (p : string) (e : badger.Entry) : bool :=
  String.prefix p (fst e).

Lemma put_In (k v : string) (t : list badger.Entry) (e : badger.Entry) :
  In e (badger.put k v t) -> e = (k, v) \/ In e t.
Proof.
  induction t as [|[k' v'] t IH]; simpl.
  - intros [<-|[]]. now left.
  - destruct (String.compare k k'); simpl; intuition.
Qed.

Lemma remove_In (k : string) (t : list badger.Entry) (e : badger.Entry) :
  In e (badger.remove k t) -> In e t /\ fst e <> k.
Proof.
  induction t as [|[k' v'] t IH]; simpl; [tauto|].
  destruct (String.eqb_spec k k') as [->|Hne]; simpl.
  - intros H. destruct (IH H). tauto.
  - intros [<-|H]; [simpl; split; [now left | congruence]|].
    destruct (IH H). tauto.
Qed.

Lemma put_Forall (P : badger.Entry -> Prop) (k v : string) (t : list badger.Entry) :
  P (k, v) -> Forall P t -> Forall P (badger.put k v t).
Proof.
  intros Hk Ht. apply Forall_forall. intros e He.
  apply put_In in He as [->|He]; [assumption|].
  rewrite Forall_forall in Ht. auto.
Qed.

Lemma remove_Forall (P : badger.Entry -> Prop) (k : string) (t : list badger.Entry) :
  Forall P t -> Forall P (badger.remove k t).
Proof.
  intros Ht. apply Forall_forall. intros e He.
  apply remove_In in He as [He _]. rewrite Forall_forall in Ht. auto.
Qed.

Lemma put_sorted (k v : string) (t : list badger.Entry) :
  sortedTable t -> sortedTable (badger.put k v t).
Proof.
  unfold sortedTable.
  induction t as [|[k' v'] t IH]; simpl; intros Hs.
  - repeat constructor.
  - inversion Hs as [|? ? Hs' Hall]; subst.
    destruct (String.compare k k') eqn:Hc.
    + apply string_compare_eq in Hc; subst. now constructor.
    + constructor; [assumption|]. constructor; [exact Hc|].
      eapply Forall_impl; [|exact Hall]. intros e He. unfold keyLt in *.
      simpl in *. eapply string_compare_lt_trans; eassumption.
    + constructor; [auto|]. apply put_Forall; [|assumption].
      unfold keyLt; simpl. now apply string_compare_gt_lt.
Qed.

Lemma remove_sorted (k : string) (t : list badger.Entry) :
  sortedTable t -> sortedTable (badger.remove k t).
Proof.
  unfold sortedTable.
  induction t as [|[k' v'] t IH]; simpl; intros Hs; [constructor|].
  inversion Hs as [|? ? Hs' Hall]; subst.
  destruct (String.eqb k k'); [auto|].
  constructor; [auto|]. now apply remove_Forall.
Qed.

Lemma get_put (k v k' : string) (t : list badger.Entry) :
  badger.get k' (badger.put k v t) =
  if String.eqb k' k then Some v else badger.get k' t.
Proof.
  induction t as [|[k0 v0] t IH]; simpl.
  - now destruct (String.eqb k' k).
  - destruct (String.compare k k0) eqn:Hc; simpl.
    + apply string_compare_eq in Hc; subst.
      now destruct (String.eqb k' k0).
    + reflexivity.
    + rewrite IH. destruct (String.eqb_spec k' k0) as [->|]; [|reflexivity].
      destruct (String.eqb_spec k0 k) as [->|]; [|reflexivity].
      now rewrite string_compare_refl in Hc.
Qed.

Lemma get_remove (k k' : string) (t : list badger.Entry) :
  badger.get k' (badger.remove k t) =
  if String.eqb k' k then None else badger.get k' t.
Proof.
  induction t as [|[k0 v0] t IH]; simpl.
  - now destruct (String.eqb k' k).
  - destruct (String.eqb_spec k k0) as [->|Hne]; simpl.
    + rewrite IH. destruct (String.eqb_spec k' k0); reflexivity.
    + rewrite IH. destruct (String.eqb_spec k' k0) as [->|]; [|reflexivity].
      destruct (String.eqb_spec k0 k); [congruence | reflexivity].
Qed.

Lemma get_In (k v : string) (t : list badger.Entry) :
  badger.get k t = Some v -> In (k, v) t.
Proof.
  induction t as [|[k0 v0] t IH]; simpl; [discriminate|].
  destruct (String.eqb_spec k k0) as [->|]; [intros [= ->]; now left | auto].
Qed.

Lemma get_None_not_In (k : string) (t : list badger.Entry) :
  badger.get k t = None -> forall e, In e t -> fst e <> k.
Proof.
  induction t as [|[k0 v0] t IH]; simpl; [tauto|].
  destruct (String.eqb_spec k k0) as [->|Hne]; [discriminate|].
  intros H e [<-|He]; simpl; [congruence | auto].
Qed.

(** In a sorted table the entry of a key is the one [get] returns. *)
Lemma sorted_In_get (k v : string) (t : list badger.Entry) :
  sortedTable t -> In (k, v) t -> badger.get k t = Some v.
Proof.
  unfold sortedTable.
  induction t as [|[k0 v0] t IH]; simpl; [tauto|]. intros Hs.
  inversion Hs as [|? ? Hs' Hall]; subst.
  intros [[= -> ->]|Hin]; [now rewrite String.eqb_refl|].
  destruct (String.eqb_spec k k0) as [->|Hne]; [|auto].
  rewrite Forall_forall in Hall. specialize (Hall _ Hin).
  unfold keyLt in Hall; simpl in Hall.
  now rewrite string_compare_refl in Hall.
Qed.

(** Removing a key that is absent leaves the table as it is. *)
Lemma remove_absent (k : string) (t : list badger.Entry) :
  badger.get k t = None -> badger.remove k t = t.
Proof.
  induction t as [|[k0 v0] t IH]; simpl; [reflexivity|].
  destruct (String.eqb k k0); [discriminate|]. intros H. now rewrite IH.
Qed.

Lemma remove_idempotent (k : string) (t : list badger.Entry) :
  badger.remove k (badger.remove k t) = badger.remove k t.
Proof.
  apply remove_absent. rewrite get_remove. now rewrite String.eqb_refl.
Qed.

(** Sorted tables with the same entries are the same table. *)
Lemma sortedTable_ext (t1 t2 : list badger.Entry) :
  sortedTable t1 -> sortedTable t2 ->
  (forall k, badger.get k t1 = badger.get k t2) -> t1 = t2.
Proof.
  unfold sortedTable. revert t2.
  induction t1 as [|[k1 v1] t1 IH]; intros [|[k2 v2] t2] H1 H2 Hget.
  - reflexivity.
  - specialize (Hget k2). simpl in Hget. now rewrite String.eqb_refl in Hget.
  - specialize (Hget k1). simpl in Hget. now rewrite String.eqb_refl in Hget.
  - inversion H1 as [|? ? H1' Hall1]; inversion H2 as [|? ? H2' Hall2]; subst.
    assert (Hk : k1 = k2).
    { destruct (String.compare k1 k2) eqn:Hc.
      - now apply string_compare_eq.
      - exfalso. pose proof (Hget k1) as Hg. simpl in Hg.
        rewrite String.eqb_refl in Hg.
        destruct (String.eqb_spec k1 k2) as [->|_];
          [now rewrite string_compare_refl in Hc|].
        symmetry in Hg. apply get_In in Hg.
        rewrite Forall_forall in Hall2. specialize (Hall2 _ Hg).
        unfold keyLt in Hall2; simpl in Hall2.
        pose proof (string_compare_lt_trans _ _ _ Hc Hall2) as Hbad.
        now rewrite string_compare_refl in Hbad.
      - exfalso. apply string_compare_gt_lt in Hc.
        pose proof (Hget k2) as Hg. simpl in Hg.
        rewrite String.eqb_refl in Hg.
        destruct (String.eqb_spec k2 k1) as [->|_];
          [now rewrite string_compare_refl in Hc|].
        apply get_In in Hg.
        rewrite Forall_forall in Hall1. specialize (Hall1 _ Hg).
        unfold keyLt in Hall1; simpl in Hall1.
        pose proof (string_compare_lt_trans _ _ _ Hc Hall1) as Hbad.
        now rewrite string_compare_refl in Hbad. }
    subst k2.
    pose proof (Hget k1) as Hg. simpl in Hg. rewrite String.eqb_refl in Hg.
    injection Hg as ->. f_equal.
    apply IH; try assumption.
    intros k. specialize (Hget k). simpl in Hget.
    destruct (String.eqb_spec k k1) as [Hk|]; [subst k|assumption].
    rewrite Forall_forall in Hall1, Hall2.
    destruct (badger.get k1 t1) eqn:E1.
    { apply get_In in E1. specialize (Hall1 _ E1). unfold keyLt in Hall1.
      simpl in Hall1. now rewrite string_compare_refl in Hall1. }
    destruct (badger.get k1 t2) eqn:E2; [|reflexivity].
    apply get_In in E2. specialize (Hall2 _ E2). unfold keyLt in Hall2.
    simpl in Hall2. now rewrite string_compare_refl in Hall2.
Qed.

(** ** The scan of [GetLinksByUser] *)

Lemma filter_none {A : Type} (f : A -> bool) (l : list A) :
  (forall x, In x l -> f x = false) -> filter f l = [].
Proof.
  induction l as [|x l IH]; simpl; intros H; [reflexivity|].
  rewrite (H x) by now left. apply IH. intros y Hy. apply H. now right.
Qed.

(** From a position with no key below the prefix, the loop visits the
    entries that have the prefix, all of them. *)
Lemma scanLinks_from (p : string) (t : list badger.Entry) :
  sortedTable t ->
  (forall e, In e t -> String.compare (fst e) p <> Lt) ->
  forall acc,
    storage.scanLinks p t acc = storage.scanLinks p (filter (hasPrefix p) t) acc.
Proof.
  unfold sortedTable.
  induction t as [|e t IH]; intros Hs Hge acc; [reflexivity|].
  inversion Hs as [|? ? Hs' Hall]; subst. simpl. unfold hasPrefix at 1.
  destruct (String.prefix p (fst e)) eqn:Hp; simpl.
  - rewrite Hp. destruct (json.Unmarshal (snd e)); [|reflexivity].
    apply IH; [assumption|]. intros e' He'. apply Hge. now right.
  - rewrite filter_none; [reflexivity|].
    intros e' He'. rewrite Forall_forall in Hall.
    apply (prefix_interval p (fst e) (fst e')); [|assumption|].
    + apply Hge. now left.
    + apply (Hall _ He').
Qed.

Lemma Seek_scanLinks (p : string) (t : list badger.Entry) :
  sortedTable t ->
  forall acc,
    storage.scanLinks p (badger.Seek t p) acc
    = storage.scanLinks p (filter (hasPrefix p) t) acc.
Proof.
  unfold sortedTable.
  induction t as [|e t IH]; intros Hs acc; [reflexivity|].
  inversion Hs as [|? ? Hs' Hall]; subst.
  cbn [badger.Seek filter]. unfold badger.ltb.
  destruct (String.compare (fst e) p) eqn:Hc.
  - apply (scanLinks_from p (e :: t)); [assumption|].
    intros e' [<-|He']; [congruence|].
    rewrite Forall_forall in Hall. specialize (Hall _ He'). unfold keyLt in Hall.
    intros Hlt. apply string_compare_eq in Hc. rewrite Hc in Hall.
    pose proof (string_compare_lt_trans _ _ _ Hall Hlt) as Hbad.
    now rewrite string_compare_refl in Hbad.
  - unfold hasPrefix at 1. rewrite (prefix_not_below _ _ Hc). now apply IH.
  - apply (scanLinks_from p (e :: t)); [assumption|].
    intros e' [<-|He']; [congruence|].
    rewrite Forall_forall in Hall. specialize (Hall _ He'). unfold keyLt in Hall.
    intros Hlt. pose proof (string_compare_lt_trans _ _ _ Hall Hlt) as Hbad.
    congruence.
Qed.

(** Every link the loop collects is the decoding of an entry that has
    the prefix. *)
Lemma scanLinks_sound (p : string) (es : list badger.Entry) :
  forall acc links err,
    storage.scanLinks p es acc = (links, err) ->
    forall l, In l links ->
      In l acc \/
      exists e, In e es /\ hasPrefix p e = true /\ json.Unmarshal (snd e) = ok l.
Proof.
  induction es as [|e es IH]; simpl; intros acc links err H l Hl.
  - injection H as <- <-. now left.
  - destruct (String.prefix p (fst e)) eqn:Hp.
    + destruct (json.Unmarshal (snd e)) as [l0|e0] eqn:Hu.
      * destruct (IH _ _ _ H l Hl) as [Hin|(e' & He' & Hp' & Hu')].
        -- apply in_app_or in Hin as [Hin|[<-|[]]]; [now left|].
           right. exists e. unfold hasPrefix. tauto.
        -- right. exists e'. tauto.
      * injection H as <- <-. now left.
    + injection H as <- <-. now left.
Qed.

(** The decoding of an entry, the zero value when it has none. *)
Definition decoded (e : badger.Entry) : domain.Link :=
  match json.Unmarshal (snd e) with
  | ok l => l
  | fail _ => domain.zero
  end.

Definition decodes (e : badger.Entry) : Prop :=
  exists l, json.Unmarshal (snd e) = ok l.

(** When every entry has the prefix and decodes, the loop collects the
    decodings in the order of the entries. *)
Lemma scanLinks_all (p : string) (es : list badger.Entry) :
  Forall (fun e => hasPrefix p e = true) es -> Forall decodes es ->
  forall acc, storage.scanLinks p es acc = (acc ++ map decoded es, None).
Proof.
  induction es as [|e es IH]; simpl; intros Hp Hd acc.
  - now rewrite app_nil_r.
  - inversion Hp as [|? ? Hp1 Hp']; inversion Hd as [|? ? [l0 Hl] Hd']; subst.
    unfold hasPrefix in Hp1. rewrite Hp1. unfold decoded at 1. rewrite Hl.
    rewrite IH by assumption. now rewrite <- app_assoc.
Qed.

(** When every entry has the prefix and one does not decode, the loop
    ends with the error of the first such entry. *)
Lemma scanLinks_fails (p : string) (es : list badger.Entry) :
  Forall (fun e => hasPrefix p e = true) es ->
  Exists (fun e => ~ decodes e) es ->
  forall acc, exists links e err,
    In e es /\ json.Unmarshal (snd e) = fail err /\
    storage.scanLinks p es acc
    = (links, Some (Errorf ("failed to unmarshal link data for key " ++ fst e) err)).
Proof.
  induction es as [|e es IH]; simpl; intros Hp Hx acc.
  - inversion Hx.
  - inversion Hp as [|? ? Hp1 Hp']; subst. unfold hasPrefix in Hp1. rewrite Hp1.
    destruct (json.Unmarshal (snd e)) as [l|err] eqn:Hu.
    + inversion Hx as [? ? Hbad|? ? Hx']; subst.
      * elim Hbad. now exists l.
      * destruct (IH Hp' Hx' (acc ++ [l])) as (links & e' & err & Hin & Hf & Hs).
        exists links, e', err. tauto.
    + exists acc, e, err. tauto.
Qed.

(** Without an entry that fails to decode there is no error. *)
Lemma scanLinks_no_error (p : string) (es : list badger.Entry) :
  Forall (fun e => hasPrefix p e = true -> decodes e) es ->
  forall acc, snd (storage.scanLinks p es acc) = None.
Proof.
  induction es as [|e es IH]; simpl; intros Hd acc; [reflexivity|].
  inversion Hd as [|? ? Hd1 Hd']; subst.
  destruct (String.prefix p (fst e)) eqn:Hp; [|reflexivity].
  destruct (Hd1 Hp) as [l Hl]. rewrite Hl. now apply IH.
Qed.

(** ** Sorting *)

Lemma swo_asym {A : Type} (less : A -> A -> bool) :
  StrictWeakOrder less -> forall a b, less a b = true -> less b a = false.
Proof.
  intros H a b Hab. destruct (less b a) eqn:Hba; [|reflexivity].
  pose proof (swo_trans less H _ _ _ Hab Hba) as Haa.
  now rewrite (swo_irrefl less H) in Haa.
Qed.

(** Not being less is transitive. *)
Lemma swo_neg_trans {A : Type} (less : A -> A -> bool) :
  StrictWeakOrder less ->
  forall a b c, less a b = false -> less b c = false -> less a c = false.
Proof.
  intros H a b c Hab Hbc. destruct (less a c) eqn:Hac; [|reflexivity].
  destruct (less b a) eqn:Hba.
  { pose proof (swo_trans less H _ _ _ Hba Hac). congruence. }
  destruct (less c b) eqn:Hcb.
  { pose proof (swo_trans less H _ _ _ Hac Hcb). congruence. }
  destruct (swo_incomp less H a b c Hab Hba Hbc Hcb). congruence.
Qed.

Lemma insertBack_Permutation {A : Type} (less : A -> A -> bool) (x : A)
    (racc : list A) :
  Permutation (insertBack less x racc) (x :: racc).
Proof.
  induction racc as [|y r IH]; simpl; [reflexivity|].
  destruct (less x y); [|reflexivity].
  rewrite IH. apply perm_swap.
Qed.

Lemma insertBack_sorted {A : Type} (less : A -> A -> bool) (x : A)
    (racc : list A) :
  StrictWeakOrder less ->
  StronglySorted (fun a b => less a b = false) racc ->
  StronglySorted (fun a b => less a b = false) (insertBack less x racc).
Proof.
  intros H. induction racc as [|y r IH]; simpl; intros Hs.
  - repeat constructor.
  - inversion Hs as [|? ? Hs' Hall]; subst.
    destruct (less x y) eqn:Hxy.
    + constructor; [auto|].
      eapply Permutation_Forall;
        [symmetry; apply insertBack_Permutation|].
      constructor; [now apply swo_asym | assumption].
    + constructor; [assumption|]. constructor; [assumption|].
      eapply Forall_impl; [|exact Hall]. intros z Hyz. simpl in Hyz.
      eapply swo_neg_trans; eassumption.
Qed.

Lemma fold_insertBack_Permutation {A : Type} (less : A -> A -> bool)
    (l racc : list A) :
  Permutation (fold_left (fun racc x => insertBack less x racc) l racc)
    (l ++ racc).
Proof.
  revert racc; induction l as [|x l IH]; intros racc; simpl; [reflexivity|].
  rewrite IH, insertBack_Permutation. symmetry. apply Permutation_middle.
Qed.

Lemma fold_insertBack_sorted {A : Type} (less : A -> A -> bool)
    (l racc : list A) :
  StrictWeakOrder less ->
  StronglySorted (fun a b => less a b = false) racc ->
  StronglySorted (fun a b => less a b = false)
    (fold_left (fun racc x => insertBack less x racc) l racc).
Proof.
  intros H. revert racc; induction l as [|x l IH]; intros racc Hs; simpl;
    [assumption|].
  apply IH. now apply insertBack_sorted.
Qed.

Lemma StronglySorted_app {A : Type} (R : A -> A -> Prop) (l1 l2 : list A) :
  StronglySorted R l1 -> StronglySorted R l2 ->
  (forall a b, In a l1 -> In b l2 -> R a b) ->
  StronglySorted R (l1 ++ l2).
Proof.
  induction l1 as [|x l1 IH]; simpl; intros H1 H2 H12; [assumption|].
  inversion H1 as [|? ? H1' Hall]; subst. constructor.
  - apply IH; auto.
  - apply Forall_app. split; [assumption|].
    apply Forall_forall. intros b Hb. apply H12; auto.
Qed.

Lemma StronglySorted_rev {A : Type} (R : A -> A -> Prop) (l : list A) :
  StronglySorted R l -> StronglySorted (fun a b => R b a) (rev l).
Proof.
  induction 1 as [|x l Hs IH Hall]; simpl; [constructor|].
  apply StronglySorted_app; [assumption | repeat constructor |].
  intros a b Ha [<-|[]]. rewrite Forall_forall in Hall.
  apply Hall. now apply in_rev.
Qed.

(** The insertion sort meets the contract of [sort.Slice]. *)
Lemma insertionSort_Permutation {A : Type} (l : list A) (less : A -> A -> bool) :
  Permutation (insertionSort l less) l.
Proof.
  unfold insertionSort. rewrite <- Permutation_rev.
  rewrite fold_insertBack_Permutation. now rewrite app_nil_r.
Qed.

Lemma insertionSort_sorted {A : Type} (l : list A) (less : A -> A -> bool) :
  StrictWeakOrder less -> SortedBy less (insertionSort l less).
Proof.
  intros H. unfold SortedBy, insertionSort.
  apply (StronglySorted_rev (fun a b => less a b = false)).
  apply fold_insertBack_sorted; [assumption | constructor].
Qed.

(** Reading the comparisons of [time.After] as statements. *)
Lemma After_true (t u : time.Time) :
  time.After t u = true <->
  time.t_sec u < time.t_sec t \/
  (time.t_sec t = time.t_sec u /\ time.t_nsec u < time.t_nsec t).
Proof.
  unfold time.After.
  rewrite orb_true_iff, andb_true_iff, !Z.ltb_lt, Z.eqb_eq. tauto.
Qed.

Lemma After_false (t u : time.Time) :
  time.After t u = false <->
  time.t_sec t < time.t_sec u \/
  (time.t_sec t = time.t_sec u /\ time.t_nsec t <= time.t_nsec u).
Proof.
  rewrite <- not_true_iff_false, After_true. lia.
Qed.

(** The comparison of [GetLinksByUser] is a strict weak ordering. *)
Lemma newerFirst_swo : StrictWeakOrder storage.newerFirst.
Proof.
  unfold storage.newerFirst. constructor.
  - intros a. apply After_false. lia.
  - intros a b c. rewrite !After_true. lia.
  - intros a b c. rewrite !After_false. lia.
Qed.

(** ** The operations of the store *)

Import domain storage.

(** The entries the repository holds. *)
Definition entries (r : BadgerRepository) : list badger.Entry :=
  badger.table (db r).

Definition isOpen (r : BadgerRepository) : Prop :=
  badger.isClosed (db r) = false.

(** The invariant of the repository: the table of the engine is
    sorted. *)
Definition RepoOK (r : BadgerRepository) : Prop := sortedTable (entries r).

(** The operations of the store and their runs. *)
Inductive operation : Type :=
| OpSave (now : time.Time) (ctx : Context) (link : Link)
| OpDelete (ctx : Context) (userID : Z) (linkURL : string)
| OpClose.

Definition perform (r : BadgerRepository) (o : operation) : BadgerRepository :=
  match o with
  | OpSave now ctx link => fst (SaveLink r now ctx link)
  | OpDelete ctx userID linkURL => fst (DeleteLink r ctx userID linkURL)
  | OpClose => fst (Close r)
  end.

Definition run (ops : list operation) (r : BadgerRepository) : BadgerRepository :=
  fold_left perform ops r.

(** What [SaveLink] does, case by case. *)
Lemma SaveLink_cases (r : BadgerRepository) (now : time.Time) (ctx : Context)
    (link : Link) :
  let stored := ensureTimestamp now link in
  SaveLink r now ctx link =
  match json.Marshal stored with
  | fail err => (r, Some (Errorf "failed to marshal link" err))
  | ok linkBytes =>
    if badger.isClosed (db r)
    then (r, Some (Errorf "failed to save link" ErrDBClosed))
    else (mkRepo (badger.mkDB false
                    (badger.put (generateLinkKey (UserID link) (URL link))
                       linkBytes (entries r))), None)
  end.
Proof.
  destruct r as [[c t]]. unfold SaveLink, persistLink, entries. simpl.
  assert (Hk : generateLinkKey (UserID (ensureTimestamp now link))
                 (URL (ensureTimestamp now link))
               = generateLinkKey (UserID link) (URL link)).
  { unfold ensureTimestamp. now destruct (time.IsZero (Timestamp link)). }
  rewrite Hk. destruct (json.Marshal (ensureTimestamp now link)); [|reflexivity].
  unfold badger.Update. simpl. now destruct c.
Qed.

Lemma DeleteLink_cases (r : BadgerRepository) (ctx : Context) (userID : Z)
    (linkURL : string) :
  DeleteLink r ctx userID linkURL =
  if badger.isClosed (db r)
  then (r, Some (Errorf ("failed to delete link " ++ linkURL ++ " for user "
                         ++ strconv.FormatInt userID) ErrDBClosed))
  else (mkRepo (badger.mkDB false
                  (badger.remove (generateLinkKey userID linkURL) (entries r))),
        None).
Proof.
  destruct r as [[c t]]. unfold DeleteLink, badger.Update, entries. simpl.
  now destruct c.
Qed.

Lemma perform_RepoOK (r : BadgerRepository) (o : operation) :
  RepoOK r -> RepoOK (perform r o).
Proof.
  unfold RepoOK. intros H. destruct o as [now ctx link|ctx u url|]; simpl.
  - rewrite SaveLink_cases. cbv zeta.
    destruct (json.Marshal _); [|assumption].
    destruct (badger.isClosed (db r)); [assumption|].
    now apply put_sorted.
  - rewrite DeleteLink_cases.
    destruct (badger.isClosed (db r)); [assumption|].
    now apply remove_sorted.
  - assumption.
Qed.

Lemma run_RepoOK (ops : list operation) (r : BadgerRepository) :
  RepoOK r -> RepoOK (run ops r).
Proof.
  revert r; induction ops as [|o ops IH]; intros r H; simpl; [assumption|].
  apply IH. now apply perform_RepoOK.
Qed.

(** A new repository on an empty directory meets the invariant. *)
Lemma NewBadgerRepository_OK : RepoOK (NewBadgerRepository []).
Proof. constructor. Qed.

(** Once closed, the engine stays closed. *)
Lemma perform_closed (r : BadgerRepository) (o : operation) :
  badger.isClosed (db r) = true -> badger.isClosed (db (perform r o)) = true.
Proof.
  intros H. destruct o as [now ctx link|ctx u url|]; simpl.
  - rewrite SaveLink_cases. cbv zeta. destruct (json.Marshal _); [|assumption].
    now rewrite H.
  - rewrite DeleteLink_cases. now rewrite H.
  - reflexivity.
Qed.

Lemma run_closed (ops : list operation) (r : BadgerRepository) :
  badger.isClosed (db r) = true -> badger.isClosed (db (run ops r)) = true.
Proof.
  revert r; induction ops as [|o ops IH]; intros r H; simpl; [assumption|].
  apply IH. now apply perform_closed.
Qed.

Lemma put_present_length (k v : string) (t : list badger.Entry) :
  sortedTable t -> badger.get k t <> None ->
  List.length (badger.put k v t) = List.length t.
Proof.
  unfold sortedTable.
  induction t as [|[k0 v0] t IH]; simpl; intros Hs Hg; [congruence|].
  inversion Hs as [|? ? Hs' Hall]; subst.
  destruct (String.compare k k0) eqn:Hc; simpl.
  - reflexivity.
  - exfalso. destruct (String.eqb_spec k k0) as [->|Hne].
    + now rewrite string_compare_refl in Hc.
    + destruct (badger.get k t) eqn:Hgt; [|congruence].
      apply get_In in Hgt. rewrite Forall_forall in Hall.
      specialize (Hall _ Hgt). unfold keyLt in Hall. simpl in Hall.
      pose proof (string_compare_lt_trans _ _ _ Hc Hall) as Hbad.
      now rewrite string_compare_refl in Hbad.
  - f_equal. apply IH; [assumption|].
    destruct (String.eqb_spec k k0) as [->|]; [|assumption].
    now rewrite string_compare_refl in Hc.
Qed.

(** In a sorted table one entry has the key that was put. *)
Lemma put_unique (k v : string) (t : list badger.Entry) :
  sortedTable t ->
  filter (fun e => String.eqb (fst e) k) (badger.put k v t) = [(k, v)].
Proof.
  intros Hs.
  assert (Hs' : sortedTable (badger.put k v t)) by now apply put_sorted.
  assert (Hin : In (k, v) (badger.put k v t)).
  { apply get_In. rewrite get_put. now rewrite String.eqb_refl. }
  revert Hs' Hin. generalize (badger.put k v t) as t'. clear.
  unfold sortedTable.
  induction t' as [|[k0 v0] t' IH]; simpl; intros Hs Hin; [tauto|].
  inversion Hs as [|? ? Hs' Hall]; subst. rewrite Forall_forall in Hall.
  destruct Hin as [[= -> ->]|Hin].
  - rewrite String.eqb_refl. f_equal. apply filter_none.
    intros e He. specialize (Hall _ He). unfold keyLt in Hall. simpl in Hall.
    apply String.eqb_neq. intros <-. now rewrite string_compare_refl in Hall.
  - destruct (String.eqb_spec k0 k) as [->|]; [|auto].
    specialize (Hall _ Hin). unfold keyLt in Hall. simpl in Hall.
    now rewrite string_compare_refl in Hall.
Qed.

(** ** Examples used to exercise the statements *)

Definition t0 : time.Time := time.mkTime 63929109600 0 0.
Definition t1 : time.Time := time.mkTime 63929109660 0 0.
Definition t2 : time.Time := time.mkTime 63929109720 0 0.

Definition linkA : Link :=
  mkLink "https://a.com" "A" "first" 1 t0 [] false "".
Definition linkB : Link :=
  mkLink "https://b.com" "B" "second" 1 t1 ["go"%string] false "".
Definition linkC : Link :=
  mkLink "https://c.com" "C" "third" 1 t2 [] true "".
Definition linkA' : Link :=
  mkLink "https://a.com" "A again" "changed" 1 time.zero [] true "".
Definition linkOther : Link :=
  mkLink "https://a.com" "other" "" 12 t1 [] false "".

(** A link whose timestamp is in the year 10000, which
    [Time.MarshalJSON] refuses. *)
Definition linkFar : Link :=
  mkLink "https://far.com" "" "" 1 (time.mkTime 315537897600 0 0) [] false "".

Definition emptyRepo : BadgerRepository := NewBadgerRepository [].

Definition repoABC : BadgerRepository :=
  run [OpSave t0 Background linkA; OpSave t0 Background linkB;
       OpSave t0 Background linkC; OpSave t0 Background linkOther] emptyRepo.

(** A repository with an entry that is no JSON document, after an entry
    that is one. *)
Definition repoCorrupt : BadgerRepository :=
  mkRepo (badger.mkDB false
            (badger.put "user:1:link:https://b.com" "not json"
               (entries (fst (SaveLink emptyRepo t0 Background linkA))))).

(** ** Upsert (C3) *)

(** C3. Saving the same (userID, url) pair twice leaves one entry under
    the key of the pair; that entry holds the serialization of the
    second record, timestamp set as [SaveLink] sets it; the second save
    adds no entry and changes no entry of another key; and
    [generateLinkKey] gives the key of the pair to that pair alone. *)
Theorem SaveLink_upsert (r r1 r2 : BadgerRepository) (now1 now2 : time.Time)
    (ctx1 ctx2 : Context) (l1 l2 : Link) :
  RepoOK r ->
  UserID l1 = UserID l2 -> URL l1 = URL l2 ->
  SaveLink r now1 ctx1 l1 = (r1, None) ->
  SaveLink r1 now2 ctx2 l2 = (r2, None) ->
  let key := generateLinkKey (UserID l2) (URL l2) in
  exists bytes2,
    json.Marshal (ensureTimestamp now2 l2) = ok bytes2 /\
    filter (fun e => String.eqb (fst e) key) (entries r2) = [(key, bytes2)] /\
    List.length (entries r2) = List.length (entries r1) /\
    (forall k, k <> key -> badger.get k (entries r2) = badger.get k (entries r1)) /\
    (forall userID linkURL,
        generateLinkKey userID linkURL = key <->
        userID = UserID l2 /\ linkURL = URL l2).
Proof.
  intros Hok Hu Hl H1 H2 key.
  rewrite SaveLink_cases in H1, H2. cbv zeta in H1, H2.
  destruct (json.Marshal (ensureTimestamp now1 l1)) as [b1|]; [|discriminate].
  destruct (json.Marshal (ensureTimestamp now2 l2)) as [b2|]; [|discriminate].
  destruct (badger.isClosed (db r)); [discriminate|].
  injection H1 as <-. simpl in H2. injection H2 as <-.
  unfold entries; simpl. fold (entries r). rewrite Hu, Hl. fold key.
  assert (Hs1 : sortedTable (badger.put key b1 (entries r)))
    by now apply put_sorted.
  exists b2. split; [reflexivity|]. split; [|split; [|split]].
  - now apply put_unique.
  - apply put_present_length; [assumption|].
    rewrite get_put, String.eqb_refl. discriminate.
  - intros k Hk. rewrite get_put.
    destruct (String.eqb_spec k key); [contradiction | reflexivity].
  - intros userID linkURL. apply generateLinkKey_inj.
Qed.

Lemma SaveLink_upsert_witness :
  exists bytes2,
    json.Marshal (ensureTimestamp t1 linkA') = ok bytes2 /\
    filter (fun e => String.eqb (fst e) (generateLinkKey 1 "https://a.com"))
      (entries (fst (SaveLink (fst (SaveLink emptyRepo t0 Background linkA))
                       t1 Background linkA')))
    = [(generateLinkKey 1 "https://a.com", bytes2)] /\
    List.length (entries (fst (SaveLink (fst (SaveLink emptyRepo t0 Background linkA))
                                 t1 Background linkA')))
    = List.length (entries (fst (SaveLink emptyRepo t0 Background linkA))) /\
    (forall k, k <> generateLinkKey 1 "https://a.com" ->
       badger.get k (entries (fst (SaveLink (fst (SaveLink emptyRepo t0 Background linkA))
                                     t1 Background linkA')))
       = badger.get k (entries (fst (SaveLink emptyRepo t0 Background linkA)))) /\
    (forall userID linkURL,
        generateLinkKey userID linkURL = generateLinkKey 1 "https://a.com" <->
        userID = 1 /\ linkURL = "https://a.com"%string).
Proof.
  apply (SaveLink_upsert emptyRepo _ _ t0 t1 Background Background linkA linkA').
  - exact NewBadgerRepository_OK.
  - reflexivity.
  - reflexivity.
  - vm_compute. reflexivity.
  - vm_compute. reflexivity.
Defined.

(** ** The timestamp of a saved link (C7) *)

(** C7. When [SaveLink] succeeds, the entry under the key of the link
    holds the serialization of a record that is the caller's record but
    for the timestamp: the reading of the clock when the caller's
    timestamp is the zero value (a reading that is not zero itself), the
    caller's timestamp when it is not. *)
Theorem SaveLink_timestamp (r r' : BadgerRepository) (now : time.Time)
    (ctx : Context) (link : Link) :
  SaveLink r now ctx link = (r', None) ->
  exists stored linkBytes,
    json.Marshal stored = ok linkBytes /\
    badger.get (generateLinkKey (UserID link) (URL link)) (entries r')
    = Some linkBytes /\
    (URL stored, Title stored, Description stored, UserID stored,
     Tags stored, Read stored, PreviewImageURL stored)
    = (URL link, Title link, Description link, UserID link,
       Tags link, Read link, PreviewImageURL link) /\
    (time.IsZero (Timestamp link) = true -> Timestamp stored = now) /\
    (time.IsZero (Timestamp link) = false -> Timestamp stored = Timestamp link) /\
    (time.IsZero now = false -> time.IsZero (Timestamp stored) = false).
Proof.
  intros H. rewrite SaveLink_cases in H. cbv zeta in H.
  destruct (json.Marshal (ensureTimestamp now link)) as [b|] eqn:Hm;
    [|discriminate].
  destruct (badger.isClosed (db r)); [discriminate|].
  injection H as <-.
  exists (ensureTimestamp now link), b. split; [assumption|].
  split; [unfold entries; simpl; now rewrite get_put, String.eqb_refl|].
  unfold ensureTimestamp.
  destruct (time.IsZero (Timestamp link)) eqn:Hz; simpl;
    repeat split; congruence.
Qed.

Lemma SaveLink_timestamp_witness :
  exists stored linkBytes,
    json.Marshal stored = ok linkBytes /\
    badger.get (generateLinkKey (UserID linkA') (URL linkA'))
      (entries (fst (SaveLink emptyRepo t1 Background linkA')))
    = Some linkBytes /\
    (URL stored, Title stored, Description stored, UserID stored,
     Tags stored, Read stored, PreviewImageURL stored)
    = (URL linkA', Title linkA', Description linkA', UserID linkA',
       Tags linkA', Read linkA', PreviewImageURL linkA') /\
    (time.IsZero (Timestamp linkA') = true -> Timestamp stored = t1) /\
    (time.IsZero (Timestamp linkA') = false -> Timestamp stored = Timestamp linkA') /\
    (time.IsZero t1 = false -> time.IsZero (Timestamp stored) = false).
Proof.
  apply (SaveLink_timestamp emptyRepo _ t1 Background linkA').
  vm_compute. reflexivity.
Defined.

(** ** Idempotent delete (C6) *)

Section Delete.

Variable sort_Slice : list Link -> (Link -> Link -> bool) -> list Link.

(** C6. On an open store, deleting a pair that has no entry returns no
    error and leaves the repository as it is; and deleting a pair twice
    in a row returns no error either time, the second call leaving the
    repository, and so what [GetLinksByUser] returns for every user, as
    the first call left it. *)
Theorem DeleteLink_idempotent (r : BadgerRepository) (ctx ctx' : Context)
    (userID : Z) (linkURL : string) :
  isOpen r ->
  (badger.get (generateLinkKey userID linkURL) (entries r) = None ->
   DeleteLink r ctx userID linkURL = (r, None)) /\
  (let r1 := fst (DeleteLink r ctx userID linkURL) in
   let r2 := fst (DeleteLink r1 ctx' userID linkURL) in
   snd (DeleteLink r ctx userID linkURL) = None /\
   snd (DeleteLink r1 ctx' userID linkURL) = None /\
   r2 = r1 /\
   badger.get (generateLinkKey userID linkURL) (entries r1) = None /\
   forall c u, GetLinksByUser sort_Slice r2 c u = GetLinksByUser sort_Slice r1 c u).
Proof.
  unfold isOpen. intros Hopen. rewrite !DeleteLink_cases, Hopen.
  split.
  - intros Hg. destruct r as [[c t]]. unfold entries in *. simpl in *.
    subst c. now rewrite remove_absent.
  - cbv zeta. simpl. unfold entries; simpl. rewrite remove_idempotent.
    repeat split; try reflexivity.
    rewrite get_remove. now rewrite String.eqb_refl.
Qed.

End Delete.

Lemma DeleteLink_idempotent_witness :
  (badger.get (generateLinkKey 1 "https://a.com") (entries repoABC) = None ->
   DeleteLink repoABC Background 1 "https://a.com" = (repoABC, None)) /\
  (let r1 := fst (DeleteLink repoABC Background 1 "https://a.com") in
   let r2 := fst (DeleteLink r1 Background 1 "https://a.com") in
   snd (DeleteLink repoABC Background 1 "https://a.com") = None /\
   snd (DeleteLink r1 Background 1 "https://a.com") = None /\
   r2 = r1 /\
   badger.get (generateLinkKey 1 "https://a.com") (entries r1) = None /\
   forall c u, GetLinksByUser insertionSort r2 c u = GetLinksByUser insertionSort r1 c u).
Proof.
  apply (DeleteLink_idempotent insertionSort repoABC Background Background 1
           "https://a.com").
  vm_compute. reflexivity.
Defined.

(** ** Contexts (C5) *)

(** C5, as the code has it.  The operations take a context and never
    consult it: a cancelled context and one past its deadline give the
    result and the repository that a live context gives. *)
Theorem operations_ignore_context
    (sort_Slice : list Link -> (Link -> Link -> bool) -> list Link)
    (r : BadgerRepository) (now : time.Time) (ctx ctx' : Context)
    (link : Link) (userID : Z) (linkURL : string) :
  SaveLink r now ctx link = SaveLink r now ctx' link /\
  GetLinksByUser sort_Slice r ctx userID = GetLinksByUser sort_Slice r ctx' userID /\
  DeleteLink r ctx userID linkURL = DeleteLink r ctx' userID linkURL.
Proof. repeat split; reflexivity. Qed.

(** Against C5 as stated: called with a context that is already
    cancelled, [SaveLink] writes the entry and returns no error,
    [GetLinksByUser] returns the links and no error, and [DeleteLink]
    deletes and returns no error. *)
Lemma cancelled_context_not_observed :
  snd (SaveLink emptyRepo t0 cancelled linkA) = None /\
  entries (fst (SaveLink emptyRepo t0 cancelled linkA)) <> [] /\
  GetLinksByUser insertionSort repoABC cancelled 1
  = ([linkC; linkB; linkA], None) /\
  snd (DeleteLink repoABC expired 1 "https://a.com") = None /\
  badger.get (generateLinkKey 1 "https://a.com")
    (entries (fst (DeleteLink repoABC expired 1 "https://a.com"))) = None /\
  badger.get (generateLinkKey 1 "https://a.com") (entries repoABC) <> None.
Proof.
  vm_compute. repeat split; try reflexivity; discriminate.
Qed.

(** ** The closed store (C8) *)

Lemma GetLinksByUser_closed
    (sort_Slice : list Link -> (Link -> Link -> bool) -> list Link)
    (r : BadgerRepository) (ctx : Context) (userID : Z) :
  badger.isClosed (db r) = true ->
  GetLinksByUser sort_Slice r ctx userID
  = ([], Some (Errorf ("failed to get links for user " ++ strconv.FormatInt userID)
                 ErrDBClosed)).
Proof.
  intros H. unfold GetLinksByUser, badger.View. now rewrite H.
Qed.

(** C8, as the code has it.  The engine is open or closed; [Close]
    returns no error and leaves it closed with the entries it had, and
    no run of operations opens it again or changes an entry.  On the
    closed store [GetLinksByUser] and [DeleteLink] return an error that
    wraps [ErrDBClosed]; [SaveLink] does so when the link can be
    serialized, and returns the error of the serialization, which it
    attempts first, when it cannot.  No call changes the repository. *)
Theorem closed_store_fails
    (sort_Slice : list Link -> (Link -> Link -> bool) -> list Link)
    (r : BadgerRepository) (now : time.Time) (ctx : Context) (link : Link)
    (userID : Z) (linkURL : string) :
  let rc := fst (Close r) in
  snd (Close r) = None /\
  badger.isClosed (db rc) = true /\
  entries rc = entries r /\
  (forall ops,
      badger.isClosed (db (run ops rc)) = true /\ entries (run ops rc) = entries r) /\
  (exists e,
      GetLinksByUser sort_Slice rc ctx userID = ([], Some e) /\
      errors_Is e ErrDBClosed) /\
  (exists e,
      DeleteLink rc ctx userID linkURL = (rc, Some e) /\ errors_Is e ErrDBClosed) /\
  (exists e,
      SaveLink rc now ctx link = (rc, Some e) /\
      match json.Marshal (ensureTimestamp now link) with
      | ok _ => errors_Is e ErrDBClosed
      | fail err => e = Errorf "failed to marshal link" err
      end).
Proof.
  cbv zeta. destruct r as [[c t]]. unfold Close, entries. simpl.
  set (rc := {| db := {| badger.isClosed := true; badger.table := t |} |}).
  assert (Hrun : forall ops r0,
             badger.isClosed (db r0) = true ->
             badger.isClosed (db (run ops r0)) = true /\
             badger.table (db (run ops r0)) = badger.table (db r0)).
  { induction ops as [|o ops IH]; intros r0 H0; simpl; [tauto|].
    destruct (IH (perform r0 o) (perform_closed r0 o H0)) as [H1 H2].
    split; [assumption|]. rewrite H2.
    destruct o as [now' ctx' link'|ctx' u url|]; simpl.
    - rewrite SaveLink_cases. cbv zeta. rewrite H0.
      now destruct (json.Marshal _).
    - rewrite DeleteLink_cases. now rewrite H0.
    - reflexivity. }
  repeat split.
  - apply (Hrun ops rc). reflexivity.
  - apply (Hrun ops rc). reflexivity.
  - eexists. split; [now apply GetLinksByUser_closed|]. simpl. tauto.
  - eexists. rewrite DeleteLink_cases. simpl. split; [reflexivity|].
    simpl. tauto.
  - rewrite SaveLink_cases. cbv zeta. simpl.
    destruct (json.Marshal (ensureTimestamp now link)).
    + eexists. split; [reflexivity|]. simpl. tauto.
    + eexists. split; reflexivity.
Qed.

(** Against C8 as stated: on the closed store, [SaveLink] with a link
    whose timestamp cannot be serialized returns the error of the
    serialization, which does not wrap [ErrDBClosed]. *)
Lemma closed_store_marshal_error :
  SaveLink (fst (Close emptyRepo)) t0 Background linkFar
  = (fst (Close emptyRepo),
     Some (Errorf "failed to marshal link" (MarshalerError "time.Time"))) /\
  ~ errors_Is (Errorf "failed to marshal link" (MarshalerError "time.Time"))
      ErrDBClosed.
Proof.
  split; [vm_compute; reflexivity|].
  simpl. intros [H|[H|[]]]; discriminate.
Qed.

(** ** Fail-fast decoding (C4) *)

Lemma GetLinksByUser_open
    (sort_Slice : list Link -> (Link -> Link -> bool) -> list Link)
    (r : BadgerRepository) (ctx : Context) (userID : Z) :
  RepoOK r -> isOpen r ->
  GetLinksByUser sort_Slice r ctx userID =
  match scanLinks (generateUserPrefix userID)
          (filter (hasPrefix (generateUserPrefix userID)) (entries r)) [] with
  | (_, Some e) =>
    ([], Some (Errorf ("failed to get links for user " ++ strconv.FormatInt userID) e))
  | (links, None) => (sort_Slice links newerFirst, None)
  end.
Proof.
  unfold RepoOK, isOpen, entries. intros Hs Ho.
  unfold GetLinksByUser, badger.View. rewrite Ho.
  rewrite Seek_scanLinks by assumption.
  now destruct (scanLinks _ _ _) as [links [e|]].
Qed.

(** Whether the value of an entry can be decoded. *)
Definition decodes_dec (e : badger.Entry) : bool :=
  match json.Unmarshal (snd e) with
  | ok _ => true
  | fail _ => false
  end.

Section FailFast.

Variable sort_Slice : list Link -> (Link -> Link -> bool) -> list Link.

(** C4. On an open store, when one of the values under the prefix of
    the user cannot be decoded, [GetLinksByUser] returns a nil slice and
    an error, the one of the first such value in key order, wrapped; when
    every value can be decoded it returns no error, and the links are
    the decoded values, sorted. *)
Theorem GetLinksByUser_fail_fast (r : BadgerRepository) (ctx : Context)
    (userID : Z) :
  RepoOK r -> isOpen r ->
  let mine := filter (hasPrefix (generateUserPrefix userID)) (entries r) in
  (Exists (fun e => ~ decodes e) mine ->
   exists e err,
     In e mine /\ json.Unmarshal (snd e) = fail err /\
     GetLinksByUser sort_Slice r ctx userID
     = ([], Some (Errorf ("failed to get links for user "
                          ++ strconv.FormatInt userID)
                    (Errorf ("failed to unmarshal link data for key " ++ fst e)
                       err)))) /\
  (Forall decodes mine ->
   GetLinksByUser sort_Slice r ctx userID
   = (sort_Slice (map decoded mine) newerFirst, None)).
Proof.
  intros Hok Hopen mine.
  assert (Hp : Forall (fun e => hasPrefix (generateUserPrefix userID) e = true) mine).
  { apply Forall_forall. intros e He. now apply filter_In in He. }
  rewrite (GetLinksByUser_open sort_Slice r ctx userID Hok Hopen). fold mine.
  split.
  - intros Hx.
    destruct (scanLinks_fails _ _ Hp Hx []) as (links & e & err & Hin & Hf & Hs).
    exists e, err. rewrite Hs. tauto.
  - intros Hd. now rewrite (scanLinks_all _ _ Hp Hd).
Qed.

End FailFast.

Lemma repoCorrupt_OK : RepoOK repoCorrupt.
Proof.
  apply put_sorted. apply (perform_RepoOK emptyRepo (OpSave t0 Background linkA)).
  exact NewBadgerRepository_OK.
Qed.

(** The first entry of [repoCorrupt] decodes and the second does not:
    the link decoded first is not returned. *)
Example GetLinksByUser_no_partial_result :
  map decodes_dec (entries repoCorrupt) = [true; false] /\
  GetLinksByUser insertionSort repoCorrupt Background 1
  = ([], Some (Errorf "failed to get links for user 1"
                 (Errorf "failed to unmarshal link data for key user:1:link:https://b.com"
                    SyntaxError))).
Proof. vm_compute. split; reflexivity. Qed.

Lemma GetLinksByUser_fail_fast_witness :
  (Exists (fun e => ~ decodes e)
     (filter (hasPrefix (generateUserPrefix 1)) (entries repoCorrupt)) ->
   exists e err,
     In e (filter (hasPrefix (generateUserPrefix 1)) (entries repoCorrupt)) /\
     json.Unmarshal (snd e) = fail err /\
     GetLinksByUser insertionSort repoCorrupt Background 1
     = ([], Some (Errorf ("failed to get links for user " ++ strconv.FormatInt 1)
                    (Errorf ("failed to unmarshal link data for key " ++ fst e)
                       err)))) /\
  (Forall decodes (filter (hasPrefix (generateUserPrefix 1)) (entries repoCorrupt)) ->
   GetLinksByUser insertionSort repoCorrupt Background 1
   = (insertionSort
        (map decoded (filter (hasPrefix (generateUserPrefix 1)) (entries repoCorrupt)))
        newerFirst, None)).
Proof.
  apply (GetLinksByUser_fail_fast insertionSort repoCorrupt Background 1).
  - exact repoCorrupt_OK.
  - reflexivity.
Defined.

(** ** Newest first (C2) *)

(** A list sorted by a relation that is antisymmetric on its elements
    is the one sorted arrangement of its elements. *)
Lemma sorted_arrangement_unique {A : Type} (R : A -> A -> Prop) (l l' : list A) :
  (forall a b, In a l -> In b l -> R a b -> R b a -> a = b) ->
  StronglySorted R l -> StronglySorted R l' -> Permutation l l' -> l = l'.
Proof.
  revert l'. induction l as [|a l IH]; intros l' Hanti Hs Hs' Hp.
  - apply Permutation_nil in Hp. now subst.
  - destruct l' as [|a' l'].
    { symmetry in Hp. now apply Permutation_nil in Hp. }
    inversion Hs as [|? ? Hs1 Hall]; inversion Hs' as [|? ? Hs1' Hall']; subst.
    rewrite Forall_forall in Hall, Hall'.
    assert (Ha : In a (a' :: l')).
    { eapply Permutation_in; [exact Hp | now left]. }
    assert (Ha' : In a' (a :: l)).
    { eapply Permutation_in; [symmetry; exact Hp | now left]. }
    assert (Heq : a = a').
    { destruct Ha as [Ha|Ha]; [now symmetry|].
      destruct Ha' as [Ha'|Ha']; [assumption|].
      apply Hanti; [now left | now right | now apply Hall | now apply Hall']. }
    subst a'. f_equal. apply IH; try assumption.
    + intros x y Hx Hy. apply Hanti; now right.
    + eapply Permutation_cons_inv. exact Hp.
Qed.

(** A loop over entries that have the prefix ends without an error only
    when each of them decodes. *)
Lemma scanLinks_success (p : string) (es : list badger.Entry) :
  Forall (fun e => hasPrefix p e = true) es ->
  forall acc links,
    scanLinks p es acc = (links, None) ->
    links = acc ++ map decoded es /\ Forall decodes es.
Proof.
  induction es as [|e es IH]; simpl; intros Hp acc links H.
  - injection H as <-. now rewrite app_nil_r.
  - inversion Hp as [|? ? Hp1 Hp']; subst. unfold hasPrefix in Hp1.
    rewrite Hp1 in H.
    destruct (json.Unmarshal (snd e)) as [l0|] eqn:Hu; [|discriminate].
    destruct (IH Hp' _ _ H) as [-> Hd]. split.
    + unfold decoded at 2. rewrite Hu. now rewrite <- app_assoc.
    + constructor; [now exists l0 | assumption].
Qed.

Section NewestFirst.

Variable sort_Slice : list Link -> (Link -> Link -> bool) -> list Link.

(** The contract of [sort.Slice]: the slice keeps its elements, and is
    sorted when [less] is a strict weak ordering. *)
Hypothesis sort_Slice_Permutation :
  forall l less, Permutation (sort_Slice l less) l.
Hypothesis sort_Slice_sorted :
  forall l less, StrictWeakOrder less -> SortedBy less (sort_Slice l less).

(** C2. The links [GetLinksByUser] returns are sorted by timestamp,
    the newest first: no link is followed by a newer one.  When the
    links of the user are three links with timestamps T1 < T2 < T3, they
    come back in the order T3, T2, T1.  And the result depends on
    nothing but the entries stored: two repositories that hold the same
    value for every key return the same links in the same order, ties
    included. *)
Theorem GetLinksByUser_newest_first (r : BadgerRepository) (ctx : Context)
    (userID : Z) (links : list Link) :
  GetLinksByUser sort_Slice r ctx userID = (links, None) ->
  SortedBy newerFirst links /\
  (RepoOK r ->
   Permutation links
     (map decoded (filter (hasPrefix (generateUserPrefix userID)) (entries r)))) /\
  (forall l1 l2 l3,
      Permutation links [l1; l2; l3] ->
      time.After (Timestamp l2) (Timestamp l1) = true ->
      time.After (Timestamp l3) (Timestamp l2) = true ->
      links = [l3; l2; l1]) /\
  (forall r' ctx',
      RepoOK r -> RepoOK r' ->
      badger.isClosed (db r') = badger.isClosed (db r) ->
      (forall k, badger.get k (entries r') = badger.get k (entries r)) ->
      GetLinksByUser sort_Slice r' ctx' userID = (links, None)).
Proof.
  intros H.
  assert (Hsorted : SortedBy newerFirst links).
  { unfold GetLinksByUser in H.
    destruct (badger.View _ _ _) as [ls [e|]]; [discriminate|].
    injection H as <-. apply sort_Slice_sorted. exact newerFirst_swo. }
  split; [assumption|]. split; [|split].
  - intros Hok.
    destruct (badger.isClosed (db r)) eqn:Hc.
    { rewrite GetLinksByUser_closed in H by assumption. discriminate. }
    rewrite (GetLinksByUser_open sort_Slice r ctx userID Hok Hc) in H.
    destruct (scanLinks _ _ _) as [ls [e|]] eqn:Hs; [discriminate|].
    injection H as <-. rewrite sort_Slice_Permutation.
    apply scanLinks_success in Hs as [-> _]; [reflexivity|].
    apply Forall_forall. intros e He. now apply filter_In in He.
  - intros l1 l2 l3 Hp H21 H32.
    assert (H31 : time.After (Timestamp l3) (Timestamp l1) = true).
    { exact (swo_trans _ newerFirst_swo l3 l2 l1 H32 H21). }
    pose proof (swo_asym _ newerFirst_swo _ _ H21) as N12.
    pose proof (swo_asym _ newerFirst_swo _ _ H32) as N23.
    pose proof (swo_asym _ newerFirst_swo _ _ H31) as N13.
    unfold newerFirst in N12, N23, N13.
    apply (sorted_arrangement_unique
             (fun a b => newerFirst b a = false)); try assumption.
    + intros a b Ha Hb Hab Hba. unfold newerFirst in Hab, Hba.
      apply (Permutation_in _ Hp) in Ha, Hb. simpl in Ha, Hb.
      destruct Ha as [<-|[<-|[<-|[]]]]; destruct Hb as [<-|[<-|[<-|[]]]];
        congruence.
    + unfold newerFirst. repeat constructor; assumption.
    + rewrite Hp. rewrite (Permutation_rev [l1; l2; l3]). reflexivity.
  - intros r' ctx' Hok Hok' Hc Hget.
    assert (Hr : r' = r).
    { destruct r as [[c t]], r' as [[c' t']]. unfold RepoOK, entries in *.
      simpl in *. subst c'. f_equal. f_equal.
      now apply sortedTable_ext. }
    subst r'. exact H.
Qed.

End NewestFirst.

Lemma GetLinksByUser_newest_first_witness :
  SortedBy newerFirst [linkC; linkB; linkA] /\
  (RepoOK repoABC ->
   Permutation [linkC; linkB; linkA]
     (map decoded (filter (hasPrefix (generateUserPrefix 1)) (entries repoABC)))) /\
  (forall l1 l2 l3,
      Permutation [linkC; linkB; linkA] [l1; l2; l3] ->
      time.After (Timestamp l2) (Timestamp l1) = true ->
      time.After (Timestamp l3) (Timestamp l2) = true ->
      [linkC; linkB; linkA] = [l3; l2; l1]) /\
  (forall r' ctx',
      RepoOK repoABC -> RepoOK r' ->
      badger.isClosed (db r') = badger.isClosed (db repoABC) ->
      (forall k, badger.get k (entries r') = badger.get k (entries repoABC)) ->
      GetLinksByUser insertionSort r' ctx' 1 = ([linkC; linkB; linkA], None)).
Proof.
  apply (GetLinksByUser_newest_first insertionSort
           (@insertionSort_Permutation Link) (@insertionSort_sorted Link)
           repoABC Background 1).
  vm_compute. reflexivity.
Defined.

(** ** The caller's record (C10) *)

Lemma load_alloc_old (m : frame.Memory) (v x : Link) (a : nat) :
  frame.load m a = Some x -> frame.load (fst (frame.alloc m v)) a = Some x.
Proof.
  unfold frame.load, frame.alloc. simpl. intros H.
  rewrite nth_error_app1; [assumption|].
  apply nth_error_Some. congruence.
Qed.

Lemma load_alloc_new (m : frame.Memory) (v : Link) :
  frame.load (fst (frame.alloc m v)) (snd (frame.alloc m v)) = Some v.
Proof.
  unfold frame.load, frame.alloc. simpl.
  rewrite nth_error_app2 by lia. now rewrite Nat.sub_diag.
Qed.

Lemma load_assign_other (m : frame.Memory) (p a : nat) (v : Link) :
  a <> p -> frame.load (frame.assign m p v) a = frame.load m a.
Proof.
  unfold frame.load. revert p a.
  induction m as [|x m IH]; intros [|p] [|a] H; simpl; try reflexivity;
    try congruence.
  apply IH. congruence.
Qed.

Lemma load_assign_same (m : frame.Memory) (p : nat) (v x : Link) :
  frame.load m p = Some x -> frame.load (frame.assign m p v) p = Some v.
Proof.
  unfold frame.load. revert p.
  induction m as [|y m IH]; intros [|p]; simpl; try discriminate; auto.
Qed.

(** C10. A call of [SaveLink] on the caller's variable returns what
    [SaveLink] returns for the value of the variable, and leaves that
    variable, and every variable the caller had, with the value it held:
    the timestamp that [SaveLink] sets is written to the parameter, a
    variable of its own that holds the record as it was persisted. *)
Theorem callSaveLink_frame (m : frame.Memory) (r : BadgerRepository)
    (now : time.Time) (ctx : Context) (arg : nat) (x : Link) :
  frame.load m arg = Some x ->
  exists m' p r' err,
    frame.callSaveLink m r now ctx arg = Some (m', p, r', err) /\
    (r', err) = SaveLink r now ctx x /\
    frame.load m' arg = Some x /\
    (forall a y, frame.load m a = Some y -> frame.load m' a = Some y) /\
    p <> arg /\
    frame.load m' p = Some (ensureTimestamp now x).
Proof.
  intros Hx. unfold frame.callSaveLink. rewrite Hx.
  pose proof (load_alloc_new m x) as Hnew.
  assert (Hp : snd (frame.alloc m x) <> arg).
  { unfold frame.alloc. simpl. unfold frame.load in Hx.
    assert (arg < List.length m)%nat by (apply nth_error_Some; congruence). lia. }
  destruct (frame.alloc m x) as [m1 p] eqn:Ha. simpl in Hnew, Hp.
  assert (Hold : forall a y, frame.load m a = Some y -> frame.load m1 a = Some y).
  { intros a y Hy. pose proof (load_alloc_old m x y a Hy) as H.
    now rewrite Ha in H. }
  assert (Hfresh : forall a y, frame.load m a = Some y -> a <> p).
  { intros a y Hy. unfold frame.alloc in Ha. injection Ha as _ <-.
    unfold frame.load in Hy.
    assert (a < List.length m)%nat by (apply nth_error_Some; congruence). lia. }
  assert (H2 : frame.load (frame.ensureTimestampAt m1 p now) p
               = Some (ensureTimestamp now x)).
  { unfold frame.ensureTimestampAt, ensureTimestamp. rewrite Hnew.
    destruct (time.IsZero (Timestamp x)); [|assumption].
    eapply load_assign_same. exact Hnew. }
  assert (H3 : forall a y, frame.load m a = Some y ->
                           frame.load (frame.ensureTimestampAt m1 p now) a = Some y).
  { intros a y Hy. unfold frame.ensureTimestampAt. rewrite Hnew.
    destruct (time.IsZero (Timestamp x)); [|auto].
    rewrite load_assign_other; [auto | eauto]. }
  rewrite H2.
  unfold SaveLink.
  destruct (persistLink r (ensureTimestamp now x)) as [r' err].
  exists (frame.ensureTimestampAt m1 p now), p, r', err.
  repeat split; auto.
Qed.

Lemma callSaveLink_frame_witness :
  exists m' p r' err,
    frame.callSaveLink [linkB; linkA'] emptyRepo t1 Background 1 = Some (m', p, r', err) /\
    (r', err) = SaveLink emptyRepo t1 Background linkA' /\
    frame.load m' 1 = Some linkA' /\
    (forall a y, frame.load [linkB; linkA'] a = Some y -> frame.load m' a = Some y) /\
    p <> 1%nat /\
    frame.load m' p = Some (ensureTimestamp t1 linkA').
Proof.
  apply (callSaveLink_frame [linkB; linkA'] emptyRepo t1 Background 1 linkA').
  reflexivity.
Defined.

(** ** Bytes and bits *)

Lemma byte_val_range (c : ascii) : 0 <= byte_val c < 256.
Proof.
  unfold byte_val. pose proof (N_ascii_bounded c). lia.
Qed.

Lemma byte_of_val (c : ascii) : byte_of (byte_val c) = c.
Proof.
  unfold byte_of, byte_val. rewrite N2Z.id. apply ascii_N_embedding.
Qed.

Lemma byte_val_of (z : Z) : 0 <= z < 256 -> byte_val (byte_of z) = z.
Proof.
  intros H. unfold byte_of, byte_val.
  rewrite N_ascii_embedding by lia. lia.
Qed.

Lemma byte_val_inj (a b : ascii) : byte_val a = byte_val b -> a = b.
Proof.
  intros H. rewrite <- (byte_of_val a), <- (byte_of_val b). now rewrite H.
Qed.

(** Bits joined by [lor] that do not overlap add up. *)
Lemma land_shiftl_low (hi lo n : Z) :
  0 <= n -> 0 <= lo < 2 ^ n -> Z.land (hi * 2 ^ n) lo = 0.
Proof.
  intros Hn Hlo. apply Z.bits_inj'. intros i Hi.
  rewrite Z.land_spec, Z.bits_0.
  destruct (Z.lt_ge_cases i n) as [Hlt|Hge].
  - now rewrite Z.mul_pow2_bits_low.
  - rewrite andb_comm.
    destruct (Z.eq_dec lo 0) as [->|Hne]; [now rewrite Z.bits_0|].
    rewrite (Z.bits_above_log2 lo i); [reflexivity | lia |].
    apply Z.log2_lt_pow2; [lia|].
    pose proof (Z.pow_le_mono_r 2 n i). lia.
Qed.

Lemma lor_shiftl_add (hi lo n : Z) :
  0 <= n -> 0 <= lo < 2 ^ n ->
  Z.lor (Z.shiftl hi n) lo = hi * 2 ^ n + lo.
Proof.
  intros Hn Hlo.
  rewrite Z.shiftl_mul_pow2 by assumption.
  rewrite <- Z.lxor_lor by now apply land_shiftl_low.
  symmetry. apply Z.add_nocarry_lxor. now apply land_shiftl_low.
Qed.

Lemma lor_const_add (k lo n : Z) :
  0 <= n -> 0 <= lo < 2 ^ n -> k mod 2 ^ n = 0 ->
  Z.lor k lo = k + lo.
Proof.
  intros Hn Hlo Hk.
  assert (Hk' : k = Z.shiftl (k / 2 ^ n) n).
  { rewrite Z.shiftl_mul_pow2 by assumption.
    pose proof (Z.div_mod k (2 ^ n)). lia. }
  rewrite Hk' at 1. rewrite lor_shiftl_add by assumption.
  pose proof (Z.div_mod k (2 ^ n)). lia.
Qed.

Lemma land_low (x n : Z) : 0 <= n -> Z.land x (2 ^ n - 1) = x mod 2 ^ n.
Proof.
  intros Hn. rewrite <- Z.land_ones by assumption.
  f_equal. rewrite Z.ones_equiv. lia.
Qed.

(** ** UTF-8 *)

Ltac zlia := Z.to_euclidean_division_equations; lia.

Lemma land_3F (x : Z) : Z.land x 0x3F = x mod 64.
Proof. exact (land_low x 6 ltac:(lia)). Qed.

Lemma land_1F (x : Z) : Z.land x 0x1F = x mod 32.
Proof. exact (land_low x 5 ltac:(lia)). Qed.

Lemma land_0F (x : Z) : Z.land x 0x0F = x mod 16.
Proof. exact (land_low x 4 ltac:(lia)). Qed.

Lemma land_07 (x : Z) : Z.land x 0x07 = x mod 8.
Proof. exact (land_low x 3 ltac:(lia)). Qed.

Lemma shiftr_6 (x : Z) : Z.shiftr x 6 = x / 64.
Proof. now rewrite Z.shiftr_div_pow2. Qed.

Lemma shiftr_12 (x : Z) : Z.shiftr x 12 = x / 4096.
Proof. now rewrite Z.shiftr_div_pow2. Qed.

Lemma shiftr_18 (x : Z) : Z.shiftr x 18 = x / 262144.
Proof. now rewrite Z.shiftr_div_pow2. Qed.

Lemma lor_6 (hi lo : Z) : 0 <= lo < 64 -> Z.lor (Z.shiftl hi 6) lo = hi * 64 + lo.
Proof. intros H. now rewrite lor_shiftl_add. Qed.

Lemma lor_12 (hi lo : Z) :
  0 <= lo < 4096 -> Z.lor (Z.shiftl hi 12) lo = hi * 4096 + lo.
Proof. intros H. now rewrite lor_shiftl_add. Qed.

Lemma lor_18 (hi lo : Z) :
  0 <= lo < 262144 -> Z.lor (Z.shiftl hi 18) lo = hi * 262144 + lo.
Proof. intros H. now rewrite lor_shiftl_add. Qed.

Lemma lor_80 (q : Z) : 0 <= q < 64 -> Z.lor 0x80 q = 0x80 + q.
Proof. intros H. now apply (lor_const_add 0x80 q 6). Qed.

Lemma lor_C0 (q : Z) : 0 <= q < 64 -> Z.lor 0xC0 q = 0xC0 + q.
Proof. intros H. now apply (lor_const_add 0xC0 q 6). Qed.

Lemma lor_E0 (q : Z) : 0 <= q < 16 -> Z.lor 0xE0 q = 0xE0 + q.
Proof. intros H. now apply (lor_const_add 0xE0 q 4). Qed.

Lemma lor_F0 (q : Z) : 0 <= q < 8 -> Z.lor 0xF0 q = 0xF0 + q.
Proof. intros H. now apply (lor_const_add 0xF0 q 3). Qed.

(** [EncodeRune] by the size of the encoding. *)
Lemma EncodeRune_2 (r : Z) (c0 c1 : ascii) :
  0x80 <= r <= 0x7FF ->
  byte_val c0 = 0xC0 + r / 64 -> byte_val c1 = 0x80 + r mod 64 ->
  utf8.EncodeRune r = String c0 (String c1 EmptyString).
Proof.
  intros Hr H0 H1. unfold utf8.EncodeRune.
  replace ((0 <=? r) && (r <=? 0x7F)) with false
    by (symmetry; apply andb_false_iff; right; apply Z.leb_gt; lia).
  replace ((0 <=? r) && (r <=? 0x7FF)) with true
    by (symmetry; apply andb_true_iff; split; apply Z.leb_le; lia).
  rewrite shiftr_6, land_3F, lor_C0, lor_80 by zlia.
  now rewrite <- H0, <- H1, !byte_of_val.
Qed.

Lemma EncodeRune_3 (r : Z) (c0 c1 c2 : ascii) :
  0x800 <= r <= 0xFFFF -> ~ (0xD800 <= r <= 0xDFFF) ->
  byte_val c0 = 0xE0 + r / 4096 ->
  byte_val c1 = 0x80 + (r / 64) mod 64 ->
  byte_val c2 = 0x80 + r mod 64 ->
  utf8.EncodeRune r = String c0 (String c1 (String c2 EmptyString)).
Proof.
  intros Hr Hs H0 H1 H2. unfold utf8.EncodeRune.
  replace ((0 <=? r) && (r <=? 0x7F)) with false
    by (symmetry; apply andb_false_iff; right; apply Z.leb_gt; lia).
  replace ((0 <=? r) && (r <=? 0x7FF)) with false
    by (symmetry; apply andb_false_iff; right; apply Z.leb_gt; lia).
  replace ((r <? 0) || (utf8.MaxRune <? r)
           || ((utf8.surrogateMin <=? r) && (r <=? utf8.surrogateMax)))
    with false.
  2:{ symmetry. unfold utf8.MaxRune, utf8.surrogateMin, utf8.surrogateMax.
      rewrite !orb_false_iff, andb_false_iff, !Z.ltb_ge, !Z.leb_gt. lia. }
  replace (r <=? 0xFFFF) with true by (symmetry; apply Z.leb_le; lia).
  unfold utf8.encode3.
  rewrite shiftr_6, shiftr_12, !land_3F, lor_E0, !lor_80 by zlia.
  now rewrite <- H0, <- H1, <- H2, !byte_of_val.
Qed.

Lemma EncodeRune_4 (r : Z) (c0 c1 c2 c3 : ascii) :
  0x10000 <= r <= 0x10FFFF ->
  byte_val c0 = 0xF0 + r / 262144 ->
  byte_val c1 = 0x80 + (r / 4096) mod 64 ->
  byte_val c2 = 0x80 + (r / 64) mod 64 ->
  byte_val c3 = 0x80 + r mod 64 ->
  utf8.EncodeRune r = String c0 (String c1 (String c2 (String c3 EmptyString))).
Proof.
  intros Hr H0 H1 H2 H3. unfold utf8.EncodeRune.
  replace ((0 <=? r) && (r <=? 0x7F)) with false
    by (symmetry; apply andb_false_iff; right; apply Z.leb_gt; lia).
  replace ((0 <=? r) && (r <=? 0x7FF)) with false
    by (symmetry; apply andb_false_iff; right; apply Z.leb_gt; lia).
  replace ((r <? 0) || (utf8.MaxRune <? r)
           || ((utf8.surrogateMin <=? r) && (r <=? utf8.surrogateMax)))
    with false.
  2:{ symmetry. unfold utf8.MaxRune, utf8.surrogateMin, utf8.surrogateMax.
      rewrite !orb_false_iff, andb_false_iff, !Z.ltb_ge, !Z.leb_gt. lia. }
  replace (r <=? 0xFFFF) with false by (symmetry; apply Z.leb_gt; lia).
  rewrite shiftr_6, shiftr_12, shiftr_18, !land_3F, lor_F0, !lor_80 by zlia.
  now rewrite <- H0, <- H1, <- H2, <- H3, !byte_of_val.
Qed.

Lemma first_cases (x : Z) (sz : nat) (lo hi : Z) :
  utf8.first x = Some (sz, lo, hi) ->
  0x80 <= lo /\ hi <= 0xBF /\
  ((sz = 2%nat /\ 0xC2 <= x <= 0xDF) \/
   (sz = 3%nat /\ 0xE0 <= x <= 0xEF /\
    (x = 0xE0 -> lo = 0xA0) /\ (x = 0xED -> hi = 0x9F)) \/
   (sz = 4%nat /\ 0xF0 <= x <= 0xF4 /\
    (x = 0xF0 -> lo = 0x90) /\ (x = 0xF4 -> hi = 0x8F))).
Proof.
  unfold utf8.first.
  repeat match goal with
         | |- context [if ?a <? ?b then _ else _] => destruct (Z.ltb_spec a b)
         | |- context [if ?a =? ?b then _ else _] => destruct (Z.eqb_spec a b)
         end; intros [= <- <- <-]; lia.
Qed.

(** A byte of a multi-byte encoding. *)
Definition highByte (c : ascii) : bool := 0x80 <=? byte_val c.

(** What [DecodeRuneInString] has found when it reports no error at a
    byte that is not ASCII: an encoding of two to four bytes, all
    high, that [EncodeRune] writes for the rune and that decodes to the
    rune whatever follows it. *)
Lemma DecodeRune_multibyte (c0 : ascii) (t : string) (r : Z) (size : nat) :
  0x80 <= byte_val c0 ->
  utf8.DecodeRuneInString (String c0 t) = (r, size) ->
  ~ (r = utf8.RuneError /\ size = 1%nat) ->
  exists body rest,
    String c0 t = append body rest /\
    String.length body = size /\ (2 <= size)%nat /\
    utf8.EncodeRune r = body /\
    string_all highByte body = true /\
    (forall X, utf8.DecodeRuneInString (append body X) = (r, size)).
Proof.
  intros H0 Hd Hv. unfold utf8.DecodeRuneInString in Hd.
  pose proof (byte_val_range c0) as R0.
  destruct (Z.ltb_spec (byte_val c0) utf8.RuneSelf) as [Hlt|_];
    [unfold utf8.RuneSelf in Hlt; lia|].
  destruct (utf8.first (byte_val c0)) as [[[sz lo] hi]|] eqn:Hf;
    [|injection Hd as <- <-; tauto].
  destruct (first_cases _ _ _ _ Hf) as (Hlo & Hhi & Hcases).
  destruct t as [|c1 t]; [injection Hd as <- <-; tauto|].
  pose proof (byte_val_range c1) as R1.
  destruct ((lo <=? byte_val c1) && (byte_val c1 <=? hi)) eqn:H1;
    [|injection Hd as <- <-; tauto].
  apply andb_prop in H1 as [H1a H1b]. apply Z.leb_le in H1a, H1b.
  cbn [negb] in Hd.
  destruct Hcases as [(-> & Hx)|[(-> & Hx & HE0 & HED)|(-> & Hx & HF0 & HF4)]];
    cbn [Nat.leb] in Hd.
  - (* two bytes *)
    apply pair_equal_spec in Hd as [<- <-].
    rewrite land_1F, land_3F, lor_6 by zlia.
    exists (String c0 (String c1 EmptyString)), t.
    repeat split; try reflexivity; try (clear; lia).
    + apply EncodeRune_2; zlia.
    + unfold highByte. simpl. rewrite !andb_true_r.
      apply andb_true_iff; split; apply Z.leb_le; lia.
    + intros X. cbn [append]. unfold utf8.DecodeRuneInString.
      destruct (Z.ltb_spec (byte_val c0) utf8.RuneSelf) as [Hlt|_];
        [unfold utf8.RuneSelf in Hlt; lia|].
      rewrite Hf.
      replace ((lo <=? byte_val c1) && (byte_val c1 <=? hi)) with true
        by (symmetry; apply andb_true_iff; split; apply Z.leb_le; lia).
      cbn [negb Nat.leb append]. now rewrite land_1F, land_3F, lor_6 by zlia.
  - (* three bytes *)
    destruct t as [|c2 t]; [injection Hd as <- <-; tauto|].
    pose proof (byte_val_range c2) as R2.
    destruct (utf8.cont (byte_val c2)) eqn:H2;
      [|injection Hd as <- <-; tauto].
    cbn [negb Nat.leb] in Hd. apply pair_equal_spec in Hd as [<- <-].
    unfold utf8.cont in H2. apply andb_prop in H2 as [H2a H2b].
    apply Z.leb_le in H2a, H2b.
    rewrite land_0F, !land_3F, lor_6, lor_12 by zlia.
    exists (String c0 (String c1 (String c2 EmptyString))), t.
    repeat split; try reflexivity; try (clear; lia).
    + apply EncodeRune_3; zlia.
    + unfold highByte. simpl. rewrite !andb_true_r.
      repeat (apply andb_true_iff; split); apply Z.leb_le; lia.
    + intros X. cbn [append]. unfold utf8.DecodeRuneInString.
      destruct (Z.ltb_spec (byte_val c0) utf8.RuneSelf) as [Hlt|_];
        [unfold utf8.RuneSelf in Hlt; lia|].
      rewrite Hf.
      replace ((lo <=? byte_val c1) && (byte_val c1 <=? hi)) with true
        by (symmetry; apply andb_true_iff; split; apply Z.leb_le; lia).
      replace (utf8.cont (byte_val c2)) with true
        by (symmetry; apply andb_true_iff; split; apply Z.leb_le; lia).
      cbn [negb Nat.leb append]. now rewrite land_0F, !land_3F, lor_6, lor_12 by zlia.
  - (* four bytes *)
    destruct t as [|c2 t]; [injection Hd as <- <-; tauto|].
    pose proof (byte_val_range c2) as R2.
    destruct (utf8.cont (byte_val c2)) eqn:H2;
      [|injection Hd as <- <-; tauto].
    cbn [negb Nat.leb] in Hd.
    destruct t as [|c3 t]; [injection Hd as <- <-; tauto|].
    pose proof (byte_val_range c3) as R3.
    destruct (utf8.cont (byte_val c3)) eqn:H3;
      [|injection Hd as <- <-; tauto].
    cbn [negb Nat.leb] in Hd. apply pair_equal_spec in Hd as [<- <-].
    unfold utf8.cont in H2, H3.
    apply andb_prop in H2 as [H2a H2b]. apply andb_prop in H3 as [H3a H3b].
    apply Z.leb_le in H2a, H2b, H3a, H3b.
    rewrite land_07, !land_3F, lor_6, lor_12, lor_18 by zlia.
    exists (String c0 (String c1 (String c2 (String c3 EmptyString)))), t.
    repeat split; try reflexivity; try (clear; lia).
    + apply EncodeRune_4; zlia.
    + unfold highByte. simpl. rewrite !andb_true_r.
      repeat (apply andb_true_iff; split); apply Z.leb_le; lia.
    + intros X. cbn [append]. unfold utf8.DecodeRuneInString.
      destruct (Z.ltb_spec (byte_val c0) utf8.RuneSelf) as [Hlt|_];
        [unfold utf8.RuneSelf in Hlt; lia|].
      rewrite Hf.
      replace ((lo <=? byte_val c1) && (byte_val c1 <=? hi)) with true
        by (symmetry; apply andb_true_iff; split; apply Z.leb_le; lia).
      replace (utf8.cont (byte_val c2)) with true
        by (symmetry; apply andb_true_iff; split; apply Z.leb_le; lia).
      replace (utf8.cont (byte_val c3)) with true
        by (symmetry; apply andb_true_iff; split; apply Z.leb_le; lia).
      cbn [negb Nat.leb append]. now rewrite land_07, !land_3F, lor_6, lor_12, lor_18 by zlia.
Qed.

(** ** JSON strings *)

Definition app_fst (e : string) (p : string * string) : string * string :=
  (append e (fst p), snd p).

Lemma option_map_app_fst_Some (e a b : string) :
  option_map (app_fst e) (Some (a, b)) = Some (append e a, b).
Proof. reflexivity. Qed.

(** The text written for an ASCII byte. *)
Definition asciiText (c : ascii) : string :=
  if json.htmlSafeSet (byte_val c) then String c EmptyString
  else json.escapeByte c.

(** The scanner passes over the text of an ASCII byte, and [unquote]
    reads the byte back from it. *)
Lemma asciiText_read (c : ascii) :
  byte_val c < 0x80 ->
  (forall Y, json.scanString (append (asciiText c) Y)
             = option_map (app_fst (asciiText c)) (json.scanString Y)) /\
  (forall Y, json.unquote_loop 0 (append (asciiText c) Y)
             = option_map (String c) (json.unquote_loop 0 Y)).
Proof.
  destruct c as [b0 b1 b2 b3 b4 b5 b6 b7].
  destruct b7, b0, b1, b2, b3, b4, b5, b6; intros H;
    try (vm_compute in H; discriminate);
    (split; intros Y;
     [ cbn; destruct (json.scanString Y) as [[? ?]|]; reflexivity
     | cbn; destruct (json.unquote_loop 0 Y); reflexivity ]).
Qed.

Lemma drop_bytes_nil (k : nat) : drop_bytes k EmptyString = EmptyString.
Proof. now destruct k. Qed.

Lemma drop_bytes_append (a b : string) :
  drop_bytes (String.length a) (append a b) = b.
Proof. induction a; simpl; auto. Qed.

Lemma take_bytes_append (a b : string) :
  take_bytes (String.length a) (append a b) = a.
Proof. induction a; simpl; [reflexivity | now f_equal]. Qed.

Lemma length_append (a b : string) :
  String.length (append a b) = (String.length a + String.length b)%nat.
Proof. induction a; simpl; auto. Qed.

Lemma drop_bytes_length (k : nat) (s : string) :
  (String.length (drop_bytes k s) <= String.length s)%nat.
Proof.
  revert s; induction k as [|k IH]; intros [|c s]; simpl; auto.
Qed.

Lemma appendString_loop_skip (k : nat) (s : string) :
  json.appendString_loop k s = json.appendString_loop 0 (drop_bytes k s).
Proof.
  revert s; induction k as [|k IH]; intros [|c s]; try reflexivity.
  simpl. apply IH.
Qed.

Lemma unquote_loop_skip (k : nat) (s : string) :
  json.unquote_loop k s = json.unquote_loop 0 (drop_bytes k s).
Proof.
  revert s; induction k as [|k IH]; intros [|c s]; try reflexivity.
  simpl. apply IH.
Qed.

Lemma valid_from_skip (k : nat) (s : string) :
  utf8.valid_from k s = utf8.valid_from 0 (drop_bytes k s).
Proof.
  revert s; induction k as [|k IH]; intros [|c s]; try reflexivity.
  simpl. apply IH.
Qed.

(** The bytes the scanner copies: no quote, no backslash, no control
    character. *)
Lemma scanString_high (body Y : string) :
  string_all highByte body = true ->
  json.scanString (append body Y)
  = option_map (app_fst body) (json.scanString Y).
Proof.
  induction body as [|c body IH]; simpl; intros H.
  - now destruct (json.scanString Y) as [[? ?]|].
  - apply andb_prop in H as [Hc Hb]. unfold highByte in Hc.
    apply Z.leb_le in Hc.
    destruct (Ascii.eqb_spec c dquote) as [->|_]; [vm_compute in Hc; now elim Hc|].
    destruct (Ascii.eqb_spec c bslash) as [->|_]; [vm_compute in Hc; now elim Hc|].
    destruct (Z.ltb_spec (byte_val c) 0x20) as [Hlt|_]; [lia|].
    rewrite (IH Hb). now destruct (json.scanString Y) as [[? ?]|].
Qed.

(** One step of the encoder at a byte that is not ASCII. *)
Inductive runeStep (s : string) : string -> string -> Prop :=
| step_invalid c rest :
    s = String c rest ->
    runeStep s (String bslash "ufffd") rest
| step_separator body rest r :
    s = append body rest -> string_all highByte body = true ->
    (2 <= String.length body)%nat ->
    (r = 0x2028 \/ r = 0x2029) ->
    (forall X, utf8.DecodeRuneInString (append body X) = (r, String.length body)) ->
    utf8.EncodeRune r = body ->
    runeStep s
      (String bslash (String "u" (String "2" (String "0" (String "2"
         (String (json.hexDigit (Z.land r 0xF)) EmptyString)))))) rest
| step_copy body rest r :
    s = append body rest -> string_all highByte body = true ->
    (2 <= String.length body)%nat ->
    (forall X, utf8.DecodeRuneInString (append body X) = (r, String.length body)) ->
    utf8.EncodeRune r = body ->
    runeStep s body rest.

Lemma appendString_loop_rune (c : ascii) (t : string) :
  0x80 <= byte_val c ->
  exists text rest,
    runeStep (String c t) text rest /\
    json.appendString_loop 0 (String c t)
    = append text (json.appendString_loop 0 rest) /\
    (utf8.valid_from 0 (String c t) = true ->
     text <> String bslash "ufffd" /\ utf8.valid_from 0 rest = true).
Proof.
  intros Hc. cbn [json.appendString_loop utf8.valid_from].
  destruct (Z.ltb_spec (byte_val c) utf8.RuneSelf) as [Hlt|_];
    [unfold utf8.RuneSelf in Hlt; lia|].
  destruct (utf8.DecodeRuneInString (String c t)) as [r size] eqn:Hd.
  destruct ((r =? utf8.RuneError) && (size =? 1)%nat) eqn:Hbad.
  - exists (String bslash "ufffd"), t. split; [econstructor; reflexivity|].
    split; [reflexivity | discriminate].
  - assert (Hv : ~ (r = utf8.RuneError /\ size = 1%nat)).
    { intros [-> ->]. discriminate. }
    destruct (DecodeRune_multibyte c t r size Hc Hd Hv)
      as (body & rest & Hs & Hlen & Hsz & Henc & Hhigh & Hdec).
    subst size.
    assert (Hrest : drop_bytes (String.length body - 1) t = rest).
    { destruct body as [|c' body]; [simpl in Hsz; lia|].
      simpl in Hs. injection Hs as _ ->. simpl.
      rewrite Nat.sub_0_r. apply drop_bytes_append. }
    rewrite appendString_loop_skip, valid_from_skip, Hrest.
    destruct ((r =? 0x2028) || (r =? 0x2029)) eqn:Hsep.
    + apply orb_prop in Hsep.
      exists (String bslash (String "u" (String "2" (String "0" (String "2"
                (String (json.hexDigit (Z.land r 0xF)) EmptyString)))))), rest.
      split; [|split; [reflexivity|]].
      * apply (step_separator _ body rest r); auto.
        destruct Hsep as [Hr|Hr]; apply Z.eqb_eq in Hr; auto.
      * intros Hvalid. split; [|assumption].
        destruct Hsep as [Hr|Hr]; apply Z.eqb_eq in Hr; subst r; discriminate.
    + exists body, rest. split; [|split].
      * now apply (step_copy _ body rest r).
      * rewrite Hs at 1. now rewrite take_bytes_append.
      * intros Hvalid. split; [|assumption].
        intros ->. discriminate.
Qed.

Lemma runeStep_shorter (s text rest : string) :
  runeStep s text rest -> (String.length rest < String.length s)%nat.
Proof.
  intros [c rest' ->|body rest' r -> _ Hl _ _ _|body rest' r -> _ Hl _ _];
    rewrite ?length_append; simpl; lia.
Qed.

Lemma runeStep_scan (s text rest : string) :
  runeStep s text rest ->
  forall Y, json.scanString (append text Y)
            = option_map (app_fst text) (json.scanString Y).
Proof.
  intros [c rest' ->|body rest' r -> Hh Hl Hr Hd He|body rest' r -> Hh Hl Hd He] Y.
  - cbn. now destruct (json.scanString Y) as [[? ?]|].
  - destruct Hr as [-> | ->]; cbn; now destruct (json.scanString Y) as [[? ?]|].
  - now apply scanString_high.
Qed.

Lemma unquote_loop_high (body Y : string) (r : Z) :
  string_all highByte body = true -> (2 <= String.length body)%nat ->
  (forall X, utf8.DecodeRuneInString (append body X) = (r, String.length body)) ->
  utf8.EncodeRune r = body ->
  json.unquote_loop 0 (append body Y)
  = option_map (append body) (json.unquote_loop 0 Y).
Proof.
  intros Hh Hl Hd He.
  destruct body as [|c body]; [simpl in Hl; lia|].
  simpl in Hh. apply andb_prop in Hh as [Hc _]. unfold highByte in Hc.
  apply Z.leb_le in Hc.
  change (append (String c body) Y) with (String c (append body Y)).
  cbn [json.unquote_loop].
  destruct (Ascii.eqb_spec c bslash) as [->|_]; [vm_compute in Hc; now elim Hc|].
  destruct (Ascii.eqb_spec c dquote) as [->|_]; [vm_compute in Hc; now elim Hc|].
  destruct (Z.ltb_spec (byte_val c) 32) as [Hlt|_]; [lia|].
  destruct (Z.ltb_spec (byte_val c) utf8.RuneSelf) as [Hlt|_];
    [unfold utf8.RuneSelf in Hlt; lia|].
  cbn [orb].
  change (String c (append body Y)) with (append (String c body) Y).
  rewrite Hd, He. rewrite unquote_loop_skip.
  simpl String.length. rewrite Nat.sub_succ, Nat.sub_0_r.
  now rewrite drop_bytes_append.
Qed.

Lemma runeStep_unquote (s text rest : string) :
  runeStep s text rest -> text <> String bslash "ufffd" ->
  exists body,
    s = append body rest /\
    forall Y, json.unquote_loop 0 (append text Y)
              = option_map (append body) (json.unquote_loop 0 Y).
Proof.
  intros [c rest' ->|body rest' r -> Hh Hl Hr Hd He|body rest' r -> Hh Hl Hd He] Hne.
  - now elim Hne.
  - exists body. split; [reflexivity|]. intros Y. rewrite <- He.
    destruct Hr as [-> | ->]; cbn; now destruct (json.unquote_loop 0 Y).
  - exists body. split; [reflexivity|]. intros Y.
    now apply (unquote_loop_high body Y r).
Qed.

Lemma appendString_loop_ascii (c : ascii) (t : string) :
  byte_val c < 0x80 ->
  json.appendString_loop 0 (String c t)
  = append (asciiText c) (json.appendString_loop 0 t) /\
  utf8.valid_from 0 (String c t) = utf8.valid_from 0 t.
Proof.
  intros Hc. cbn [json.appendString_loop utf8.valid_from utf8.DecodeRuneInString].
  destruct (Z.ltb_spec (byte_val c) utf8.RuneSelf) as [_|Hge];
    [|unfold utf8.RuneSelf in Hge; lia].
  split.
  - unfold asciiText. now destruct (json.htmlSafeSet (byte_val c)).
  - destruct (Z.eqb_spec (byte_val c) utf8.RuneError) as [He|_];
      [unfold utf8.RuneError in He; lia|].
    reflexivity.
Qed.

(** The scanner reads the literal the encoder writes, up to the quote
    that closes it, whatever the bytes of the string. *)
Lemma scanString_appendString (s X : string) :
  json.scanString (append (json.appendString_loop 0 s) (String dquote X))
  = Some (json.appendString_loop 0 s, X).
Proof.
  remember (String.length s) as n eqn:Hn.
  assert (Hle : (String.length s <= n)%nat) by lia. clear Hn.
  revert s Hle. induction n as [|n IH]; intros s Hle.
  - destruct s; [reflexivity | simpl in Hle; lia].
  - destruct s as [|c t]; [reflexivity|].
    destruct (Z.lt_ge_cases (byte_val c) 0x80) as [Hc|Hc].
    + destruct (appendString_loop_ascii c t Hc) as [-> _].
      rewrite append_assoc.
      rewrite (proj1 (asciiText_read c Hc)).
      rewrite IH by (simpl in Hle; lia). reflexivity.
    + destruct (appendString_loop_rune c t Hc) as (text & rest & Hstep & -> & _).
      rewrite append_assoc, (runeStep_scan _ _ _ Hstep).
      rewrite IH; [reflexivity|].
      apply runeStep_shorter in Hstep. lia.
Qed.

(** [unquote] reads back a string of valid UTF-8 from the literal the
    encoder writes for it. *)
Lemma unquote_appendString (s : string) :
  utf8.ValidString s = true ->
  json.unquote (json.appendString_loop 0 s) = Some s.
Proof.
  unfold utf8.ValidString, json.unquote.
  remember (String.length s) as n eqn:Hn.
  assert (Hle : (String.length s <= n)%nat) by lia. clear Hn.
  revert s Hle. induction n as [|n IH]; intros s Hle Hv.
  - destruct s; [reflexivity | simpl in Hle; lia].
  - destruct s as [|c t]; [reflexivity|].
    destruct (Z.lt_ge_cases (byte_val c) 0x80) as [Hc|Hc].
    + destruct (appendString_loop_ascii c t Hc) as [-> Hv'].
      rewrite Hv' in Hv.
      rewrite (proj2 (asciiText_read c Hc)).
      rewrite IH by (simpl in Hle; lia || assumption). reflexivity.
    + destruct (appendString_loop_rune c t Hc) as (text & rest & Hstep & -> & Hv').
      destruct (Hv' Hv) as [Hne Hvr].
      destruct (runeStep_unquote _ _ _ Hstep Hne) as (body & Hs & Hu).
      pose proof (Hu EmptyString) as Hu0.
      pose proof (Hu (json.appendString_loop 0 rest)) as Hu1.
      rewrite Hu1, IH; [simpl; now rewrite Hs | | assumption].
      apply runeStep_shorter in Hstep. lia.
Qed.

(** ** JSON numbers *)

Lemma append_nil_r_aux (s : string) : append s EmptyString = s.
Proof. induction s; simpl; [reflexivity | now f_equal]. Qed.

Lemma nzhead_not_D0 (d x : Decimal.uint) : Decimal.nzhead d <> Decimal.D0 x.
Proof. induction d; simpl; try discriminate; assumption. Qed.

Lemma to_uint_head (p : positive) :
  match Pos.to_uint p with
  | Decimal.Nil | Decimal.D0 _ => False
  | _ => True
  end.
Proof.
  assert (Hn : Decimal.unorm (Pos.to_uint p) = Pos.to_uint p).
  { rewrite <- (DecimalPos.Unsigned.to_of (Pos.to_uint p)).
    now rewrite DecimalPos.Unsigned.of_to. }
  pose proof (DecimalPos.Unsigned.to_uint_nonzero p) as Hz.
  destruct (Pos.to_uint p) as [|d| | | | | | | | |]; try exact I.
  - now elim (DecimalPos.Unsigned.to_uint_nonnil p).
  - unfold Decimal.unorm in Hn. simpl in Hn.
    destruct (Decimal.nzhead d) eqn:E; try discriminate.
    + injection Hn as <-. now elim Hz.
    + now elim (nzhead_not_D0 d u).
Qed.

Lemma scanDigits_uint (d : Decimal.uint) (Y : string) :
  json.scanDigits (append (NilEmpty.string_of_uint d) (String "," Y))
  = (NilEmpty.string_of_uint d, String "," Y).
Proof.
  induction d; simpl; try reflexivity;
    rewrite IHd; reflexivity.
Qed.

(** The scanner reads the decimal text of an integer as one number. *)
Lemma scanNumber_FormatInt (i : Z) (Y : string) :
  json.scanNumber (append (strconv.FormatInt i) (String "," Y))
  = Some (strconv.FormatInt i, String "," Y).
Proof.
  unfold strconv.FormatInt.
  destruct i as [|p|p]; [reflexivity| |];
    pose proof (to_uint_head p) as Hh;
    unfold Z.to_int, NilZero.string_of_int, NilZero.string_of_uint;
    destruct (Pos.to_uint p) as [|d|d|d|d|d|d|d|d|d|d]; try contradiction;
    unfold json.scanNumber; simpl; rewrite scanDigits_uint; simpl;
    rewrite ?append_nil_r_aux; reflexivity.
Qed.

(** The first byte of the decimal text is a digit or the minus sign. *)
Lemma FormatInt_head (i : Z) :
  exists c rest,
    strconv.FormatInt i = String c rest /\
    (Ascii.eqb c "-" || time.isDigit c) = true /\
    Ascii.eqb c "{" = false /\ Ascii.eqb c "[" = false /\
    Ascii.eqb c dquote = false /\ json.isSpace c = false.
Proof.
  unfold strconv.FormatInt.
  destruct i as [|p|p]; [now exists "0"%char, EmptyString| |];
    pose proof (to_uint_head p) as Hh;
    unfold Z.to_int, NilZero.string_of_int, NilZero.string_of_uint;
    destruct (Pos.to_uint p) as [|d|d|d|d|d|d|d|d|d|d]; try contradiction;
    simpl; eexists _, _; (split; [reflexivity|]); repeat split; reflexivity.
Qed.

Lemma parseValue_FormatInt (fuel : nat) (i : Z) (Y : string) :
  json.parseValue (S fuel) (append (strconv.FormatInt i) (String "," Y))
  = Some (json.JNumber (strconv.FormatInt i), String "," Y).
Proof.
  pose proof (scanNumber_FormatInt i Y) as Hs.
  destruct (FormatInt_head i) as (c & rest & Hc & H1 & H2 & H3 & H4 & H5).
  rewrite Hc in *. cbn [json.parseValue append json.skipSpace].
  rewrite H5, H2, H3, H4, H1.
  change (String c (append rest (String "," Y)))
    with (append (String c rest) (String "," Y)).
  now rewrite Hs.
Qed.

(** ** The bytes the scanner copies *)

Definition plainByte (c : ascii) : bool :=
  negb (Ascii.eqb c dquote) && negb (Ascii.eqb c bslash)
  && negb (byte_val c <? 0x20).

Lemma scanString_plain (body Y : string) :
  string_all plainByte body = true ->
  json.scanString (append body Y)
  = option_map (app_fst body) (json.scanString Y).
Proof.
  induction body as [|c body IH]; simpl; intros H.
  - now destruct (json.scanString Y) as [[? ?]|].
  - apply andb_prop in H as [Hc Hb]. unfold plainByte in Hc.
    apply andb_prop in Hc as [Hc H3]. apply andb_prop in Hc as [H1 H2].
    apply negb_true_iff in H1, H2, H3. rewrite H1, H2, H3.
    rewrite (IH Hb). now destruct (json.scanString Y) as [[? ?]|].
Qed.

Lemma scanString_plain_quote (body X : string) :
  string_all plainByte body = true ->
  json.scanString (append body (String dquote X)) = Some (body, X).
Proof.
  intros H. rewrite scanString_plain by assumption.
  cbn. unfold app_fst. simpl. now rewrite append_nil_r_aux.
Qed.

(** ** Times *)

Lemma digit_cases (d : Z) :
  0 <= d < 10 ->
  In (time.digit d) ["0"; "1"; "2"; "3"; "4"; "5"; "6"; "7"; "8"; "9"]%char.
Proof.
  intros H.
  assert (Hd : d = 0 \/ d = 1 \/ d = 2 \/ d = 3 \/ d = 4 \/ d = 5 \/ d = 6
               \/ d = 7 \/ d = 8 \/ d = 9) by lia.
  repeat (destruct Hd as [->|Hd]; [simpl; tauto|]). subst. simpl. tauto.
Qed.

Lemma digit_spec (d : Z) :
  0 <= d < 10 ->
  time.isDigit (time.digit d) = true /\ byte_val (time.digit d) - 48 = d /\
  plainByte (time.digit d) = true.
Proof.
  intros H.
  assert (Hd : d = 0 \/ d = 1 \/ d = 2 \/ d = 3 \/ d = 4 \/ d = 5 \/ d = 6
               \/ d = 7 \/ d = 8 \/ d = 9) by lia.
  repeat (destruct Hd as [->|Hd]; [repeat split; reflexivity|]).
  subst. repeat split; reflexivity.
Qed.

Lemma appendInt_append (w : nat) (x : Z) (a b : string) :
  append (time.appendInt w x a) b = time.appendInt w x (append a b).
Proof.
  revert x a; induction w as [|w IH]; intros x a; simpl; [reflexivity|].
  now rewrite IH.
Qed.

Lemma appendInt_plain (w : nat) (x : Z) (a : string) :
  string_all plainByte a = true ->
  string_all plainByte (time.appendInt w x a) = true.
Proof.
  revert x a; induction w as [|w IH]; intros x a Ha; simpl; [assumption|].
  apply IH. simpl. rewrite Ha, andb_true_r.
  apply digit_spec. zlia.
Qed.

Lemma getnum_step (w : nat) (s : string) (acc : Z) :
  time.getnum (S w) s acc =
  match time.getnum w s acc with
  | Some (v, String c s') =>
    if time.isDigit c then Some (10 * v + (byte_val c - 48), s') else None
  | _ => None
  end.
Proof.
  revert s acc; induction w as [|w IH]; intros s acc.
  - simpl. destruct s as [|c s]; [reflexivity|].
    now destruct (time.isDigit c).
  - change (time.getnum (S (S w)) s acc)
      with (match s with
            | String c s' =>
              if time.isDigit c
              then time.getnum (S w) s' (10 * acc + (byte_val c - 48))
              else None
            | EmptyString => None
            end).
    destruct s as [|c s]; [reflexivity|]. simpl time.getnum at 2.
    destruct (time.isDigit c); [apply IH | reflexivity].
Qed.

(** [getnum] reads back the digits [appendInt] writes. *)
Lemma getnum_appendInt (w : nat) (x acc : Z) (s : string) :
  0 <= x < 10 ^ Z.of_nat w ->
  time.getnum w (time.appendInt w x s) acc = Some (acc * 10 ^ Z.of_nat w + x, s).
Proof.
  revert x s; induction w as [|w IH]; intros x s Hx.
  - simpl in *. f_equal. f_equal. lia.
  - rewrite getnum_step. cbn [time.appendInt].
    rewrite Nat2Z.inj_succ, Z.pow_succ_r in * by lia.
    rewrite IH by zlia.
    destruct (digit_spec (x mod 10)) as (Hd & Hv & _); [zlia|].
    rewrite Hd, Hv. f_equal. f_equal. zlia.
Qed.

Lemma parseFraction_appendInt (w k : nat) (x acc : Z) (s : string) :
  (w <= k)%nat -> 0 <= x < 10 ^ Z.of_nat w ->
  time.parseFraction k (time.appendInt w x s) acc
  = time.parseFraction (k - w) s (acc * 10 ^ Z.of_nat w + x).
Proof.
  revert x s; induction w as [|w IH]; intros x s Hk Hx.
  - simpl in *. rewrite Nat.sub_0_r. f_equal. lia.
  - cbn [time.appendInt].
    rewrite Nat2Z.inj_succ, Z.pow_succ_r in * by lia.
    rewrite IH by (lia || zlia).
    destruct (digit_spec (x mod 10)) as (Hd & Hv & _); [zlia|].
    replace (k - w)%nat with (S (k - S w)) by lia.
    cbn [time.parseFraction]. rewrite Hd, Hv. f_equal. zlia.
Qed.

Lemma trimmedDigits_spec (w : nat) (x : Z) :
  0 < x < 10 ^ Z.of_nat w ->
  exists w' x',
    (1 <= w' <= w)%nat /\ 0 <= x' < 10 ^ Z.of_nat w' /\
    time.trimmedDigits w x = time.appendInt w' x' EmptyString /\
    x = x' * 10 ^ Z.of_nat (w - w').
Proof.
  revert x; induction w as [|w IH]; intros x Hx.
  - simpl in Hx. lia.
  - cbn [time.trimmedDigits].
    rewrite Nat2Z.inj_succ, Z.pow_succ_r in Hx by lia.
    destruct (Z.eqb_spec (x mod 10) 0) as [H0|H0].
    + destruct (IH (x / 10)) as (w' & x' & Hw & Hx' & Ht & He); [zlia|].
      exists w', x'. repeat split; try lia; try assumption.
      replace (S w - w')%nat with (S (w - w')) by lia.
      rewrite Nat2Z.inj_succ, Z.pow_succ_r by lia.
      assert (x = 10 * (x / 10)) by zlia. lia.
    + exists (S w), x. repeat split; try lia.
      * rewrite Nat2Z.inj_succ, Z.pow_succ_r by lia. lia.
      * rewrite Nat.sub_diag. simpl. lia.
Qed.

Lemma appendInt_head (w : nat) (x : Z) (s : string) :
  exists d t, time.appendInt (S w) x s = String d t /\ time.isDigit d = true.
Proof.
  revert x s; induction w as [|w IH]; intros x s.
  - simpl. eexists _, _. split; [reflexivity|]. apply digit_spec. zlia.
  - change (time.appendInt (S (S w)) x s)
      with (time.appendInt (S w) (x / 10) (String (time.digit (x mod 10)) s)).
    apply IH.
Qed.

(** The start of a zone: no digit. *)
Definition zoneStart (s : string) : Prop :=
  exists c s', s = String c s' /\ time.isDigit c = false
               /\ Ascii.eqb c "."%char = false.

Lemma parseNanoseconds_appendNano (ns : Z) (s : string) :
  0 <= ns < 10 ^ 9 -> zoneStart s ->
  time.parseNanoseconds (append (time.appendNano ns) s) = (ns, s).
Proof.
  intros Hns (c & s' & -> & Hc & Hdot). unfold time.appendNano.
  destruct (Z.eqb_spec ns 0) as [->|Hne].
  - simpl. destruct (Ascii.eqb_spec c "."%char) as [->|Hn]; [discriminate|].
    unfold time.parseNanoseconds.
    destruct c as [[] [] [] [] [] [] [] []]; try reflexivity; now elim Hn.
  - destruct (trimmedDigits_spec 9 ns) as (w' & x' & Hw & Hx' & -> & He);
      [change (Z.of_nat 9) with 9; lia|].
    destruct w' as [|w']; [lia|].
    cbn [append]. rewrite appendInt_append. cbn [append].
    assert (Hp : forall k acc,
               time.parseFraction k (String c s') acc
               = (acc * 10 ^ Z.of_nat k, String c s')).
    { intros k acc. destruct k; simpl; now rewrite Hc. }
    assert (Hfrac : time.parseFraction 9
                      (time.appendInt (S w') x' (String c s')) 0
                    = (ns, String c s')).
    { rewrite parseFraction_appendInt by (lia || assumption).
      rewrite Hp. f_equal. rewrite He. lia. }
    destruct (appendInt_head w' x' (String c s')) as (d & t & Ht & Hd).
    rewrite Ht in *. unfold time.parseNanoseconds. now rewrite Hd.
Qed.

(** A zone of whole minutes within a day. *)
Definition validOffset (offset : Z) : Prop :=
  offset mod 60 = 0 /\ -86400 < offset < 86400.

Lemma formatZone_start (offset : Z) : zoneStart (time.formatZone offset).
Proof.
  unfold time.formatZone, zoneStart.
  destruct (offset =? 0); [now exists "Z"%char, EmptyString|].
  destruct (Z.quot offset 60 <? 0); eexists _, _; repeat split; reflexivity.
Qed.

Lemma formatZone_plain (offset : Z) :
  string_all plainByte (time.formatZone offset) = true.
Proof.
  unfold time.formatZone.
  destruct (offset =? 0); [reflexivity|].
  assert (H : forall sign x y,
             plainByte sign = true ->
             string_all plainByte
               (String sign (time.appendInt 2 x
                               (String ":" (time.appendInt 2 y EmptyString))))
             = true).
  { intros sign x y Hs. cbn [string_all]. rewrite Hs. cbn [andb].
    apply appendInt_plain. cbn [string_all].
    now rewrite appendInt_plain. }
  destruct (Z.quot offset 60 <? 0); now apply H.
Qed.

Lemma parseZone_formatZone (offset : Z) :
  validOffset offset -> time.parseZone (time.formatZone offset) = Some offset.
Proof.
  intros [Hm Hr]. unfold time.formatZone.
  destruct (Z.eqb_spec offset 0) as [->|Hne]; [reflexivity|].
  assert (Hq : offset = 60 * Z.quot offset 60) by zlia.
  set (zone := Z.quot offset 60) in *.
  assert (Hpz : forall sign z,
             0 <= z < 1440 -> (sign = "+" \/ sign = "-")%char ->
             time.parseZone
               (String sign (time.appendInt 2 (Z.quot z 60)
                  (String ":" (time.appendInt 2 (Z.rem z 60) EmptyString))))
             = Some (if Ascii.eqb sign "+" then z * 60 else - (z * 60))).
  { intros sign z Hz Hs. unfold time.parseZone.
    rewrite getnum_appendInt by (change (10 ^ Z.of_nat 2) with 100; zlia).
    rewrite getnum_appendInt by (change (10 ^ Z.of_nat 2) with 100; zlia).
    change (10 ^ Z.of_nat 2) with 100.
    replace (0 * 100 + Z.quot z 60) with (Z.quot z 60) by lia.
    replace (0 * 100 + Z.rem z 60) with (Z.rem z 60) by lia.
    destruct (Z.leb_spec 24 (Z.quot z 60)) as [Hbad|_]; [zlia|].
    destruct (Z.leb_spec 60 (Z.rem z 60)) as [Hbad|_]; [zlia|].
    cbn [orb].
    replace ((Z.quot z 60 * 60 + Z.rem z 60) * 60) with (z * 60) by zlia.
    destruct Hs as [-> | ->]; reflexivity. }
  destruct (Z.ltb_spec zone 0) as [Hneg|Hpos].
  - rewrite (Hpz "-"%char (- zone)) by (lia || tauto). simpl. f_equal. lia.
  - rewrite (Hpz "+"%char zone) by (lia || tauto). simpl. f_equal. lia.
Qed.

(** A number from 1 to [m] is a multiple of [m] when it is [m]. *)
Lemma mod_top (a m : Z) : 0 < a <= m -> (a mod m = 0 <-> a = m).
Proof.
  intros H. destruct (Z.eq_dec a m) as [->|N].
  - rewrite Z_mod_same_full. tauto.
  - rewrite Z.mod_small by lia. lia.
Qed.

Lemma mod_eqb (x m : Z) (b : bool) :
  (x mod m = 0 <-> b = true) -> (x mod m =? 0) = b.
Proof. intros H. apply eq_true_iff_eq. now rewrite Z.eqb_eq. Qed.

(** [n - n>>2] for a quotient from 0 to 4: 4 becomes 3. *)
Lemma cap4 (q : Z) :
  0 <= q <= 4 ->
  (q < 4 /\ q - q / 4 = q) \/ (q = 4 /\ q - q / 4 = 3).
Proof.
  intros H. destruct (Z.eq_dec q 4) as [->|N].
  - right. split; reflexivity.
  - left. rewrite Z.div_small by lia. lia.
Qed.

(** A step of [absDate] that cuts off at three cycles of [m] days, of
    at most four cycles and a day. *)
Lemma capped_step (d m : Z) :
  0 < m -> 0 <= d <= 4 * m ->
  let n := d / m - (d / m) / 4 in
  0 <= n <= 3 /\ 0 <= d - m * n <= m /\ (d < 4 * m -> d - m * n < m).
Proof.
  intros Hm Hd n.
  assert (Hq : 0 <= d / m <= 4).
  { split; [apply Z.div_pos; lia|]. apply Z.div_le_upper_bound; lia. }
  pose proof (Z.mod_eq d m ltac:(lia)) as He.
  pose proof (Z.mod_pos_bound d m Hm) as Hb.
  destruct (cap4 _ Hq) as [[Hlt E]|[E4 E]]; subst n; rewrite E.
  - lia.
  - rewrite E4 in He. lia.
Qed.

Lemma daysSinceEpoch_split (n400 n100 n4 n1 : Z) :
  0 <= n100 <= 3 -> 0 <= n4 <= 24 -> 0 <= n1 <= 3 ->
  time.daysSinceEpoch (400 * n400 + 100 * n100 + 4 * n4 + n1 + 1)
  = 146097 * n400 + 36524 * n100 + 1461 * n4 + 365 * n1.
Proof.
  intros H100 H4 H1.
  unfold time.daysSinceEpoch, time.daysPer400Years, time.daysPer100Years,
    time.daysPer4Years. cbv zeta.
  replace (400 * n400 + 100 * n100 + 4 * n4 + n1 + 1 - 1)
    with (400 * n400 + 100 * n100 + 4 * n4 + n1) by lia.
  rewrite <- (Z.div_unique (400 * n400 + 100 * n100 + 4 * n4 + n1) 400 n400
                (100 * n100 + 4 * n4 + n1)) by lia.
  replace (400 * n400 + 100 * n100 + 4 * n4 + n1 - 400 * n400)
    with (100 * n100 + 4 * n4 + n1) by lia.
  rewrite <- (Z.div_unique (100 * n100 + 4 * n4 + n1) 100 n100 (4 * n4 + n1))
    by lia.
  replace (100 * n100 + 4 * n4 + n1 - 100 * n100) with (4 * n4 + n1) by lia.
  rewrite <- (Z.div_unique (4 * n4 + n1) 4 n4 n1) by lia.
  lia.
Qed.

Lemma isLeap_split (n400 n100 n4 n1 : Z) :
  0 <= n100 <= 3 -> 0 <= n4 <= 24 -> 0 <= n1 <= 3 ->
  time.isLeap (400 * n400 + 100 * n100 + 4 * n4 + n1 + 1)
  = (n1 =? 3) && (negb (n4 =? 24) || (n100 =? 3)).
Proof.
  intros H100 H4 H1. unfold time.isLeap.
  rewrite (mod_eqb _ 4 (n1 =? 3)),
    (mod_eqb _ 100 ((n1 =? 3) && (n4 =? 24))),
    (mod_eqb _ 400 ((n1 =? 3) && (n4 =? 24) && (n100 =? 3))).
  - now destruct (n1 =? 3), (n4 =? 24), (n100 =? 3).
  - replace (400 * n400 + 100 * n100 + 4 * n4 + n1 + 1)
      with (100 * n100 + 4 * n4 + n1 + 1 + n400 * 400) by lia.
    rewrite Z_mod_plus_full, mod_top, !andb_true_iff, !Z.eqb_eq by lia. lia.
  - replace (400 * n400 + 100 * n100 + 4 * n4 + n1 + 1)
      with (4 * n4 + n1 + 1 + (4 * n400 + n100) * 100) by lia.
    rewrite Z_mod_plus_full, mod_top, !andb_true_iff, !Z.eqb_eq by lia. lia.
  - replace (400 * n400 + 100 * n100 + 4 * n4 + n1 + 1)
      with (n1 + 1 + (100 * n400 + 25 * n100 + n4) * 4) by lia.
    rewrite Z_mod_plus_full, mod_top, Z.eqb_eq by lia. lia.
Qed.

(** [absDate] finds the year a day falls in and the day of that
    year. *)
Lemma absDate_spec (days year yday : Z) :
  time.absDate days = (year, yday) ->
  time.daysSinceEpoch year + yday = days /\
  0 <= yday < (if time.isLeap year then 366 else 365).
Proof.
  unfold time.absDate, time.daysPer400Years, time.daysPer100Years,
    time.daysPer4Years.
  cbv zeta. rewrite !Z.shiftr_div_pow2 by lia. change (2 ^ 2) with 4.
  change (365 * 400 + 97) with 146097. change (365 * 100 + 24) with 36524.
  change (365 * 4 + 1) with 1461.
  intros H. apply pair_equal_spec in H as [<- <-].
  set (n400 := days / 146097).
  set (d1 := days - 146097 * n400).
  assert (H1 : 0 <= d1 <= 4 * 36524).
  { pose proof (Z.mod_eq days 146097 ltac:(lia)).
    pose proof (Z.mod_pos_bound days 146097 ltac:(lia)). subst d1 n400. lia. }
  destruct (capped_step d1 36524 ltac:(lia) H1) as (Hn100 & H2 & H2').
  set (n100 := d1 / 36524 - d1 / 36524 / 4) in *.
  set (d2 := d1 - 36524 * n100) in *.
  set (n4 := d2 / 1461).
  set (d3 := d2 - 1461 * n4).
  assert (H3 : 0 <= n4 <= 24 /\ 0 <= d3 <= 4 * 365).
  { pose proof (Z.mod_eq d2 1461 ltac:(lia)).
    pose proof (Z.mod_pos_bound d2 1461 ltac:(lia)).
    assert (0 <= n4) by (apply Z.div_pos; lia).
    assert (n4 < 25) by (apply Z.div_lt_upper_bound; lia).
    subst d3 n4. lia. }
  destruct H3 as [Hn4 H3].
  destruct (capped_step d3 365 ltac:(lia) H3) as (Hn1 & H4 & H4').
  set (n1 := d3 / 365 - d3 / 365 / 4) in *.
  assert (E1 : d1 = days - 146097 * n400) by reflexivity.
  assert (E2 : d2 = d1 - 36524 * n100) by reflexivity.
  assert (E3 : d3 = d2 - 1461 * n4) by reflexivity.
  clearbody n400 d1 n100 d2 n4 d3 n1.
  rewrite daysSinceEpoch_split, isLeap_split by assumption.
  split; [lia|].
  destruct (Z.eqb_spec n1 3) as [N1|N1]; [|cbn [andb]; lia].
  destruct (Z.eqb_spec n4 24) as [N4|N4]; [|cbn [andb orb negb]; lia].
  destruct (Z.eqb_spec n100 3) as [N100|N100]; cbn [andb orb negb]; lia.
Qed.

Lemma Some_inj {A : Type} (a b : A) : Some a = Some b -> a = b.
Proof. congruence. Qed.

Lemma ascii_eqb_refl_aux (c : ascii) : Ascii.eqb c c = true.
Proof. apply Ascii.eqb_refl. Qed.

(** The check of [monthDayOf] on one day of the year. *)
Definition monthDayOK (leap : bool) (yday : Z) : bool :=
  let '(month, day) := time.monthDayOf leap yday in
  (1 <=? month) && (month <=? 12) && (1 <=? day)
  && (day <=? time.daysInOf leap month)
  && (time.daysBefore (month - 1)
      + (if leap && (3 <=? month) then 1 else 0) + (day - 1) =? yday).

Lemma monthDayOK_all (leap : bool) :
  forallb (fun n => monthDayOK leap (Z.of_nat n))
    (seq 0 (if leap then 366 else 365)) = true.
Proof. destruct leap; vm_compute; reflexivity. Qed.

Lemma monthDayOf_spec (leap : bool) (yday month day : Z) :
  0 <= yday < (if leap then 366 else 365) ->
  time.monthDayOf leap yday = (month, day) ->
  1 <= month <= 12 /\ 1 <= day <= time.daysInOf leap month /\
  time.daysBefore (month - 1)
  + (if leap && (3 <=? month) then 1 else 0) + (day - 1) = yday.
Proof.
  intros Hy Hm.
  pose proof (monthDayOK_all leap) as Hall.
  rewrite forallb_forall in Hall.
  specialize (Hall (Z.to_nat yday)).
  rewrite Z2Nat.id in Hall by lia.
  assert (Hin : In (Z.to_nat yday) (seq 0 (if leap then 366 else 365))).
  { apply in_seq. destruct leap; lia. }
  specialize (Hall Hin). unfold monthDayOK in Hall. rewrite Hm in Hall.
  rewrite !andb_true_iff, !Z.leb_le, Z.eqb_eq in Hall. lia.
Qed.

Lemma daysInOf_le (leap : bool) (month : Z) :
  1 <= month <= 12 -> time.daysInOf leap month <= 31.
Proof.
  intros H.
  assert (Hc : month = 1 \/ month = 2 \/ month = 3 \/ month = 4 \/
               month = 5 \/ month = 6 \/ month = 7 \/ month = 8 \/
               month = 9 \/ month = 10 \/ month = 11 \/ month = 12) by lia.
  destruct leap;
    repeat (destruct Hc as [->|Hc]; [vm_compute; discriminate|]);
    subst; vm_compute; discriminate.
Qed.

(** A time [MarshalJSON] can write and [UnmarshalJSON] reads back as it
    was: nanoseconds within the second and a zone of whole minutes. *)
Definition validTime (t : time.Time) : Prop :=
  0 <= time.t_nsec t < 10 ^ 9 /\ validOffset (time.t_offset t).

Lemma string_all_cons (P : ascii -> bool) (c : ascii) (s : string) :
  P c = true -> string_all P s = true -> string_all P (String c s) = true.
Proof. intros H1 H2. simpl. now rewrite H1. Qed.

(** The text of a time has no byte the scanner would stop at. *)
Lemma appendStrictRFC3339_plain (t : time.Time) (txt : string) :
  time.appendStrictRFC3339 t = Some txt -> string_all plainByte txt = true.
Proof.
  unfold time.appendStrictRFC3339.
  destruct (time.absDate _) as [year yday].
  destruct (time.monthDay year yday) as [month day].
  destruct (_ || _); [discriminate|].
  destruct (24 <=? _); [discriminate|].
  intros H. apply Some_inj in H. subst txt.
  repeat first [ apply appendInt_plain
               | apply string_all_cons; [reflexivity|] ].
  unfold time.appendNano.
  assert (Hz := formatZone_plain (time.t_offset t)).
  destruct (time.t_nsec t =? 0); [exact Hz|].
  cbn [append]. apply string_all_cons; [reflexivity|].
  assert (Ht : forall w x, string_all plainByte
                             (append (time.trimmedDigits w x)
                                (time.formatZone (time.t_offset t))) = true).
  { induction w as [|w IH]; intros x; cbn [time.trimmedDigits]; [exact Hz|].
    destruct (x mod 10 =? 0); [apply IH|].
    rewrite appendInt_append. now apply appendInt_plain. }
  apply Ht.
Qed.

(** [parseStrictRFC3339] reads back the time [appendStrictRFC3339]
    wrote. *)
Lemma parseStrictRFC3339_append (t : time.Time) (txt : string) :
  validTime t ->
  time.appendStrictRFC3339 t = Some txt ->
  time.parseStrictRFC3339 txt = Some t.
Proof.
  intros [Hns Hoff]. unfold time.appendStrictRFC3339.
  set (abs := time.t_sec t + time.t_offset t).
  destruct (time.absDate (abs / time.secondsPerDay)) as [year yday] eqn:Hd.
  destruct (time.monthDay year yday) as [month day] eqn:Hm.
  destruct (absDate_spec _ _ _ Hd) as [Hdays Hyday].
  destruct (monthDayOf_spec _ _ _ _ Hyday Hm) as (Hmonth & Hday & Hsum).
  destruct ((year <? 0) || (9999 <? year)) eqn:Hyear; [discriminate|].
  apply orb_false_iff in Hyear as [Hy0 Hy1]. apply Z.ltb_ge in Hy0, Hy1.
  destruct (24 <=? _); [discriminate|].
  intros H. apply Some_inj in H. subst txt.
  unfold time.secondsPerDay in *.
  set (secs := abs mod 86400) in *.
  assert (Hsecs : 0 <= secs < 86400) by (subst secs; zlia).
  unfold time.parseStrictRFC3339.
  rewrite getnum_appendInt by (change (10 ^ Z.of_nat 4) with 10000; lia).
  cbn [time.expect]. rewrite ascii_eqb_refl_aux.
  rewrite getnum_appendInt by (change (10 ^ Z.of_nat 2) with 100; lia).
  cbn [time.expect]. rewrite ascii_eqb_refl_aux.
  pose proof (daysInOf_le (time.isLeap year) month Hmonth) as Hdim.
  rewrite getnum_appendInt by (change (10 ^ Z.of_nat 2) with 100; lia).
  cbn [time.expect]. rewrite ascii_eqb_refl_aux.
  rewrite getnum_appendInt by (change (10 ^ Z.of_nat 2) with 100; zlia).
  cbn [time.expect]. rewrite ascii_eqb_refl_aux.
  rewrite getnum_appendInt by (change (10 ^ Z.of_nat 2) with 100; zlia).
  cbn [time.expect]. rewrite ascii_eqb_refl_aux.
  rewrite getnum_appendInt by (change (10 ^ Z.of_nat 2) with 100; zlia).
  rewrite parseNanoseconds_appendNano
    by (assumption || apply formatZone_start).
  rewrite parseZone_formatZone by assumption.
  change (10 ^ Z.of_nat 4) with 10000. change (10 ^ Z.of_nat 2) with 100.
  replace (0 * 10000 + year) with year by lia.
  replace (0 * 100 + month) with month by lia.
  replace (0 * 100 + day) with day by lia.
  replace (0 * 100 + secs / 3600) with (secs / 3600) by lia.
  replace (0 * 100 + secs mod 3600 / 60) with (secs mod 3600 / 60) by lia.
  replace (0 * 100 + secs mod 60) with (secs mod 60) by lia.
  replace ((month <? 1) || (12 <? month) || (day <? 1)
           || (time.daysIn month year <? day) || (24 <=? secs / 3600)
           || (60 <=? secs mod 3600 / 60) || (60 <=? secs mod 60)) with false.
  2:{ symmetry. unfold time.daysIn.
      rewrite !orb_false_iff, !Z.ltb_ge, !Z.leb_gt. repeat split; zlia. }
  f_equal. unfold time.Date, time.secondsPerDay.
  destruct t as [s n o]. simpl in *. f_equal.
  assert (Hd' : time.daysSinceEpoch year + time.daysBefore (month - 1)
                + (if time.isLeap year && (3 <=? month) then 1 else 0)
                + (day - 1) = abs / 86400) by lia.
  destruct (time.isLeap year && (3 <=? month)); subst abs secs; zlia.
Qed.
#[local] Arguments ascii_dec : simpl never.

(** ** The document of a link *)

Import domain.

(** The literal of a string, between its quotes. *)
Definition enc (s : string) : string := json.appendString_loop 0 s.

Definition tagsTree (tags : list string) : list (string * json.Value) :=
  match tags with
  | [] => []
  | _ => [("tags"%string, json.JArray (map (fun s => json.JString (enc s)) tags))]
  end.

Definition previewTree (p : string) : list (string * json.Value) :=
  match p with
  | EmptyString => []
  | _ => [("preview_image_url"%string, json.JString (enc p))]
  end.

(** The members of the document [Marshal] writes for a link whose
    timestamp has the text [ts], as the scanner reads them. *)
Definition linkMembers (l : Link) (ts : string)
  : list (string * json.Value) :=
  [("url"%string, json.JString (enc (URL l)));
   ("title"%string, json.JString (enc (Title l)));
   ("description"%string, json.JString (enc (Description l)));
   ("user_id"%string, json.JNumber (strconv.FormatInt (UserID l)));
   ("timestamp"%string, json.JString ts)]
  ++ tagsTree (Tags l)
  ++ [("read"%string, json.JBool (Read l))]
  ++ previewTree (PreviewImageURL l).

(** The value the scanner reads from that document. *)
Definition linkTree (l : Link) (ts : string) : json.Value :=
  json.JObject (linkMembers l ts).

Lemma parseValue_string (fuel : nat) (s more : string) :
  json.parseValue (S fuel) (append (json.appendString s) more)
  = Some (json.JString (enc s), more).
Proof.
  unfold json.appendString. cbn [append json.parseValue json.skipSpace].
  change (json.isSpace dquote) with false. cbv iota.
  change (Ascii.eqb dquote "{") with false.
  change (Ascii.eqb dquote "[") with false.
  change (Ascii.eqb dquote dquote) with true. cbv iota.
  rewrite append_assoc. cbn [append].
  now rewrite scanString_appendString.
Qed.

Lemma parseValue_quoted (fuel : nat) (txt more : string) :
  string_all plainByte txt = true ->
  json.parseValue (S fuel) (append (time.quoted txt) more)
  = Some (json.JString txt, more).
Proof.
  intros Hp. unfold time.quoted. cbn [append json.parseValue json.skipSpace].
  change (json.isSpace dquote) with false. cbv iota.
  change (Ascii.eqb dquote "{") with false.
  change (Ascii.eqb dquote "[") with false.
  change (Ascii.eqb dquote dquote) with true. cbv iota.
  rewrite append_assoc. cbn [append].
  now rewrite scanString_plain_quote.
Qed.

Lemma parseValue_bool (fuel : nat) (b : bool) (more : string) :
  json.parseValue (S fuel) (append (json.boolLiteral b) more)
  = Some (json.JBool b, more).
Proof. destruct b; reflexivity. Qed.

Lemma parseElements_eq (fuel : nat) (s : string) :
  json.parseElements (S fuel) s =
  match json.parseValue fuel s with
  | None => None
  | Some (v, rest) =>
    match json.skipSpace rest with
    | String ","%char rest1 =>
      match json.parseElements fuel rest1 with
      | Some (vs, rest2) => Some (v :: vs, rest2)
      | None => None
      end
    | String "]"%char rest1 => Some ([v], rest1)
    | _ => None
    end
  end.
Proof. reflexivity. Qed.

(** The elements of a slice of strings, up to the bracket. *)
Lemma parseElements_strings (tags : list string) (fuel : nat) (more : string) :
  tags <> [] -> (List.length tags < fuel)%nat ->
  json.parseElements fuel (append (json.stringElems tags) (String "]" more))
  = Some (map (fun s => json.JString (enc s)) tags, more).
Proof.
  revert fuel; induction tags as [|s tags IH]; intros fuel Hne Hf;
    [now elim Hne|].
  destruct fuel as [|fuel]; [simpl in Hf; lia|].
  destruct fuel as [|fuel]; [simpl in Hf; lia|].
  destruct tags as [|s' tags].
  - cbn [json.stringElems]. rewrite parseElements_eq.
    rewrite parseValue_string. reflexivity.
  - change (json.stringElems (s :: s' :: tags))
      with (append (json.appendString s)
              (String "," (json.stringElems (s' :: tags)))).
    rewrite append_assoc. rewrite parseElements_eq.
    rewrite parseValue_string. cbn [append json.skipSpace].
    change (json.isSpace ",") with false. cbv iota.
    rewrite IH by (discriminate || (simpl in *; lia)). reflexivity.
Qed.

Lemma stringElems_head (s : string) (tags : list string) :
  exists t, json.stringElems (s :: tags) = String dquote t.
Proof.
  destruct tags; simpl; unfold json.appendString; simpl; eauto.
Qed.

Lemma parseValue_strings (tags : list string) (fuel : nat) (more : string) :
  tags <> [] -> (List.length tags < fuel)%nat ->
  json.parseValue (S fuel)
    (String "[" (append (json.stringElems tags) (String "]" more)))
  = Some (json.JArray (map (fun s => json.JString (enc s)) tags), more).
Proof.
  intros Hne Hf. cbn [json.parseValue json.skipSpace].
  change (json.isSpace "[") with false. cbv iota.
  change (Ascii.eqb "[" "{") with false.
  change (Ascii.eqb "[" "[") with true. cbv iota.
  rewrite parseElements_strings by assumption.
  destruct tags as [|s tags]; [now elim Hne|].
  destruct (stringElems_head s tags) as [t ->].
  cbn [append json.skipSpace]. change (json.isSpace dquote) with false.
  reflexivity.
Qed.

(** A member that another follows, and the last one. *)
Lemma parseMembers_more (fuel : nat) (name W more R : string)
    (v : json.Value) (ms : list (string * json.Value)) :
  string_all plainByte name = true ->
  json.parseValue fuel W = Some (v, String "," more) ->
  json.parseMembers fuel more = Some (ms, R) ->
  json.parseMembers (S fuel) (append (json.objectKey name) W)
  = Some ((name, v) :: ms, R).
Proof.
  intros Hn Hv Hm. unfold json.objectKey.
  cbn [append json.parseMembers json.skipSpace].
  change (json.isSpace dquote) with false. cbv iota.
  change (Ascii.eqb dquote dquote) with true. cbv iota.
  rewrite append_assoc. cbn [append].
  rewrite scanString_plain_quote by assumption.
  cbn [json.skipSpace]. change (json.isSpace ":") with false. cbv iota.
  rewrite Hv. cbn [json.skipSpace]. change (json.isSpace ",") with false.
  cbv iota. now rewrite Hm.
Qed.

Lemma parseMembers_last (fuel : nat) (name W R : string) (v : json.Value) :
  string_all plainByte name = true ->
  json.parseValue fuel W = Some (v, String "}" R) ->
  json.parseMembers (S fuel) (append (json.objectKey name) W)
  = Some ([(name, v)], R).
Proof.
  intros Hn Hv. unfold json.objectKey.
  cbn [append json.parseMembers json.skipSpace].
  change (json.isSpace dquote) with false. cbv iota.
  change (Ascii.eqb dquote dquote) with true. cbv iota.
  rewrite append_assoc. cbn [append].
  rewrite scanString_plain_quote by assumption.
  cbn [json.skipSpace]. change (json.isSpace ":") with false. cbv iota.
  rewrite Hv. cbn [json.skipSpace]. change (json.isSpace "}") with false.
  reflexivity.
Qed.

Lemma parseValue_object (fuel : nat) (name W R : string)
    (ms : list (string * json.Value)) :
  json.parseMembers fuel (append (json.objectKey name) W) = Some (ms, R) ->
  json.parseValue (S fuel) (String "{" (append (json.objectKey name) W))
  = Some (json.JObject ms, R).
Proof.
  intros Hm. cbn [json.parseValue json.skipSpace].
  change (json.isSpace "{") with false. cbv iota.
  change (Ascii.eqb "{" "{") with true. cbv iota.
  rewrite Hm. unfold json.objectKey. cbn [append json.skipSpace].
  change (json.isSpace dquote) with false. reflexivity.
Qed.

(** The text [Marshal] writes, member by member. *)
Lemma Marshal_text (l : Link) (b : string) :
  json.Marshal l = ok b ->
  exists ts,
    time.appendStrictRFC3339 (Timestamp l) = Some ts /\
    b = String "{"
          (append (json.objectKey "url") (append (json.appendString (URL l))
          (String "," (append (json.objectKey "title")
             (append (json.appendString (Title l))
          (String "," (append (json.objectKey "description")
             (append (json.appendString (Description l))
          (String "," (append (json.objectKey "user_id")
             (append (strconv.FormatInt (UserID l))
          (String "," (append (json.objectKey "timestamp")
             (append (time.quoted ts)
          (append (json.tagsMember (Tags l))
          (String "," (append (json.objectKey "read")
             (append (json.boolLiteral (Read l))
          (append (json.previewMember (PreviewImageURL l))
          (String "}" EmptyString)))))))))))))))))))).
Proof.
  unfold json.Marshal, time.MarshalJSON.
  destruct (time.appendStrictRFC3339 (Timestamp l)) as [ts|]; [|discriminate].
  cbn [option_map]. intros H. exists ts. split; [reflexivity|].
  assert (E : forall (x y : string), ok x = ok y -> x = y) by congruence.
  apply E in H. rewrite <- H. reflexivity.
Qed.

(** The scanner reads the document of a link as the value
    [linkTree]. *)
Lemma parseValue_Marshal (l : Link) (b : string) (fuel : nat) :
  json.Marshal l = ok b ->
  (List.length (Tags l) + 10 <= fuel)%nat ->
  exists ts,
    time.appendStrictRFC3339 (Timestamp l) = Some ts /\
    json.parseValue fuel b = Some (linkTree l ts, EmptyString).
Proof.
  intros Hm Hf. destruct (Marshal_text l b Hm) as (ts & Hts & ->).
  exists ts. split; [assumption|].
  pose proof (appendStrictRFC3339_plain _ _ Hts) as Hplain.
  replace fuel with (10 + (fuel - 10))%nat by lia.
  assert (Hn : (List.length (Tags l) <= fuel - 10)%nat) by lia.
  generalize dependent (fuel - 10)%nat. clear fuel Hf. intros n Hn.
  cbn [Nat.add]. unfold linkTree, linkMembers.
  apply parseValue_object.
  eapply parseMembers_more;
    [reflexivity | apply parseValue_string |].
  eapply parseMembers_more;
    [reflexivity | apply parseValue_string |].
  eapply parseMembers_more;
    [reflexivity | apply parseValue_string |].
  eapply parseMembers_more;
    [reflexivity | apply parseValue_FormatInt |].
  assert (Htail :
    forall k,
      json.parseMembers (S (S (S k)))
        (append (json.objectKey "read")
           (append (json.boolLiteral (Read l))
              (append (json.previewMember (PreviewImageURL l))
                 (String "}" EmptyString))))
      = Some ([("read"%string, json.JBool (Read l))]
              ++ previewTree (PreviewImageURL l), EmptyString)).
  { intros k. destruct (PreviewImageURL l) as [|c p] eqn:Hp.
    - cbn [json.previewMember previewTree append app].
      eapply parseMembers_last; [reflexivity | apply parseValue_bool].
    - cbn [json.previewMember previewTree append app].
      eapply parseMembers_more; [reflexivity | apply parseValue_bool |].
      rewrite append_assoc.
      eapply parseMembers_last; [reflexivity | apply parseValue_string]. }
  destruct (Tags l) as [|t tags] eqn:Ht.
  - cbn [json.tagsMember tagsTree append app].
    eapply parseMembers_more;
      [reflexivity | now apply parseValue_quoted | apply Htail].
  - cbn [json.tagsMember tagsTree append app].
    eapply parseMembers_more;
      [reflexivity | now apply parseValue_quoted |].
    rewrite append_assoc.
    eapply parseMembers_more; [reflexivity | | apply Htail].
    cbn [append]. rewrite append_assoc. cbn [append].
    apply parseValue_strings; [discriminate | simpl in *; lia].
Qed.

(** ** Decoding the document of a link *)

Lemma stringElems_length (tags : list string) :
  (List.length tags <= String.length (json.stringElems tags))%nat.
Proof.
  induction tags as [|s tags IH]; [simpl; lia|].
  destruct tags as [|s' tags].
  - cbn [json.stringElems]. unfold json.appendString.
    cbn [String.length List.length]. lia.
  - change (json.stringElems (s :: s' :: tags))
      with (append (json.appendString s)
              (String "," (json.stringElems (s' :: tags)))).
    rewrite length_append. cbn [String.length List.length] in *. lia.
Qed.

Lemma tagsMember_length (tags : list string) :
  (List.length tags <= String.length (json.tagsMember tags))%nat.
Proof.
  destruct tags as [|s tags]; [simpl; lia|].
  unfold json.tagsMember. cbn [String.length].
  rewrite length_append. cbn [String.length]. rewrite length_append.
  pose proof (stringElems_length (s :: tags)). lia.
Qed.

(** The fuel [parse] gives the scanner is enough for the document. *)
Lemma Marshal_fuel (l : Link) (b : string) :
  json.Marshal l = ok b ->
  (List.length (Tags l) + 10 <= 2 * String.length b + 2)%nat.
Proof.
  intros Hm. destruct (Marshal_text l b Hm) as (ts & _ & ->).
  pose proof (tagsMember_length (Tags l)).
  repeat first [rewrite length_append | progress cbn [String.length]].
  lia.
Qed.

Lemma parse_Marshal (l : Link) (b : string) :
  json.Marshal l = ok b ->
  exists ts,
    time.appendStrictRFC3339 (Timestamp l) = Some ts /\
    json.parse b = Some (linkTree l ts).
Proof.
  intros Hm.
  destruct (parseValue_Marshal l b _ Hm (Marshal_fuel l b Hm))
    as (ts & Hts & Hp).
  exists ts. split; [assumption|].
  unfold json.parse. now rewrite Hp.
Qed.

(** A member whose key names a field. *)
Lemma decodeMembers_field (name : string) (f : json.field) (v : json.Value)
    (ms : list (string * json.Value)) (l : Link) (saved : option error) :
  json.unquote name = Some name ->
  json.findField name = Some f ->
  json.decodeMembers ((name, v) :: ms) l saved =
  match json.decodeField f v l saved with
  | ok (l', sv) => json.decodeMembers ms l' sv
  | fail e => fail e
  end.
Proof. intros Hu Hf. cbn [json.decodeMembers]. now rewrite Hu, Hf. Qed.

Lemma decodeMembers_app (ms1 ms2 : list (string * json.Value)) :
  forall l saved,
    json.decodeMembers (ms1 ++ ms2) l saved =
    match json.decodeMembers ms1 l saved with
    | ok (l', sv) => json.decodeMembers ms2 l' sv
    | fail e => fail e
    end.
Proof.
  induction ms1 as [|[k v] ms1 IH]; intros l saved; [reflexivity|].
  cbn [app json.decodeMembers].
  destruct (json.unquote k) as [key|]; [|reflexivity].
  destruct (json.findField key) as [f|]; [|apply IH].
  destruct (json.decodeField f v l saved) as [[l' sv]|e]; [apply IH|reflexivity].
Qed.

(** *** Valid records *)

Lemma storeString_enc (s : string) :
  utf8.ValidString s = true ->
  json.storeString (json.JString (enc s)) = json.Set_ s.
Proof.
  intros H. unfold json.storeString, enc. now rewrite unquote_appendString.
Qed.

Lemma storeInt64_FormatInt (i : Z) :
  strconv.minInt64 <= i <= strconv.maxInt64 ->
  json.storeInt64 (json.JNumber (strconv.FormatInt i)) = json.Set_ i.
Proof.
  intros H. unfold json.storeInt64. now rewrite ParseInt_FormatInt.
Qed.

Lemma storeTime_append (t : time.Time) (ts : string) :
  validTime t ->
  time.appendStrictRFC3339 t = Some ts ->
  json.storeTime (json.JString ts) = json.Set_ t.
Proof.
  intros Hv H. unfold json.storeTime.
  now rewrite (parseStrictRFC3339_append t ts Hv H).
Qed.

Lemma storeElems_strings (tags : list string) :
  Forall (fun t => utf8.ValidString t = true) tags ->
  forall old saved,
    json.storeElems (map (fun s => json.JString (enc s)) tags) old saved
    = ok (tags, saved).
Proof.
  induction 1 as [|t tags Ht _ IH]; intros old saved; [reflexivity|].
  cbn [map json.storeElems]. rewrite storeString_enc by assumption.
  now rewrite IH.
Qed.

(** The year of a time in its location, as [Time.Year] gives it. *)
Definition yearOf (t : time.Time) : Z :=
  fst (time.absDate ((time.t_sec t + time.t_offset t) / time.secondsPerDay)).

(** A valid record: its strings are valid UTF-8, its user ID is an
    [int64], and its timestamp is a time of the years 0 to 9999 with
    nanoseconds below a second and a zone offset of whole minutes
    within a day. *)
Record validLink (l : Link) : Prop := {
  valid_URL : utf8.ValidString (URL l) = true;
  valid_Title : utf8.ValidString (Title l) = true;
  valid_Description : utf8.ValidString (Description l) = true;
  valid_UserID : strconv.minInt64 <= UserID l <= strconv.maxInt64;
  valid_Timestamp : validTime (Timestamp l);
  valid_Year : 0 <= yearOf (Timestamp l) <= 9999;
  valid_Tags : Forall (fun t => utf8.ValidString t = true) (Tags l);
  valid_PreviewImageURL : utf8.ValidString (PreviewImageURL l) = true
}.

Lemma appendStrictRFC3339_valid (t : time.Time) :
  validTime t -> 0 <= yearOf t <= 9999 ->
  exists ts, time.appendStrictRFC3339 t = Some ts.
Proof.
  intros [_ [Hm Ho]] Hy. unfold yearOf in Hy.
  unfold time.appendStrictRFC3339. cbv zeta.
  destruct (time.absDate _) as [year yday]. cbn [fst] in Hy.
  destruct (time.monthDay year yday) as [month day].
  replace ((year <? 0) || (9999 <? year)) with false
    by (symmetry; apply orb_false_iff; split; apply Z.ltb_ge; lia).
  replace (24 <=? Z.abs (Z.quot (Z.quot (time.t_offset t) 60) 60)) with false
    by (symmetry; apply Z.leb_gt; zlia).
  eexists. reflexivity.
Qed.

Lemma Marshal_valid (l : Link) :
  validLink l -> exists b, json.Marshal l = ok b.
Proof.
  intros Hv.
  destruct (appendStrictRFC3339_valid (Timestamp l)
              (valid_Timestamp l Hv) (valid_Year l Hv)) as [ts Hts].
  unfold json.Marshal, time.MarshalJSON. rewrite Hts. cbn [option_map].
  eexists. reflexivity.
Qed.

Lemma decodeMembers_linkTree (l : Link) (ts : string) :
  validLink l ->
  time.appendStrictRFC3339 (Timestamp l) = Some ts ->
  json.decodeMembers (linkMembers l ts) domain.zero None = ok (l, None).
Proof.
  intros [Hu Hti Hd Hid Ht _ Htags Hp] Hts.
  destruct l as [u ti d id t tags r p].
  cbn [URL Title Description UserID Timestamp Tags Read PreviewImageURL] in *.
  pose proof (storeTime_append t ts Ht Hts) as Htime.
  unfold linkMembers, domain.zero.
  cbn [URL Title Description UserID Timestamp Tags Read PreviewImageURL app].
  destruct tags as [|tag tags]; destruct p as [|c p];
    cbn [tagsTree previewTree app];
    repeat
      (erewrite decodeMembers_field by reflexivity;
       cbn [json.decodeField json.storeTags json.storeBool];
       rewrite ?storeString_enc, ?storeInt64_FormatInt, ?storeElems_strings,
         ?Htime by assumption;
       cbn [json.apply URL Title Description UserID Timestamp Tags Read
            PreviewImageURL]);
    reflexivity.
Qed.

(** C9. The codec round-trips: a valid record is serialized by
    [json.Marshal], as [SaveLink] does, and [json.Unmarshal], as
    [GetLinksByUser] does, decodes the bytes to the record itself, all
    eight fields, with or without tags and preview image. *)
Theorem Unmarshal_Marshal (l : Link) :
  validLink l ->
  exists b, json.Marshal l = ok b /\ json.Unmarshal b = ok l.
Proof.
  intros Hv. destruct (Marshal_valid l Hv) as [b Hb].
  exists b. split; [assumption|].
  destruct (parse_Marshal l b Hb) as (ts & Hts & Hp).
  unfold json.Unmarshal. rewrite Hp. unfold linkTree.
  now rewrite (decodeMembers_linkTree l ts Hv Hts).
Qed.

(** A record with tags, a preview image, nanoseconds and a zone offset
    of five and a half hours. *)
Definition linkD : Link :=
  mkLink "https://d.com/path?q=1&r=<2>" "D" "fourth" 7
    (time.mkTime 63929109600 123000000 19800)
    ["go"%string; "db"%string] true "https://d.com/p.png".

Lemma linkD_valid : validLink linkD.
Proof.
  constructor; try (vm_compute; reflexivity).
  - vm_compute. split; discriminate.
  - split; [vm_compute; split; [discriminate | reflexivity]|].
    split; [reflexivity | vm_compute; split; reflexivity].
  - vm_compute. split; discriminate.
  - repeat constructor.
Qed.

Lemma Unmarshal_Marshal_witness :
  exists b, json.Marshal linkD = ok b /\ json.Unmarshal b = ok linkD.
Proof. apply (Unmarshal_Marshal linkD). exact linkD_valid. Defined.

(** *** Any record *)

(** The members other than [user_id] leave the user ID as it is, and a
    saved error stays saved. *)
Lemma saveError_saved (saved : option error) (e : error) :
  saved <> None -> json.saveError saved e <> None.
Proof. destruct saved; simpl; congruence. Qed.

Lemma storeElems_saved (elems : list json.Value) :
  forall old saved l sv,
    json.storeElems elems old saved = ok (l, sv) ->
    saved <> None -> sv <> None.
Proof.
  induction elems as [|v elems IH]; intros old saved l sv H Hs.
  - injection H as _ <-. assumption.
  - cbn [json.storeElems] in H.
    destruct (json.storeString v) as [s| |what|e].
    + destruct (json.storeElems elems (tl old) saved) as [[l0 sv0]|e] eqn:E;
        [|discriminate].
      injection H as _ <-. eapply IH; eassumption.
    + destruct (json.storeElems elems (tl old) saved) as [[l0 sv0]|e] eqn:E;
        [|discriminate].
      injection H as _ <-. eapply IH; eassumption.
    + destruct (json.storeElems elems (tl old) _) as [[l0 sv0]|e] eqn:E;
        [|discriminate].
      injection H as _ <-. eapply IH; [eassumption|].
      now apply saveError_saved.
    + discriminate.
Qed.

Lemma apply_other {A : Type} (s : json.store A) (name : string)
    (upd : A -> Link) (l : Link) (saved : option error) (l' : Link)
    (sv : option error) :
  (forall a, UserID (upd a) = UserID l) ->
  json.apply s name upd l saved = ok (l', sv) ->
  UserID l' = UserID l /\ (saved <> None -> sv <> None).
Proof.
  intros Hupd H. destruct s as [a| |what|e]; cbn [json.apply] in H.
  - injection H as <- <-. auto.
  - injection H as <- <-. auto.
  - injection H as <- <-. split; [reflexivity|]. apply saveError_saved.
  - discriminate.
Qed.

Lemma decodeField_other (f : json.field) (v : json.Value) (l : Link)
    (saved : option error) (l' : Link) (sv : option error) :
  f <> json.fUserID ->
  json.decodeField f v l saved = ok (l', sv) ->
  UserID l' = UserID l /\ (saved <> None -> sv <> None).
Proof.
  intros Hf H. destruct f; try congruence; cbn [json.decodeField] in H;
    try (eapply apply_other; [|eassumption]; reflexivity).
  destruct (json.storeTags v (Tags l) saved) as [[tags sv0]|e] eqn:E;
    [|discriminate].
  injection H as <- <-. split; [reflexivity|].
  intros Hs. destruct v; cbn [json.storeTags] in E;
    try (injection E as _ <-; try assumption; now apply saveError_saved).
  eapply storeElems_saved; eassumption.
Qed.

Definition noUserID (ms : list (string * json.Value)) : bool :=
  forallb
    (fun m =>
       match json.unquote (fst m) with
       | Some key =>
         match json.findField key with
         | Some json.fUserID => false
         | _ => true
         end
       | None => true
       end) ms.

Lemma decodeMembers_other (ms : list (string * json.Value)) :
  noUserID ms = true ->
  forall l saved l' sv,
    json.decodeMembers ms l saved = ok (l', sv) ->
    UserID l' = UserID l /\ (saved <> None -> sv <> None).
Proof.
  induction ms as [|[k v] ms IH]; intros Hn l saved l' sv H.
  - injection H as <- <-. auto.
  - cbn [noUserID forallb fst] in Hn. apply andb_true_iff in Hn as [Hk Hn].
    cbn [json.decodeMembers] in H.
    destruct (json.unquote k) as [key|]; [|discriminate].
    destruct (json.findField key) as [f|]; [|now apply IH].
    destruct (json.decodeField f v l saved) as [[l1 s1]|e] eqn:E;
      [|discriminate].
    assert (Hf : f <> json.fUserID) by (intros ->; discriminate).
    destruct (decodeField_other f v l saved l1 s1 Hf E) as [H1 H2].
    destruct (IH Hn l1 s1 l' sv H) as [H3 H4].
    split; [congruence | auto].
Qed.

Lemma ParseInt_FormatInt_inv (i z : Z) :
  strconv.ParseInt (strconv.FormatInt i) = Some z -> z = i.
Proof.
  unfold strconv.ParseInt. rewrite int_of_string_FormatInt. cbv zeta.
  rewrite DecimalZ.of_to.
  destruct ((strconv.minInt64 <=? i) && (i <=? strconv.maxInt64));
    congruence.
Qed.

Lemma noUserID_tail (ts : string) (tags : list string) (r : bool)
    (p : string) :
  noUserID ([("timestamp"%string, json.JString ts)] ++ tagsTree tags
            ++ [("read"%string, json.JBool r)] ++ previewTree p) = true.
Proof. destruct tags, p; reflexivity. Qed.

(** Whatever the record, what [Unmarshal] decodes from the bytes
    [Marshal] wrote for it has the user ID of the record. *)
Lemma Unmarshal_UserID (l l' : Link) (b : string) :
  json.Marshal l = ok b -> json.Unmarshal b = ok l' -> UserID l' = UserID l.
Proof.
  intros Hm Hu. destruct (parse_Marshal l b Hm) as (ts & _ & Hp).
  unfold json.Unmarshal in Hu. rewrite Hp in Hu. unfold linkTree in Hu.
  pose proof (noUserID_tail ts (Tags l) (Read l) (PreviewImageURL l)) as Hn.
  change (linkMembers l ts)
    with ([("url"%string, json.JString (enc (URL l)));
           ("title"%string, json.JString (enc (Title l)));
           ("description"%string, json.JString (enc (Description l)))]
          ++ ("user_id"%string, json.JNumber (strconv.FormatInt (UserID l)))
             :: ([("timestamp"%string, json.JString ts)] ++ tagsTree (Tags l)
                 ++ [("read"%string, json.JBool (Read l))]
                 ++ previewTree (PreviewImageURL l))) in Hu.
  set (post := [("timestamp"%string, json.JString ts)] ++ _) in *.
  clearbody post.
  rewrite decodeMembers_app in Hu.
  destruct (json.decodeMembers _ domain.zero None) as [[l1 s1]|e];
    [|discriminate].
  erewrite decodeMembers_field in Hu by reflexivity.
  cbn [json.decodeField json.storeInt64] in Hu.
  destruct (strconv.ParseInt (strconv.FormatInt (UserID l))) as [z|] eqn:E;
    cbn [json.apply] in Hu.
  - apply ParseInt_FormatInt_inv in E. subst z.
    destruct (json.decodeMembers post _ s1) as [[l3 s3]|e] eqn:E3;
      [|discriminate].
    destruct (decodeMembers_other _ Hn _ _ _ _ E3) as [H3 _].
    destruct s3; [discriminate|]. injection Hu as <-. exact H3.
  - destruct (json.decodeMembers post _ _) as [[l3 s3]|e] eqn:E3;
      [|discriminate].
    destruct (decodeMembers_other _ Hn _ _ _ _ E3) as [_ H3].
    destruct s3; [discriminate|]. exfalso. apply H3; [|reflexivity].
    destruct s1; discriminate.
Qed.

(** ** Isolation of the users *)

(** What the operations keep of every entry: its key is the key of a
    record, and its value the bytes [json.Marshal] wrote for that
    record. *)
Definition entryOK (e : badger.Entry) : Prop :=
  exists l,
    fst e = generateLinkKey (UserID l) (URL l) /\
    json.Marshal l = ok (snd e).

Definition StoreOK (r : BadgerRepository) : Prop :=
  Forall entryOK (entries r).

Lemma ensureTimestamp_key (now : time.Time) (link : Link) :
  UserID (ensureTimestamp now link) = UserID link /\
  URL (ensureTimestamp now link) = URL link.
Proof. unfold ensureTimestamp. now destruct (time.IsZero _). Qed.

Lemma perform_StoreOK (r : BadgerRepository) (o : operation) :
  StoreOK r -> StoreOK (perform r o).
Proof.
  unfold StoreOK. intros H. destruct o as [now ctx link|ctx u url|]; simpl.
  - rewrite SaveLink_cases. cbv zeta.
    destruct (json.Marshal (ensureTimestamp now link)) as [b|e] eqn:Hm;
      [|assumption].
    destruct (badger.isClosed (db r)); [assumption|].
    apply Forall_forall. intros e He. apply put_In in He as [->|He].
    + exists (ensureTimestamp now link).
      destruct (ensureTimestamp_key now link) as [-> ->]. now split.
    + revert e He. now apply Forall_forall.
  - rewrite DeleteLink_cases.
    destruct (badger.isClosed (db r)); [assumption|].
    apply Forall_forall. intros e He. apply remove_In in He as [He _].
    revert e He. now apply Forall_forall.
  - assumption.
Qed.

Lemma run_StoreOK (ops : list operation) (r : BadgerRepository) :
  StoreOK r -> StoreOK (run ops r).
Proof.
  revert r. induction ops as [|o ops IH]; intros r H; [assumption|].
  apply IH. now apply perform_StoreOK.
Qed.

(** The keys under the prefix of a user are the link keys of that
    user. *)
Lemma userPrefix_keys (a : Z) (k : string) :
  String.prefix (generateUserPrefix a) k = true <->
  exists url, k = generateLinkKey a url.
Proof.
  split; [apply userPrefix_key|].
  intros [url ->]. now apply userPrefix_linkKey.
Qed.

Section Isolation.

Variable sort_Slice : list Link -> (Link -> Link -> bool) -> list Link.

(** Of the contract of [sort.Slice], that the slice keeps its
    elements. *)
Hypothesis sort_Slice_Permutation :
  forall l less, Permutation (sort_Slice l less) l.

(** C1. After any sequence of operations on a new store, with any user
    IDs and any URLs, every record [GetLinksByUser] returns for a user
    has the user ID of that user.  The keys with the prefix
    [generateUserPrefix] of the user are the keys [generateLinkKey]
    makes for that user, and no key of another user has the prefix. *)
Theorem GetLinksByUser_isolation (ops : list operation) (ctx : Context)
    (userID : Z) (links : list Link) (err : option error) :
  GetLinksByUser sort_Slice (run ops emptyRepo) ctx userID = (links, err) ->
  (forall l, In l links -> UserID l = userID) /\
  (forall k,
      String.prefix (generateUserPrefix userID) k = true <->
      exists url, k = generateLinkKey userID url) /\
  (forall other url,
      String.prefix (generateUserPrefix userID) (generateLinkKey other url)
      = true ->
      other = userID).
Proof.
  intros H. split; [|split].
  - set (r := run ops emptyRepo) in *.
    assert (Hok : RepoOK r) by apply run_RepoOK, NewBadgerRepository_OK.
    assert (Hst : StoreOK r) by (apply run_StoreOK; constructor).
    destruct (badger.isClosed (db r)) eqn:Hc.
    { rewrite GetLinksByUser_closed in H by assumption.
      injection H as <- _. intros l []. }
    rewrite (GetLinksByUser_open sort_Slice r ctx userID Hok Hc) in H.
    destruct (scanLinks _ _ _) as [ls [e|]] eqn:Hs.
    { injection H as <- _. intros l []. }
    injection H as <- _. intros l Hl.
    apply (Permutation_in _ (sort_Slice_Permutation ls newerFirst)) in Hl.
    destruct (scanLinks_sound _ _ _ _ _ Hs l Hl) as [[]|(e & He & Hp & Hu)].
    apply filter_In in He as [He _].
    unfold StoreOK in Hst. rewrite Forall_forall in Hst.
    destruct (Hst e He) as (l0 & Hk & Hm).
    unfold hasPrefix in Hp. rewrite Hk in Hp.
    apply userPrefix_linkKey in Hp.
    rewrite (Unmarshal_UserID l0 l (snd e) Hm Hu). now symmetry.
  - apply userPrefix_keys.
  - intros other url Hp. symmetry. now apply (userPrefix_linkKey _ _ url).
Qed.

End Isolation.

(** Users 1 and 12 save the same URL, and user 1 two more; the links of
    user 1 are asked for. *)
Lemma GetLinksByUser_isolation_witness :
  (forall l, In l [linkC; linkB; linkA] -> UserID l = 1) /\
  (forall k,
      String.prefix (generateUserPrefix 1) k = true <->
      exists url, k = generateLinkKey 1 url) /\
  (forall other url,
      String.prefix (generateUserPrefix 1) (generateLinkKey other url) = true ->
      other = 1).
Proof.
  apply (GetLinksByUser_isolation insertionSort
           (@insertionSort_Permutation Link)
           [OpSave t0 Background linkA; OpSave t0 Background linkB;
            OpSave t0 Background linkC; OpSave t0 Background linkOther;
            OpDelete Background 2 "https://a.com"]
           Background 1 [linkC; linkB; linkA] None).
  vm_compute. reflexivity.
Defined.

(** ** The records in the store *)

Lemma Unmarshal_of_Marshal (l : Link) (b : string) :
  validLink l -> json.Marshal l = ok b -> json.Unmarshal b = ok l.
Proof.
  intros Hv Hb. destruct (parse_Marshal l b Hb) as (ts & Hts & Hp).
  unfold json.Unmarshal. rewrite Hp. unfold linkTree.
  now rewrite (decodeMembers_linkTree l ts Hv Hts).
Qed.

(** An entry that [SaveLink] wrote for a valid record. *)
Definition entryValid (e : badger.Entry) : Prop :=
  exists l,
    validLink l /\
    fst e = generateLinkKey (UserID l) (URL l) /\
    json.Marshal l = ok (snd e).

(** A repository whose table is sorted and holds such entries only. *)
Definition ValidStore (r : BadgerRepository) : Prop :=
  RepoOK r /\ Forall entryValid (entries r).

(** The entries under the prefix of a user, and the records they
    hold, in key order. *)
Definition userEntries (userID : Z) (t : list badger.Entry)
  : list badger.Entry :=
  filter (hasPrefix (generateUserPrefix userID)) t.

Definition linksOf (userID : Z) (r : BadgerRepository) : list Link :=
  map decoded (userEntries userID (entries r)).

Lemma entryValid_decoded (e : badger.Entry) (l : Link) :
  validLink l -> json.Marshal l = ok (snd e) -> decoded e = l.
Proof.
  intros Hv Hm. unfold decoded. now rewrite (Unmarshal_of_Marshal l _ Hv Hm).
Qed.

Lemma entryValid_decodes (e : badger.Entry) : entryValid e -> decodes e.
Proof.
  intros (l & Hv & _ & Hm). exists l. now apply Unmarshal_of_Marshal.
Qed.

(** Under the prefix of a user a valid entry has the key of that user
    and of the URL of its record. *)
Lemma entryValid_key (userID : Z) (e : badger.Entry) :
  entryValid e -> hasPrefix (generateUserPrefix userID) e = true ->
  validLink (decoded e) /\
  UserID (decoded e) = userID /\
  fst e = generateLinkKey userID (URL (decoded e)).
Proof.
  intros (l & Hv & Hk & Hm) Hp.
  rewrite (entryValid_decoded e l Hv Hm).
  unfold hasPrefix in Hp. rewrite Hk in Hp.
  apply userPrefix_linkKey in Hp. subst userID. auto.
Qed.

(** *** The table under a filter on the keys *)

Lemma get_filter (f : string -> bool) (k : string) (t : list badger.Entry) :
  badger.get k (filter (fun e => f (fst e)) t)
  = if f k then badger.get k t else None.
Proof.
  induction t as [|[k' v'] t IH]; simpl.
  - now destruct (f k).
  - destruct (f k') eqn:Hf; simpl.
    + destruct (String.eqb_spec k k') as [->|N].
      * now rewrite Hf.
      * exact IH.
    + destruct (String.eqb_spec k k') as [->|N].
      * rewrite IH. now rewrite Hf.
      * exact IH.
Qed.

Lemma filter_sorted (f : badger.Entry -> bool) (t : list badger.Entry) :
  sortedTable t -> sortedTable (filter f t).
Proof.
  unfold sortedTable. induction 1 as [|e t Hs IH Hall]; simpl.
  - constructor.
  - destruct (f e); [|assumption].
    constructor; [assumption|].
    apply Forall_forall. intros x Hx. apply filter_In in Hx as [Hx _].
    revert x Hx. now apply Forall_forall.
Qed.

Lemma userEntries_put (userID : Z) (k v : string) (t : list badger.Entry) :
  sortedTable t ->
  userEntries userID (badger.put k v t)
  = if String.prefix (generateUserPrefix userID) k
    then badger.put k v (userEntries userID t)
    else userEntries userID t.
Proof.
  intros Hs. unfold userEntries, hasPrefix.
  destruct (String.prefix (generateUserPrefix userID) k) eqn:Hp;
    apply sortedTable_ext;
    try (repeat first [apply filter_sorted | apply put_sorted]; assumption);
    intros k';
    rewrite ?get_put,
      !(get_filter (String.prefix (generateUserPrefix userID))), ?get_put;
    destruct (String.eqb_spec k' k) as [->|N]; rewrite ?Hp; try reflexivity.
Qed.

Lemma userEntries_remove (userID : Z) (k : string) (t : list badger.Entry) :
  userEntries userID (badger.remove k t)
  = badger.remove k (userEntries userID t).
Proof.
  unfold userEntries. induction t as [|[k' v'] t IH]; [reflexivity|].
  simpl. destruct (String.eqb_spec k k') as [->|N].
  - destruct (hasPrefix _ (k', v')); simpl; [|exact IH].
    now rewrite String.eqb_refl.
  - simpl. destruct (hasPrefix _ (k', v')); simpl; [|exact IH].
    destruct (String.eqb_spec k k'); [contradiction|]. now rewrite IH.
Qed.

(** A key below every key of the table has no entry. *)
Lemma below_absent (k : string) (t : list badger.Entry) :
  Forall (fun e => String.compare k (fst e) = Lt) t -> badger.get k t = None.
Proof.
  induction 1 as [|[k' v'] t Hlt _ IH]; [reflexivity|]. simpl in *.
  destruct (String.eqb_spec k k') as [->|N]; [|exact IH].
  now apply string_compare_lt_irrefl in Hlt.
Qed.

(** In a sorted table the entry put takes the place of the entry of its
    key. *)
Lemma put_Permutation (k v : string) (t : list badger.Entry) :
  sortedTable t ->
  Permutation (badger.put k v t) ((k, v) :: badger.remove k t).
Proof.
  unfold sortedTable. induction 1 as [|[k' v'] t Hs IH Hall]; simpl.
  - reflexivity.
  - unfold keyLt in Hall. simpl in Hall.
    destruct (String.compare k k') eqn:Hc.
    + apply string_compare_eq in Hc. subst k'. rewrite String.eqb_refl.
      now rewrite (remove_absent k t (below_absent k t Hall)).
    + destruct (String.eqb_spec k k') as [->|N].
      { now apply string_compare_lt_irrefl in Hc. }
      rewrite (remove_absent k t); [reflexivity|].
      apply below_absent. eapply Forall_impl; [|exact Hall].
      intros e He. eapply string_compare_lt_trans; eassumption.
    + destruct (String.eqb_spec k k') as [->|N].
      { now rewrite string_compare_refl in Hc. }
      rewrite IH. apply perm_swap.
Qed.

Lemma filter_Permutation {A : Type} (f : A -> bool) (l l' : list A) :
  Permutation l l' -> Permutation (filter f l) (filter f l').
Proof.
  induction 1 as [|x l l' _ IH|x y l|l l' l'' _ IH1 _ IH2]; simpl.
  - constructor.
  - destruct (f x); [now constructor|assumption].
  - destruct (f x), (f y); try reflexivity. apply perm_swap.
  - now transitivity (filter f l').
Qed.

(** The records of a user without the entry of one URL. *)
Lemma decoded_remove (userID : Z) (url : string) (es : list badger.Entry) :
  Forall (fun e => fst e = generateLinkKey userID (URL (decoded e))) es ->
  map decoded (badger.remove (generateLinkKey userID url) es)
  = filter (fun x => negb (String.eqb (URL x) url)) (map decoded es).
Proof.
  induction 1 as [|[k v] es Hk _ IH]; [reflexivity|].
  cbn [map badger.remove filter fst] in *.
  destruct (String.eqb_spec (generateLinkKey userID url) k) as [E|N].
  - rewrite Hk in E. apply generateLinkKey_inj in E as [_ E].
    rewrite <- E, String.eqb_refl. exact IH.
  - destruct (String.eqb_spec (URL (decoded (k, v))) url) as [E|E].
    + exfalso. apply N. now rewrite Hk, E.
    + cbn [negb map]. now rewrite IH.
Qed.

(** *** What the operations do to a valid store *)

Lemma ValidStore_userEntries (userID : Z) (r : BadgerRepository) :
  ValidStore r ->
  Forall (fun e => validLink (decoded e) /\
                   UserID (decoded e) = userID /\
                   fst e = generateLinkKey userID (URL (decoded e)))
    (userEntries userID (entries r)).
Proof.
  intros [_ Hv]. apply Forall_forall. intros e He.
  apply filter_In in He as [He Hp].
  rewrite Forall_forall in Hv. now apply entryValid_key; [apply Hv|].
Qed.

Lemma SaveLink_valid (r : BadgerRepository) (now : time.Time) (ctx : Context)
    (l : Link) :
  ValidStore r -> isOpen r -> validLink (ensureTimestamp now l) ->
  exists b,
    json.Marshal (ensureTimestamp now l) = ok b /\
    SaveLink r now ctx l
    = (mkRepo (badger.mkDB false
                 (badger.put (generateLinkKey (UserID l) (URL l)) b (entries r))),
       None) /\
    ValidStore (fst (SaveLink r now ctx l)).
Proof.
  intros [Hok Hv] Ho Hl. destruct (Marshal_valid _ Hl) as [b Hb].
  exists b. split; [assumption|].
  assert (E : SaveLink r now ctx l
              = (mkRepo (badger.mkDB false
                   (badger.put (generateLinkKey (UserID l) (URL l)) b
                      (entries r))), None)).
  { rewrite SaveLink_cases. cbv zeta. rewrite Hb. now rewrite Ho. }
  split; [assumption|]. rewrite E. split.
  - now apply put_sorted.
  - apply put_Forall; [|assumption].
    exists (ensureTimestamp now l).
    destruct (ensureTimestamp_key now l) as [-> ->]. auto.
Qed.

Lemma DeleteLink_open (r : BadgerRepository) (ctx : Context) (userID : Z)
    (url : string) :
  isOpen r ->
  DeleteLink r ctx userID url
  = (mkRepo (badger.mkDB false
               (badger.remove (generateLinkKey userID url) (entries r))),
     None).
Proof. intros Ho. rewrite DeleteLink_cases. now rewrite Ho. Qed.

Lemma DeleteLink_valid (r : BadgerRepository) (ctx : Context) (userID : Z)
    (url : string) :
  ValidStore r -> ValidStore (fst (DeleteLink r ctx userID url)).
Proof.
  intros [Hok Hv]. rewrite DeleteLink_cases.
  destruct (badger.isClosed (db r)); [now split|].
  split; [now apply remove_sorted | now apply remove_Forall].
Qed.

(** The records of the user after [SaveLink]: the record stored takes
    the place of the record with its URL. *)
Lemma linksOf_SaveLink (r : BadgerRepository) (now : time.Time)
    (ctx : Context) (l : Link) :
  ValidStore r -> isOpen r -> validLink (ensureTimestamp now l) ->
  Permutation (linksOf (UserID l) (fst (SaveLink r now ctx l)))
    (ensureTimestamp now l
     :: filter (fun x => negb (String.eqb (URL x) (URL l)))
          (linksOf (UserID l) r)).
Proof.
  intros Hr Ho Hl.
  destruct (SaveLink_valid r now ctx l Hr Ho Hl) as (b & Hb & -> & _).
  unfold linksOf. cbn [fst entries db badger.table].
  rewrite userEntries_put by apply Hr.
  replace (String.prefix (generateUserPrefix (UserID l))
             (generateLinkKey (UserID l) (URL l))) with true
    by (symmetry; now apply userPrefix_linkKey).
  cbv iota.
  etransitivity;
    [apply Permutation_map, put_Permutation, filter_sorted, Hr|].
  cbn [map]. rewrite (entryValid_decoded (_, b) _ Hl Hb).
  rewrite decoded_remove; [reflexivity|].
  eapply Forall_impl; [|exact (ValidStore_userEntries (UserID l) r Hr)].
  now intros e (_ & _ & He).
Qed.

(** The records of the user after [DeleteLink]: those with another
    URL, in the order they had. *)
Lemma linksOf_DeleteLink (r : BadgerRepository) (ctx : Context) (userID : Z)
    (url : string) :
  ValidStore r -> isOpen r ->
  linksOf userID (fst (DeleteLink r ctx userID url))
  = filter (fun x => negb (String.eqb (URL x) url)) (linksOf userID r).
Proof.
  intros Hr Ho. rewrite DeleteLink_open by assumption.
  unfold linksOf. cbn [fst entries db badger.table].
  rewrite userEntries_remove. apply decoded_remove.
  eapply Forall_impl; [|exact (ValidStore_userEntries userID r Hr)].
  now intros e (_ & _ & He).
Qed.

(** The key an operation writes. *)
Definition opKey (o : operation) : option string :=
  match o with
  | OpSave _ _ l => Some (generateLinkKey (UserID l) (URL l))
  | OpDelete _ userID url => Some (generateLinkKey userID url)
  | OpClose => None
  end.

Definition opUser (o : operation) : option Z :=
  match o with
  | OpSave _ _ l => Some (UserID l)
  | OpDelete _ userID _ => Some userID
  | OpClose => None
  end.

(** An operation of one user leaves the entries of another user as
    they are. *)
Lemma userEntries_perform (r : BadgerRepository) (o : operation)
    (userID other : Z) :
  RepoOK r -> opUser o = Some other -> other <> userID ->
  userEntries userID (entries (perform r o)) = userEntries userID (entries r).
Proof.
  intros Hok Ho Hne.
  assert (Hp : forall url,
             String.prefix (generateUserPrefix userID)
               (generateLinkKey other url) = false).
  { intros url. destruct (String.prefix _ _) eqn:E; [|reflexivity].
    apply userPrefix_linkKey in E. congruence. }
  destruct o as [now ctx l|ctx u url|]; cbn [opUser] in Ho;
    [| |discriminate]; injection Ho as Ho; cbn [perform].
  - rewrite SaveLink_cases. cbv zeta.
    destruct (json.Marshal _); [|reflexivity].
    destruct (badger.isClosed (db r)); [reflexivity|].
    cbn [fst entries db badger.table].
    rewrite userEntries_put by assumption. now rewrite Ho, Hp.
  - rewrite DeleteLink_cases.
    destruct (badger.isClosed (db r)); [reflexivity|].
    cbn [fst entries db badger.table]. subst u.
    rewrite userEntries_remove. apply remove_absent.
    unfold userEntries.
    rewrite (get_filter (String.prefix (generateUserPrefix userID))).
    now rewrite Hp.
Qed.

(** The entries of a run are entries of the table it started from or
    were written by a [SaveLink] of the run. *)
Definition savedBy (ops : list operation) (e : badger.Entry) : Prop :=
  exists now ctx l,
    In (OpSave now ctx l) ops /\
    fst e = generateLinkKey (UserID l) (URL l) /\
    json.Marshal (ensureTimestamp now l) = ok (snd e).

Lemma run_saved (ops : list operation) :
  forall r e,
    In e (entries (run ops r)) -> In e (entries r) \/ savedBy ops e.
Proof.
  induction ops as [|o ops IH]; intros r e He; [now left|].
  cbn [run fold_left] in He.
  apply IH in He as [He|(now & ctx & l & Hin & Hk)].
  - destruct o as [now ctx l|ctx u url|]; cbn [perform] in He.
    + rewrite SaveLink_cases in He. cbv zeta in He.
      destruct (json.Marshal _) as [b|err] eqn:Hm; [|now left].
      destruct (badger.isClosed (db r)); [now left|].
      cbn [fst entries db badger.table] in He.
      apply put_In in He as [->|He]; [|now left].
      right. exists now, ctx, l. split; [now left|]. now split.
    + rewrite DeleteLink_cases in He.
      destruct (badger.isClosed (db r)); [now left|].
      cbn [fst entries db badger.table] in He.
      apply remove_In in He as [He _]. now left.
    + now left.
  - right. exists now, ctx, l. split; [now right|assumption].
Qed.

Lemma perform_ValidStore (r : BadgerRepository) (o : operation) :
  (forall now ctx l, o = OpSave now ctx l -> validLink (ensureTimestamp now l)) ->
  ValidStore r -> ValidStore (perform r o).
Proof.
  intros Hl Hr. destruct o as [now ctx l|ctx u url|]; cbn [perform].
  - destruct (badger.isClosed (db r)) eqn:Hc.
    + rewrite SaveLink_cases. cbv zeta.
      destruct (json.Marshal _); [|assumption]. now rewrite Hc.
    + now destruct (SaveLink_valid r now ctx l Hr Hc (Hl _ _ _ eq_refl))
        as (_ & _ & _ & H).
  - now apply DeleteLink_valid.
  - exact Hr.
Qed.

Lemma run_ValidStore (ops : list operation) :
  (forall now ctx l,
      In (OpSave now ctx l) ops -> validLink (ensureTimestamp now l)) ->
  forall r, ValidStore r -> ValidStore (run ops r).
Proof.
  induction ops as [|o ops IH]; intros Hl r Hr; [assumption|].
  cbn [run fold_left]. apply IH.
  - intros now ctx l Hin. apply (Hl now ctx l). now right.
  - apply perform_ValidStore; [|assumption].
    intros now ctx l ->. apply (Hl now ctx l). now left.
Qed.

Lemma emptyRepo_ValidStore : ValidStore emptyRepo.
Proof. split; constructor. Qed.

Section Records.

Variable sort_Slice : list Link -> (Link -> Link -> bool) -> list Link.

(** On a valid open store [GetLinksByUser] returns the records of the
    user, sorted. *)
Lemma GetLinksByUser_valid (r : BadgerRepository) (ctx : Context)
    (userID : Z) :
  ValidStore r -> isOpen r ->
  GetLinksByUser sort_Slice r ctx userID
  = (sort_Slice (linksOf userID r) newerFirst, None).
Proof.
  intros Hr Ho.
  rewrite (GetLinksByUser_open sort_Slice r ctx userID (proj1 Hr) Ho).
  rewrite scanLinks_all; [reflexivity| |].
  - apply Forall_forall. intros e He. now apply filter_In in He.
  - apply Forall_forall. intros e He. apply filter_In in He as [He _].
    destruct Hr as [_ Hv]. rewrite Forall_forall in Hv.
    now apply entryValid_decodes, Hv.
Qed.

Hypothesis sort_Slice_Permutation :
  forall l less, Permutation (sort_Slice l less) l.
Hypothesis sort_Slice_sorted :
  forall l less, StrictWeakOrder less -> SortedBy less (sort_Slice l less).

(** X1. A user for whom the run of operations saved nothing has no
    links: on the open store [GetLinksByUser] returns an empty slice
    and no error. *)
Theorem GetLinksByUser_unknown_user (ops : list operation) (ctx : Context)
    (userID : Z) :
  (forall now c l, In (OpSave now c l) ops -> UserID l <> userID) ->
  isOpen (run ops emptyRepo) ->
  GetLinksByUser sort_Slice (run ops emptyRepo) ctx userID = ([], None).
Proof.
  intros Hops Ho.
  assert (Hok : RepoOK (run ops emptyRepo))
    by apply run_RepoOK, NewBadgerRepository_OK.
  rewrite (GetLinksByUser_open sort_Slice _ ctx userID Hok Ho).
  rewrite filter_none.
  - cbn [scanLinks]. f_equal. apply Permutation_nil. symmetry.
    apply sort_Slice_Permutation.
  - intros e He. apply run_saved in He as [[]|(now & c & l & Hin & Hk & _)].
    unfold hasPrefix. rewrite Hk.
    destruct (String.prefix _ _) eqn:E; [|reflexivity].
    apply userPrefix_linkKey in E. symmetry in E. now apply Hops in Hin.
Qed.

(** X2. A record saved is read back: after [SaveLink] of a valid
    record on a valid open store, [GetLinksByUser] for its user returns,
    without error, the record as stored (timestamp set when it was
    zero) together with the links the user had under other URLs; the
    link that had the URL of the record is replaced. *)
Theorem SaveLink_then_GetLinksByUser (r : BadgerRepository)
    (now : time.Time) (ctx ctx1 ctx2 : Context) (l : Link) :
  ValidStore r -> isOpen r -> validLink (ensureTimestamp now l) ->
  exists old links,
    snd (SaveLink r now ctx l) = None /\
    GetLinksByUser sort_Slice r ctx1 (UserID l) = (old, None) /\
    GetLinksByUser sort_Slice (fst (SaveLink r now ctx l)) ctx2 (UserID l)
    = (links, None) /\
    Permutation links
      (ensureTimestamp now l
       :: filter (fun x => negb (String.eqb (URL x) (URL l))) old).
Proof.
  intros Hr Ho Hl.
  destruct (SaveLink_valid r now ctx l Hr Ho Hl) as (b & Hb & E & Hr').
  exists (sort_Slice (linksOf (UserID l) r) newerFirst),
    (sort_Slice (linksOf (UserID l) (fst (SaveLink r now ctx l))) newerFirst).
  split; [now rewrite E|]. split; [now apply GetLinksByUser_valid|].
  split.
  - apply GetLinksByUser_valid; [assumption|]. now rewrite E.
  - rewrite sort_Slice_Permutation.
    rewrite (linksOf_SaveLink r now ctx l Hr Ho Hl).
    apply perm_skip, filter_Permutation. symmetry.
    apply sort_Slice_Permutation.
Qed.

(** X3. A record deleted is gone, and only it: after [DeleteLink] on a
    valid open store, [GetLinksByUser] for the user returns, without
    error, the links the user had under the other URLs. *)
Theorem DeleteLink_then_GetLinksByUser (r : BadgerRepository)
    (ctx ctx1 ctx2 : Context) (userID : Z) (url : string) :
  ValidStore r -> isOpen r ->
  exists old links,
    snd (DeleteLink r ctx userID url) = None /\
    GetLinksByUser sort_Slice r ctx1 userID = (old, None) /\
    GetLinksByUser sort_Slice (fst (DeleteLink r ctx userID url)) ctx2 userID
    = (links, None) /\
    Permutation links (filter (fun x => negb (String.eqb (URL x) url)) old) /\
    (forall x, In x links -> URL x <> url).
Proof.
  intros Hr Ho.
  exists (sort_Slice (linksOf userID r) newerFirst),
    (sort_Slice (linksOf userID (fst (DeleteLink r ctx userID url))) newerFirst).
  assert (Hp : Permutation
                 (sort_Slice (linksOf userID (fst (DeleteLink r ctx userID url)))
                    newerFirst)
                 (filter (fun x => negb (String.eqb (URL x) url))
                    (sort_Slice (linksOf userID r) newerFirst))).
  { rewrite sort_Slice_Permutation.
    rewrite (linksOf_DeleteLink r ctx userID url Hr Ho).
    apply filter_Permutation. symmetry. apply sort_Slice_Permutation. }
  split; [now rewrite DeleteLink_open|].
  split; [now apply GetLinksByUser_valid|]. split; [|split].
  - apply GetLinksByUser_valid; [now apply DeleteLink_valid|].
    now rewrite DeleteLink_open.
  - exact Hp.
  - intros x Hx. apply (Permutation_in _ Hp) in Hx.
    apply filter_In in Hx as [_ Hx]. intros E.
    apply (proj2 (String.eqb_eq _ _)) in E. now rewrite E in Hx.
Qed.

End Records.

(** X4. What one user saves or deletes does not change what another
    user gets: [GetLinksByUser] returns the same links and the same
    error before and after the operation. *)
Theorem other_user_unaffected
    (sort_Slice : list Link -> (Link -> Link -> bool) -> list Link)
    (r : BadgerRepository) (o : operation) (ctx : Context)
    (userID other : Z) :
  RepoOK r -> opUser o = Some other -> other <> userID ->
  GetLinksByUser sort_Slice (perform r o) ctx userID
  = GetLinksByUser sort_Slice r ctx userID.
Proof.
  intros Hok Ho Hne.
  destruct (badger.isClosed (db r)) eqn:Hc.
  - rewrite !GetLinksByUser_closed; [reflexivity|assumption|].
    now apply perform_closed.
  - assert (Hc' : isOpen (perform r o)).
    { destruct o as [now c l|c u url|]; [| |discriminate]; cbn [perform].
      - rewrite SaveLink_cases. cbv zeta.
        destruct (json.Marshal _); [|assumption]. now rewrite Hc.
      - rewrite DeleteLink_cases. now rewrite Hc. }
    rewrite !GetLinksByUser_open;
      [|assumption|assumption|now apply perform_RepoOK|assumption].
    fold (userEntries userID (entries (perform r o))).
    fold (userEntries userID (entries r)).
    now rewrite (userEntries_perform r o userID other Hok Ho Hne).
Qed.

(** *** When [SaveLink] succeeds *)




(** *** How the operations compose *)

Lemma put_put (k v v' : string) (t : list badger.Entry) :
  sortedTable t -> badger.put k v' (badger.put k v t) = badger.put k v' t.
Proof.
  intros Hs.
  apply sortedTable_ext; try (repeat apply put_sorted; assumption).
  intros k'. rewrite !get_put. now destruct (String.eqb k' k).
Qed.

Lemma remove_put (k v : string) (t : list badger.Entry) :
  sortedTable t -> badger.get k t = None ->
  badger.remove k (badger.put k v t) = t.
Proof.
  intros Hs Hk.
  apply sortedTable_ext; [now apply remove_sorted, put_sorted|assumption|].
  intros k'. rewrite get_remove, get_put.
  now destruct (String.eqb_spec k' k) as [->|N].
Qed.

Lemma repo_open_eta (r : BadgerRepository) :
  isOpen r -> mkRepo (badger.mkDB false (entries r)) = r.
Proof. destruct r as [[c t]]. unfold isOpen. simpl. now intros ->. Qed.

(** X9. Saving the same record again changes nothing: when the record
    has a timestamp of its own, the store after the second [SaveLink]
    is the store after the first, and the second call returns what the
    first returned. *)
Theorem SaveLink_again (r : BadgerRepository) (now1 now2 : time.Time)
    (ctx1 ctx2 : Context) (l : Link) :
  RepoOK r -> time.IsZero (Timestamp l) = false ->
  SaveLink (fst (SaveLink r now1 ctx1 l)) now2 ctx2 l = SaveLink r now1 ctx1 l.
Proof.
  intros Hok Hz. rewrite !SaveLink_cases. cbv zeta.
  unfold ensureTimestamp. rewrite Hz.
  destruct (json.Marshal l) as [b|e]; [|reflexivity].
  destruct (badger.isClosed (db r)) eqn:Hc; cbn [fst]; [now rewrite Hc|].
  cbn [db badger.isClosed entries badger.table].
  now rewrite put_put.
Qed.

(** X10. Deleting a record just saved under a key that had no entry
    gives the store back as it was, whether the save succeeded or
    not. *)
Theorem SaveLink_then_DeleteLink (r : BadgerRepository) (now : time.Time)
    (ctx1 ctx2 : Context) (l : Link) :
  RepoOK r ->
  badger.get (generateLinkKey (UserID l) (URL l)) (entries r) = None ->
  fst (DeleteLink (fst (SaveLink r now ctx1 l)) ctx2 (UserID l) (URL l)) = r.
Proof.
  intros Hok Hk. rewrite SaveLink_cases. cbv zeta.
  assert (Hr : fst (DeleteLink r ctx2 (UserID l) (URL l)) = r).
  { rewrite DeleteLink_cases.
    destruct (badger.isClosed (db r)) eqn:Hc; [reflexivity|].
    cbn [fst]. rewrite remove_absent by assumption.
    now apply repo_open_eta. }
  destruct (json.Marshal _) as [b|e]; [|exact Hr].
  destruct (badger.isClosed (db r)) eqn:Hc; [exact Hr|].
  cbn [fst]. rewrite DeleteLink_cases.
  cbn [db badger.isClosed entries badger.table fst].
  rewrite remove_put by assumption. now apply repo_open_eta.
Qed.

(** The table after an operation on an open store. *)
Definition opTable (o : operation) (t : list badger.Entry)
  : list badger.Entry :=
  match o with
  | OpSave now _ l =>
    match json.Marshal (ensureTimestamp now l) with
    | ok b => badger.put (generateLinkKey (UserID l) (URL l)) b t
    | fail _ => t
    end
  | OpDelete _ userID url => badger.remove (generateLinkKey userID url) t
  | OpClose => t
  end.

Lemma perform_open (r : BadgerRepository) (o : operation) :
  isOpen r -> o <> OpClose ->
  perform r o = mkRepo (badger.mkDB false (opTable o (entries r))).
Proof.
  intros Ho Hne. destruct o as [now ctx l|ctx u url|]; [| |congruence];
    cbn [perform opTable].
  - rewrite SaveLink_cases. cbv zeta.
    destruct (json.Marshal _); [|now rewrite repo_open_eta].
    now rewrite Ho.
  - now rewrite DeleteLink_open.
Qed.

Lemma opTable_sorted (o : operation) (t : list badger.Entry) :
  sortedTable t -> sortedTable (opTable o t).
Proof.
  intros Hs. destruct o as [now ctx l|ctx u url|]; cbn [opTable].
  - destruct (json.Marshal _); [now apply put_sorted|assumption].
  - now apply remove_sorted.
  - assumption.
Qed.

(** An operation changes the entry of its key only. *)
Lemma get_opTable (o : operation) (k k' : string) (t : list badger.Entry) :
  opKey o = Some k -> k' <> k ->
  badger.get k' (opTable o t) = badger.get k' t.
Proof.
  intros Ho Hne.
  destruct o as [now ctx l|ctx u url|]; cbn [opKey opTable] in *;
    [| |discriminate]; injection Ho as <-.
  - destruct (json.Marshal _); [|reflexivity].
    rewrite get_put. now destruct (String.eqb_spec k' (generateLinkKey (UserID l) (URL l))).
  - rewrite get_remove.
    now destruct (String.eqb_spec k' (generateLinkKey u url)).
Qed.

(** The entry of its key after an operation does not depend on the
    table. *)
Lemma get_opTable_key (o : operation) (k : string) (t t' : list badger.Entry) :
  opKey o = Some k ->
  (badger.get k t' = badger.get k t ->
   badger.get k (opTable o t') = badger.get k (opTable o t)).
Proof.
  intros Ho Hg.
  destruct o as [now ctx l|ctx u url|]; cbn [opKey opTable] in *;
    [| |discriminate]; injection Ho as <-.
  - destruct (json.Marshal _); [|assumption].
    now rewrite !get_put, String.eqb_refl.
  - now rewrite !get_remove, String.eqb_refl.
Qed.

(** X11. Operations on different keys commute: two saves or deletes of
    different (user, URL) pairs leave the same store in either
    order. *)
Theorem operations_commute (r : BadgerRepository) (o1 o2 : operation)
    (k1 k2 : string) :
  RepoOK r -> opKey o1 = Some k1 -> opKey o2 = Some k2 -> k1 <> k2 ->
  perform (perform r o1) o2 = perform (perform r o2) o1.
Proof.
  intros Hok H1 H2 Hne.
  assert (N1 : o1 <> OpClose) by (intros ->; discriminate).
  assert (N2 : o2 <> OpClose) by (intros ->; discriminate).
  destruct (badger.isClosed (db r)) eqn:Hc.
  - assert (E : forall o, o <> OpClose -> perform r o = r).
    { intros [now ctx l|ctx u url|] N; [| |congruence]; cbn [perform].
      - rewrite SaveLink_cases. cbv zeta.
        destruct (json.Marshal _); [|reflexivity]. now rewrite Hc.
      - rewrite DeleteLink_cases. now rewrite Hc. }
    now rewrite !E.
  - rewrite (perform_open r o1 Hc N1), (perform_open r o2 Hc N2).
    rewrite !perform_open by (assumption || reflexivity).
    cbn [entries db badger.table]. do 2 f_equal.
    apply sortedTable_ext; try (repeat apply opTable_sorted; assumption).
    intros k.
    destruct (String.eqb_spec k k1) as [->|Nk1].
    + rewrite (get_opTable o2 k2 k1) by assumption.
      apply (get_opTable_key o1 k1); [assumption|].
      symmetry. now apply (get_opTable o2 k2 k1).
    + rewrite (get_opTable o1 k1 k _ H1 Nk1).
      destruct (String.eqb_spec k k2) as [->|Nk2].
      * apply (get_opTable_key o2 k2); [assumption|].
        now apply (get_opTable o1 k1 k2).
      * rewrite !(get_opTable o2 k2 k) by assumption.
        now rewrite (get_opTable o1 k1 k).
Qed.

(** *** The keys of a user in key order *)

(** X8. The keys of a user are contiguous in the order of the keys: a
    key between two link keys of a user is a link key of that user, so
    the scan from the prefix of the user meets all the entries of the
    user before the first key of anyone else. *)
Theorem user_keys_contiguous (userID : Z) (url1 url2 k : string) :
  String.compare (generateLinkKey userID url1) k = Lt ->
  String.compare k (generateLinkKey userID url2) = Lt ->
  exists url, k = generateLinkKey userID url.
Proof.
  intros H1 H2. apply userPrefix_key.
  destruct (String.prefix (generateUserPrefix userID) k) eqn:Hp;
    [reflexivity|].
  assert (Hk : String.compare k (generateUserPrefix userID) <> Lt).
  { intros Hlt.
    pose proof (string_compare_lt_trans _ _ _ H1 Hlt) as H.
    apply prefix_not_below in H.
    assert (Ht : String.prefix (generateUserPrefix userID)
                   (generateLinkKey userID url1) = true)
      by now apply userPrefix_linkKey.
    congruence. }
  pose proof (prefix_interval _ _ _ Hk Hp H2) as H.
  assert (Ht : String.prefix (generateUserPrefix userID)
                 (generateLinkKey userID url2) = true)
    by now apply userPrefix_linkKey.
  congruence.
Qed.

(** *** The layout of the stored value *)

(** X12. The bytes [json.Marshal] writes for a record are a JSON
    object whose keys are the names of the struct tags in the order of
    the fields; [tags] is left out when the record has no tags and
    [preview_image_url] when the preview image URL is empty. *)
Theorem Marshal_layout (l : Link) (b : string) :
  json.Marshal l = ok b ->
  exists ms,
    json.parse b = Some (json.JObject ms) /\
    map fst ms
    = ["url"; "title"; "description"; "user_id"; "timestamp"]%string
      ++ (match Tags l with [] => [] | _ => ["tags"%string] end)
      ++ ["read"%string]
      ++ (match PreviewImageURL l with
          | EmptyString => []
          | _ => ["preview_image_url"%string]
          end).
Proof.
  intros Hm. destruct (parse_Marshal l b Hm) as (ts & _ & Hp).
  exists (linkMembers l ts). split; [exact Hp|].
  unfold linkMembers. rewrite !map_app.
  now destruct (Tags l), (PreviewImageURL l).
Qed.

(** *** Runs of operations *)

Lemma sorted_pair {A : Type} (less : A -> A -> bool) (l : list A) (a b : A) :
  SortedBy less l -> Permutation l [b; a] -> less b a = true -> l = [b; a].
Proof.
  intros Hs Hp Hba. symmetry in Hp.
  apply Permutation_length_2_inv in Hp as [->| ->]; [reflexivity|].
  exfalso. inversion Hs as [|? ? _ Hall]; subst.
  inversion Hall as [|? ? Hb _]; subst. congruence.
Qed.

(** Two records of a user under different URLs saved on a new store. *)
Lemma linksOf_two_saves (a b : Link) (now1 now2 : time.Time)
    (c1 c2 : Context) :
  validLink (ensureTimestamp now1 a) ->
  validLink (ensureTimestamp now2 b) ->
  UserID b = UserID a -> URL b <> URL a ->
  let r2 := run [OpSave now1 c1 a; OpSave now2 c2 b] emptyRepo in
  ValidStore r2 /\ isOpen r2 /\
  Permutation (linksOf (UserID a) r2)
    [ensureTimestamp now2 b; ensureTimestamp now1 a].
Proof.
  intros Ha Hb Hu Hurl. cbn [run fold_left perform].
  set (r1 := fst (SaveLink emptyRepo now1 c1 a)).
  pose proof emptyRepo_ValidStore as V0.
  assert (O0 : isOpen emptyRepo) by reflexivity.
  destruct (SaveLink_valid emptyRepo now1 c1 a V0 O0 Ha) as (b1 & _ & E1 & V1).
  assert (O1 : isOpen r1) by (subst r1; now rewrite E1).
  fold r1 in V1.
  destruct (SaveLink_valid r1 now2 c2 b V1 O1 Hb) as (b2 & _ & E2 & V2).
  cbv zeta. split; [assumption|]. split; [now rewrite E2|].
  assert (P1 : Permutation (linksOf (UserID a) r1) [ensureTimestamp now1 a]).
  { subst r1. now rewrite (linksOf_SaveLink emptyRepo now1 c1 a V0 O0 Ha). }
  assert (Ua : URL (ensureTimestamp now1 a) = URL a)
    by apply ensureTimestamp_key.
  rewrite <- Hu.
  rewrite (linksOf_SaveLink r1 now2 c2 b V1 O1 Hb). apply perm_skip.
  rewrite Hu, (filter_Permutation _ _ _ P1). cbn [filter]. rewrite Ua.
  destruct (String.eqb_spec (URL a) (URL b)) as [E|_]; [congruence|].
  reflexivity.
Qed.

Section Runs.

Variable sort_Slice : list Link -> (Link -> Link -> bool) -> list Link.

Hypothesis sort_Slice_Permutation :
  forall l less, Permutation (sort_Slice l less) l.
Hypothesis sort_Slice_sorted :
  forall l less, StrictWeakOrder less -> SortedBy less (sort_Slice l less).

(** X6. Two links of a user saved on a new store, then one deleted:
    after the two saves [GetLinksByUser] returns the newer link and then
    the older one, and after [DeleteLink] of the older one it returns the
    newer one alone. *)
Theorem save_save_delete (a b : Link) (now1 now2 : time.Time)
    (c1 c2 c3 c4 c5 : Context) :
  validLink (ensureTimestamp now1 a) ->
  validLink (ensureTimestamp now2 b) ->
  UserID b = UserID a -> URL b <> URL a ->
  time.After (Timestamp (ensureTimestamp now2 b))
    (Timestamp (ensureTimestamp now1 a)) = true ->
  GetLinksByUser sort_Slice
    (run [OpSave now1 c1 a; OpSave now2 c2 b] emptyRepo) c3 (UserID a)
  = ([ensureTimestamp now2 b; ensureTimestamp now1 a], None) /\
  GetLinksByUser sort_Slice
    (run [OpSave now1 c1 a; OpSave now2 c2 b; OpDelete c4 (UserID a) (URL a)]
       emptyRepo) c5 (UserID a)
  = ([ensureTimestamp now2 b], None).
Proof.
  intros Ha Hb Hu Hurl Hafter.
  cbn [run fold_left perform].
  set (r1 := fst (SaveLink emptyRepo now1 c1 a)).
  set (r2 := fst (SaveLink r1 now2 c2 b)).
  set (r3 := fst (DeleteLink r2 c4 (UserID a) (URL a))).
  pose proof emptyRepo_ValidStore as V0.
  assert (O0 : isOpen emptyRepo) by reflexivity.
  destruct (SaveLink_valid emptyRepo now1 c1 a V0 O0 Ha) as (b1 & _ & E1 & V1).
  assert (O1 : isOpen r1) by (subst r1; now rewrite E1).
  fold r1 in V1.
  destruct (SaveLink_valid r1 now2 c2 b V1 O1 Hb) as (b2 & _ & E2 & V2).
  assert (O2 : isOpen r2) by (subst r2; now rewrite E2).
  fold r2 in V2.
  assert (V3 : ValidStore r3) by now apply DeleteLink_valid.
  assert (O3 : isOpen r3) by (subst r3; now rewrite DeleteLink_open).
  assert (P1 : Permutation (linksOf (UserID a) r1) [ensureTimestamp now1 a]).
  { subst r1. now rewrite (linksOf_SaveLink emptyRepo now1 c1 a V0 O0 Ha). }
  assert (Ua : URL (ensureTimestamp now1 a) = URL a)
    by apply ensureTimestamp_key.
  assert (Ub : URL (ensureTimestamp now2 b) = URL b)
    by apply ensureTimestamp_key.
  assert (P2 : Permutation (linksOf (UserID a) r2)
                 [ensureTimestamp now2 b; ensureTimestamp now1 a]).
  { subst r2. rewrite <- Hu.
    rewrite (linksOf_SaveLink r1 now2 c2 b V1 O1 Hb). apply perm_skip.
    rewrite Hu, (filter_Permutation _ _ _ P1). cbn [filter]. rewrite Ua.
    destruct (String.eqb_spec (URL a) (URL b)) as [E|_]; [congruence|].
    reflexivity. }
  assert (P3 : linksOf (UserID a) r3
               = filter (fun x => negb (String.eqb (URL x) (URL a)))
                   (linksOf (UserID a) r2)).
  { subst r3. now apply linksOf_DeleteLink. }
  split.
  - rewrite (GetLinksByUser_valid sort_Slice r2 c3 (UserID a) V2 O2).
    f_equal. apply (sorted_pair newerFirst).
    + apply sort_Slice_sorted, newerFirst_swo.
    + now rewrite sort_Slice_Permutation.
    + exact Hafter.
  - rewrite (GetLinksByUser_valid sort_Slice r3 c5 (UserID a) V3 O3).
    f_equal. apply Permutation_length_1_inv. symmetry.
    rewrite sort_Slice_Permutation, P3, (filter_Permutation _ _ _ P2).
    cbn [filter]. rewrite Ua, Ub, String.eqb_refl.
    destruct (String.eqb_spec (URL b) (URL a)) as [E|_]; [congruence|].
    reflexivity.
Qed.

(** X7. What the store wrote it reads back: after any run of
    operations on a new store in which every record saved is valid,
    [GetLinksByUser] on the open store returns no error, and every link
    it returns is a record some [SaveLink] of the run stored, with the
    user ID asked for. *)
Theorem GetLinksByUser_after_valid_saves (ops : list operation)
    (ctx : Context) (userID : Z) :
  (forall now c l,
      In (OpSave now c l) ops -> validLink (ensureTimestamp now l)) ->
  isOpen (run ops emptyRepo) ->
  exists links,
    GetLinksByUser sort_Slice (run ops emptyRepo) ctx userID = (links, None) /\
    forall x, In x links ->
      UserID x = userID /\
      exists now c l, In (OpSave now c l) ops /\ x = ensureTimestamp now l.
Proof.
  intros Hops Ho.
  pose proof (run_ValidStore ops Hops _ emptyRepo_ValidStore) as Hv.
  exists (sort_Slice (linksOf userID (run ops emptyRepo)) newerFirst).
  split; [now apply GetLinksByUser_valid|].
  intros x Hx. apply (Permutation_in _ (sort_Slice_Permutation _ _)) in Hx.
  apply in_map_iff in Hx as (e & <- & He).
  pose proof (ValidStore_userEntries userID _ Hv) as Hk.
  rewrite Forall_forall in Hk. destruct (Hk e He) as (_ & Hu & _).
  split; [exact Hu|].
  apply filter_In in He as [He _].
  apply run_saved in He as [[]|(now & c & l & Hin & _ & Hm)].
  exists now, c, l. split; [assumption|].
  now apply entryValid_decoded; [apply (Hops now c l)|].
Qed.

(** X17. A record saved again under its URL takes the place of the
    old one: after two links of a user are saved on a new store and the
    first is saved again with other contents and the newest timestamp,
    [GetLinksByUser] returns two links, the record saved last first. *)
Theorem save_overwrite (a b a2 : Link) (now1 now2 now3 : time.Time)
    (c1 c2 c3 c4 : Context) :
  validLink (ensureTimestamp now1 a) ->
  validLink (ensureTimestamp now2 b) ->
  validLink (ensureTimestamp now3 a2) ->
  UserID b = UserID a -> URL b <> URL a ->
  UserID a2 = UserID a -> URL a2 = URL a ->
  time.After (Timestamp (ensureTimestamp now3 a2))
    (Timestamp (ensureTimestamp now2 b)) = true ->
  GetLinksByUser sort_Slice
    (run [OpSave now1 c1 a; OpSave now2 c2 b; OpSave now3 c3 a2] emptyRepo)
    c4 (UserID a)
  = ([ensureTimestamp now3 a2; ensureTimestamp now2 b], None).
Proof.
  intros Ha Hb Ha2 Hu Hurl Hu2 Hurl2 Hafter.
  destruct (linksOf_two_saves a b now1 now2 c1 c2 Ha Hb Hu Hurl)
    as (V2 & O2 & P2).
  change (run [OpSave now1 c1 a; OpSave now2 c2 b; OpSave now3 c3 a2] emptyRepo)
    with (fst (SaveLink (run [OpSave now1 c1 a; OpSave now2 c2 b] emptyRepo)
                 now3 c3 a2)).
  set (r2 := run [OpSave now1 c1 a; OpSave now2 c2 b] emptyRepo) in *.
  destruct (SaveLink_valid r2 now3 c3 a2 V2 O2 Ha2) as (b3 & _ & E3 & V3).
  assert (O3 : isOpen (fst (SaveLink r2 now3 c3 a2))) by now rewrite E3.
  rewrite (GetLinksByUser_valid sort_Slice _ c4 (UserID a) V3 O3).
  f_equal. apply (sorted_pair newerFirst).
  - apply sort_Slice_sorted, newerFirst_swo.
  - rewrite sort_Slice_Permutation. rewrite <- Hu2.
    rewrite (linksOf_SaveLink r2 now3 c3 a2 V2 O2 Ha2). apply perm_skip.
    rewrite Hu2, (filter_Permutation _ _ _ P2). cbn [filter].
    destruct (ensureTimestamp_key now1 a) as [_ ->].
    destruct (ensureTimestamp_key now2 b) as [_ ->].
    rewrite Hurl2, String.eqb_refl.
    destruct (String.eqb_spec (URL b) (URL a)) as [E|_]; [congruence|].
    reflexivity.
  - exact Hafter.
Qed.

End Runs.

(** *** Examples *)

Ltac link_valid :=
  constructor;
  try (vm_compute; reflexivity);
  try (repeat constructor; vm_compute; reflexivity);
  try (repeat split; vm_compute; (reflexivity || discriminate)).

Lemma linkA_valid : validLink linkA.
Proof. link_valid. Qed.

Lemma linkB_valid : validLink linkB.
Proof. link_valid. Qed.

Lemma linkC_valid : validLink linkC.
Proof. link_valid. Qed.

Lemma linkOther_valid : validLink linkOther.
Proof. link_valid. Qed.

Lemma linkA'_valid : validLink (ensureTimestamp t2 linkA').
Proof. link_valid. Qed.

Lemma repoABC_saves (now : time.Time) (c : Context) (l : Link) :
  In (OpSave now c l)
    [OpSave t0 Background linkA; OpSave t0 Background linkB;
     OpSave t0 Background linkC; OpSave t0 Background linkOther] ->
  validLink (ensureTimestamp now l).
Proof.
  intros [H|[H|[H|[H|[]]]]]; injection H as <- _ <-.
  - exact linkA_valid.
  - exact linkB_valid.
  - exact linkC_valid.
  - exact linkOther_valid.
Qed.

Lemma repoABC_valid : ValidStore repoABC.
Proof. exact (run_ValidStore _ repoABC_saves _ emptyRepo_ValidStore). Qed.

Lemma GetLinksByUser_unknown_user_witness :
  GetLinksByUser insertionSort repoABC Background 5 = ([], None).
Proof.
  apply (GetLinksByUser_unknown_user insertionSort
           (@insertionSort_Permutation Link)
           [OpSave t0 Background linkA; OpSave t0 Background linkB;
            OpSave t0 Background linkC; OpSave t0 Background linkOther]
           Background 5).
  - intros now c l [H|[H|[H|[H|[]]]]]; injection H as _ _ <-;
      vm_compute; discriminate.
  - vm_compute. reflexivity.
Defined.

Lemma SaveLink_then_GetLinksByUser_witness :
  exists old links,
    snd (SaveLink repoABC t2 cancelled linkA') = None /\
    GetLinksByUser insertionSort repoABC Background (UserID linkA')
    = (old, None) /\
    GetLinksByUser insertionSort
      (fst (SaveLink repoABC t2 cancelled linkA')) Background
      (UserID linkA')
    = (links, None) /\
    Permutation links
      (ensureTimestamp t2 linkA'
       :: filter (fun x => negb (String.eqb (URL x) (URL linkA'))) old).
Proof.
  apply (SaveLink_then_GetLinksByUser insertionSort
           (@insertionSort_Permutation Link) repoABC t2
           cancelled Background Background linkA').
  - exact repoABC_valid.
  - vm_compute. reflexivity.
  - exact linkA'_valid.
Defined.

Lemma DeleteLink_then_GetLinksByUser_witness :
  exists old links,
    snd (DeleteLink repoABC Background 1 "https://b.com") = None /\
    GetLinksByUser insertionSort repoABC Background 1 = (old, None) /\
    GetLinksByUser insertionSort
      (fst (DeleteLink repoABC Background 1 "https://b.com")) Background 1
    = (links, None) /\
    Permutation links
      (filter (fun x => negb (String.eqb (URL x) "https://b.com")) old) /\
    (forall x, In x links -> URL x <> "https://b.com"%string).
Proof.
  apply (DeleteLink_then_GetLinksByUser insertionSort
           (@insertionSort_Permutation Link) repoABC
           Background Background Background 1 "https://b.com").
  - exact repoABC_valid.
  - vm_compute. reflexivity.
Defined.

Lemma other_user_unaffected_witness :
  GetLinksByUser insertionSort
    (perform repoABC (OpDelete Background 12 "https://a.com")) Background 1
  = GetLinksByUser insertionSort repoABC Background 1.
Proof.
  apply (other_user_unaffected insertionSort repoABC
           (OpDelete Background 12 "https://a.com") Background 1 12).
  - apply run_RepoOK, NewBadgerRepository_OK.
  - reflexivity.
  - discriminate.
Defined.

Lemma save_save_delete_witness :
  GetLinksByUser insertionSort
    (run [OpSave t2 Background linkA; OpSave t2 Background linkB] emptyRepo)
    Background (UserID linkA)
  = ([ensureTimestamp t2 linkB; ensureTimestamp t2 linkA], None) /\
  GetLinksByUser insertionSort
    (run [OpSave t2 Background linkA; OpSave t2 Background linkB;
          OpDelete Background (UserID linkA) (URL linkA)] emptyRepo)
    Background (UserID linkA)
  = ([ensureTimestamp t2 linkB], None).
Proof.
  apply (save_save_delete insertionSort (@insertionSort_Permutation Link)
           (@insertionSort_sorted Link) linkA linkB t2 t2
           Background Background Background Background Background).
  - exact linkA_valid.
  - exact linkB_valid.
  - reflexivity.
  - apply String.eqb_neq. vm_compute. reflexivity.
  - vm_compute. reflexivity.
Defined.

Lemma GetLinksByUser_after_valid_saves_witness :
  exists links,
    GetLinksByUser insertionSort repoABC Background 1 = (links, None) /\
    forall x, In x links ->
      UserID x = 1 /\
      exists now c l,
        In (OpSave now c l)
          [OpSave t0 Background linkA; OpSave t0 Background linkB;
           OpSave t0 Background linkC; OpSave t0 Background linkOther] /\
        x = ensureTimestamp now l.
Proof.
  apply (GetLinksByUser_after_valid_saves insertionSort
           (@insertionSort_Permutation Link)
           [OpSave t0 Background linkA; OpSave t0 Background linkB;
            OpSave t0 Background linkC; OpSave t0 Background linkOther]
           Background 1).
  - exact repoABC_saves.
  - vm_compute. reflexivity.
Defined.

Lemma user_keys_contiguous_witness :
  exists url, "user:1:link:b"%string = generateLinkKey 1 url.
Proof.
  apply (user_keys_contiguous 1 "a" "c" "user:1:link:b");
    vm_compute; reflexivity.
Defined.

Lemma SaveLink_again_witness :
  SaveLink (fst (SaveLink repoABC t1 Background linkB)) t2 Background linkB
  = SaveLink repoABC t1 Background linkB.
Proof.
  apply (SaveLink_again repoABC t1 t2 Background Background linkB).
  - apply run_RepoOK, NewBadgerRepository_OK.
  - vm_compute. reflexivity.
Defined.

(** A record of user 1 under a URL the store does not hold. *)
Definition linkNew : Link :=
  mkLink "https://new.com" "N" "" 1 t1 [] false "".

Lemma SaveLink_then_DeleteLink_witness :
  fst (DeleteLink (fst (SaveLink repoABC t2 Background linkNew)) Background
         (UserID linkNew) (URL linkNew))
  = repoABC.
Proof.
  apply (SaveLink_then_DeleteLink repoABC t2 Background Background linkNew).
  - apply run_RepoOK, NewBadgerRepository_OK.
  - vm_compute. reflexivity.
Defined.

Lemma operations_commute_witness :
  perform (perform repoABC (OpSave t2 Background linkNew))
    (OpDelete Background 12 "https://a.com")
  = perform (perform repoABC (OpDelete Background 12 "https://a.com"))
      (OpSave t2 Background linkNew).
Proof.
  apply (operations_commute repoABC (OpSave t2 Background linkNew)
           (OpDelete Background 12 "https://a.com")
           (generateLinkKey 1 "https://new.com")
           (generateLinkKey 12 "https://a.com")).
  - apply run_RepoOK, NewBadgerRepository_OK.
  - reflexivity.
  - reflexivity.
  - apply String.eqb_neq. vm_compute. reflexivity.
Defined.

(** The bytes stored for [linkD]. *)
Definition docD : string :=
  Eval vm_compute in
    match json.Marshal linkD with
    | ok b => b
    | fail _ => EmptyString
    end.

Lemma Marshal_layout_witness :
  exists ms,
    json.parse docD = Some (json.JObject ms) /\
    map fst ms
    = ["url"; "title"; "description"; "user_id"; "timestamp"; "tags"; "read";
       "preview_image_url"]%string.
Proof.
  apply (Marshal_layout linkD docD). vm_compute. reflexivity.
Defined.

Lemma save_overwrite_witness :
  GetLinksByUser insertionSort
    (run [OpSave t0 Background linkA; OpSave t0 Background linkB;
          OpSave t2 Background linkA'] emptyRepo)
    Background (UserID linkA)
  = ([ensureTimestamp t2 linkA'; ensureTimestamp t0 linkB], None).
Proof.
  apply (save_overwrite insertionSort (@insertionSort_Permutation Link)
           (@insertionSort_sorted Link) linkA linkB linkA' t0 t0 t2
           Background Background Background Background).
  - exact linkA_valid.
  - exact linkB_valid.
  - exact linkA'_valid.
  - reflexivity.
  - apply String.eqb_neq. vm_compute. reflexivity.
  - reflexivity.
  - reflexivity.
  - vm_compute. reflexivity.
Defined.

(** ** The configuration *)

(** X13. [LoadConfig] returns no error exactly when reading the config
    file gave no error or only that the file was not found, decoding
    gave no error, and the token decoded is not empty.  The
    configuration it then returns has that token and a database path
    that is not empty: the path decoded, or [./badger_data] when that is
    empty.  With an error it returns the zero configuration. *)
Theorem LoadConfig_result (viper : config.Viper) (path : string) :
  let decoded := fst (config.Unmarshal viper path) in
  let cfg := fst (fst (config.LoadConfig viper path)) in
  let err := snd (fst (config.LoadConfig viper path)) in
  (err = None <->
   (forall text, config.ReadInConfig viper path <> Some (config.OtherError text)) /\
   snd (config.Unmarshal viper path) = None /\
   config.TelegramBotToken decoded <> EmptyString) /\
  (err = None ->
   config.TelegramBotToken cfg = config.TelegramBotToken decoded /\
   config.BadgerDBPath cfg <> EmptyString /\
   config.BadgerDBPath cfg
   = (if String.eqb (config.BadgerDBPath decoded) ""
      then "./badger_data"%string else config.BadgerDBPath decoded)) /\
  (err <> None -> cfg = config.zero).
Proof.
  cbv zeta. unfold config.LoadConfig. cbv zeta.
  destruct (config.ReadInConfig viper path) as [[name|text]|];
    cbn [negb fst snd].
  2: { split; [|split]; [|discriminate|reflexivity].
       split; [discriminate|]. intros [H _]. now destruct (H text). }
  all: destruct (config.Unmarshal viper path) as [[token dbPath] [e|]];
    cbn [fst snd config.TelegramBotToken config.BadgerDBPath].
  all: try (split; [|split]; [|discriminate|reflexivity];
            split; [discriminate|]; intros (_ & H & _); discriminate).
  all: destruct (String.eqb_spec token "") as [->|Ht]; cbn [fst snd].
  all: try (split; [|split]; [|discriminate|reflexivity];
            split; [discriminate|]; now intros (_ & _ & H)).
  all: destruct (String.eqb_spec dbPath "") as [->|Hp];
    cbn [fst snd config.TelegramBotToken config.BadgerDBPath].
  all: split; [|split]; try congruence.
  all: try (split; [|reflexivity]; intros _; repeat split;
            (discriminate || assumption)).
  all: intros _; repeat split; (discriminate || assumption).
Qed.

(** ** The scraper *)

Section ScrapeProperties.

Variable TrimSpace : string -> string.

(** X14. [ScrapeMetadata] returns no error exactly when the browser is
    found, launched and connected, the page is created and loaded, and
    the page and the browser close without error; the title and the
    description are then the ones extracted.  A page without title or
    description is no error. *)
Theorem ScrapeMetadata_success (l : scraper.Launcher) (url : string)
    (title description : string) :
  scraper.ScrapeMetadata TrimSpace l url
  = scraper.Return title description None <->
  exists path u page,
    scraper.LookPath l = (path, true) /\
    scraper.MustLaunch l path = Some u /\
    scraper.Browser_Connect (scraper.ControlURL l u) = None /\
    scraper.Browser_Page (scraper.ControlURL l u) url = inl page /\
    scraper.Page_WaitLoad page = None /\
    scraper.Page_Close page = None /\
    scraper.Browser_Close (scraper.ControlURL l u) = None /\
    title = scraper.extractTitle TrimSpace page /\
    description
    = scraper.extractDescription TrimSpace page scraper.descSelectors "".
Proof.
  unfold scraper.ScrapeMetadata. split.
  - destruct (scraper.LookPath l) as [path [|]] eqn:Hl; [|discriminate].
    destruct (scraper.MustLaunch l path) as [u|] eqn:Hu; [|discriminate].
    cbv zeta.
    destruct (scraper.Browser_Connect _) eqn:Hc; [discriminate|].
    destruct (scraper.Browser_Page _ url) as [page|e] eqn:Hp.
    + destruct (scraper.Page_WaitLoad page) as [e|] eqn:Hw.
      * destruct (scraper.pageCtx_Err page) as [ce|];
          [destruct (scraper.Is_DeadlineExceeded ce)|];
          destruct (scraper.Page_Close page), (scraper.Browser_Close _);
          discriminate.
      * destruct (scraper.Page_Close page) eqn:Hpc;
          destruct (scraper.Browser_Close _) eqn:Hbc; try discriminate.
        cbn [scraper.deferClose]. intros [= <- <-].
        exists path, u, page. repeat split; assumption.
    + destruct (scraper.Browser_Close _); discriminate.
  - intros (path & u & page & -> & -> & Hc & Hp & Hw & Hpc & Hbc & -> & ->).
    cbv zeta. now rewrite Hc, Hp, Hw, Hpc, Hbc.
Qed.


(** X16. The description is the trimmed content of the first selector,
    in the order of [descSelectors], whose element has a content that is
    not empty once trimmed; it is empty when there is none. *)
Theorem extractDescription_first (page : scraper.Page)
    (selectors : list string) :
  let found selector :=
    match scraper.Page_Element page selector with
    | inl descElement =>
      match scraper.Element_Attribute descElement "content" with
      | inl (Some descContent) =>
        negb (String.eqb (TrimSpace descContent) "")
      | _ => false
      end
    | inr _ => false
    end in
  match find found selectors with
  | Some selector =>
    exists descElement descContent,
      scraper.Page_Element page selector = inl descElement /\
      scraper.Element_Attribute descElement "content" = inl (Some descContent) /\
      scraper.extractDescription TrimSpace page selectors ""
      = TrimSpace descContent /\
      TrimSpace descContent <> EmptyString
  | None => scraper.extractDescription TrimSpace page selectors "" = EmptyString
  end.
Proof.
  cbv zeta. induction selectors as [|selector rest IH]; [reflexivity|].
  cbn [find scraper.extractDescription].
  destruct (scraper.Page_Element page selector) as [descElement|e] eqn:He;
    [|exact IH].
  destruct (scraper.Element_Attribute descElement "content")
    as [[descContent|]|e] eqn:Ha; [|exact IH|exact IH].
  cbv zeta.
  destruct (String.eqb_spec (TrimSpace descContent) "") as [E|N];
    cbn [negb].
  - rewrite E. exact IH.
  - exists descElement, descContent. repeat split; assumption.
Qed.

End ScrapeProperties.



